(** * Transaction signing core (src/script/sign.cpp)

    A shallow embedding of the signing driver ([SignStep], [ProduceSignature]),
    of the signature aggregation record ([SignatureData]), of the PSBT
    records and of the transaction-level entry points ([SignSignature],
    [SignPSBTInput], [DataFromTransaction]), with the properties stated
    about them.

    Conventions of the embedding:
    - a [uint8_t] is an [N]; byte vectors ([valtype], [CScript], [uint160],
      serialized keys) are [list N];
    - a [std::map] is a [gmap]; [emplace] and range [insert] keep the entry
      that is already stored;
    - a C++ function with a [bool] result and an out-parameter returns an
      [option] (or a pair with the boolean) and the mutated [SignatureData]
      is threaded explicitly;
    - an out-of-range [operator[]] or [front()] is undefined behaviour in
      C++: the embedding returns [None] there. *)

From stdpp Require Import gmap list fin_maps.

Abbreviation uint8_t := N (only parsing).
Abbreviation valtype := (list N) (only parsing).
Abbreviation CScript := (list N) (only parsing).
Abbreviation uint160 := (list N) (only parsing).
Abbreviation CKeyID := (list N) (only parsing).
Abbreviation CScriptID := (list N) (only parsing).
Abbreviation CKey := (list N) (only parsing).

(** Modelled from the spec: the class CPubKey (pubkey.h) is not at hand.
    "PubKey. Opaque serialized public-key bytes; admits .id() -> KeyId."  A
    public key is represented by its serialization, so [ToByteVector] is the
    identity. *)
Abbreviation CPubKey := (list N) (only parsing).

Definition ToByteVector (pubkey : CPubKey) : valtype := pubkey.

(** Modelled from the spec: the default constructor of CPubKey (pubkey.h) is
    not at hand.  "the source pushes an empty serialization (via an
    uninitialized pubkey)": a default-constructed key serializes to the empty
    bytestring. *)
Definition CPubKey_default : CPubKey := [].

(** [SigPair = std::pair<CPubKey, std::vector<uint8_t>>] *)
Abbreviation SigPair := (list N * list N)%type (only parsing).

(** The template tags of script/standard.h, as the switch of [SignStep]
    names them. *)
Inductive txnouttype : Type :=
  | TX_NONSTANDARD
  | TX_PUBKEY
  | TX_PUBKEYHASH
  | TX_SCRIPTHASH
  | TX_MULTISIG
  | TX_NULL_DATA.

#[global] Instance txnouttype_eq_dec : EqDecision txnouttype.
Proof. solve_decision. Defined.

(** [BaseSignatureChecker]: the one virtual method this file calls or
    overrides. *)
Record BaseSignatureChecker : Type := {
  CheckSig : valtype -> valtype -> CScript -> N -> bool
}.

(** [SigningProvider]: every lookup may miss. *)
Record SigningProvider : Type := {
  provider_GetKey : CKeyID -> option CKey;
  provider_GetPubKey : CKeyID -> option CPubKey;
  provider_GetCScript : CScriptID -> option CScript
}.

(** [BaseSignatureCreator]: [creator_CreateSig] is [Some vchSig] when the
    virtual [CreateSig] returns true. *)
Record BaseSignatureCreator : Type := {
  creator_CreateSig : SigningProvider -> CKeyID -> CScript -> option valtype;
  Checker : BaseSignatureChecker
}.

(** [struct SignatureData] (script/sign.h). *)
Record SignatureData : Type := {
  complete : bool;
  scriptSig : CScript;
  redeem_script : CScript;
  signatures : gmap (list N) (list N * list N);
  misc_pubkeys : gmap (list N) (list N)
}.

Definition SignatureData_default : SignatureData :=
  {| complete := false; scriptSig := []; redeem_script := [];
     signatures := ∅; misc_pubkeys := ∅ |}.

Definition set_complete (b : bool) (sd : SignatureData) : SignatureData :=
  {| complete := b; scriptSig := scriptSig sd;
     redeem_script := redeem_script sd; signatures := signatures sd;
     misc_pubkeys := misc_pubkeys sd |}.

Definition set_scriptSig (s : CScript) (sd : SignatureData) : SignatureData :=
  {| complete := complete sd; scriptSig := s;
     redeem_script := redeem_script sd; signatures := signatures sd;
     misc_pubkeys := misc_pubkeys sd |}.

Definition set_redeem_script (s : CScript) (sd : SignatureData)
  : SignatureData :=
  {| complete := complete sd; scriptSig := scriptSig sd;
     redeem_script := s; signatures := signatures sd;
     misc_pubkeys := misc_pubkeys sd |}.

Definition set_signatures (m : gmap (list N) (list N * list N))
    (sd : SignatureData) : SignatureData :=
  {| complete := complete sd; scriptSig := scriptSig sd;
     redeem_script := redeem_script sd; signatures := m;
     misc_pubkeys := misc_pubkeys sd |}.

Definition set_misc_pubkeys (m : gmap (list N) (list N))
    (sd : SignatureData) : SignatureData :=
  {| complete := complete sd; scriptSig := scriptSig sd;
     redeem_script := redeem_script sd; signatures := signatures sd;
     misc_pubkeys := m |}.

(** [std::map::emplace(k, v)]: inserts only when [k] has no entry. *)
Definition emplace {V : Type} (k : list N) (v : V) (m : gmap (list N) V)
  : gmap (list N) V :=
  match m !! k with
  | Some _ => m
  | None => <[k := v]> m
  end.

(** [std::map::insert(first, last)]: every element of the range is inserted
    unless its key is already stored, which is the left-biased union. *)
Definition insert_range {K : Type} `{Countable K} {V : Type}
    (m other : gmap K V) : gmap K V := m ∪ other.

(** The collaborators that sign.cpp calls and that live in other files of
    the repository (hash.h, pubkey.h, script/standard.cpp, script/script.h,
    script/interpreter.cpp, script/sighashtype.h). *)
Class Collaborators : Type := {
  (** [Hash160] of a byte range; [CPubKey::GetID] and [CScriptID(script)]
      are this hash of the serialization. *)
  Hash160 : valtype -> uint160;
  (** [CPubKey(const std::vector<uint8_t> &)] *)
  CPubKey_of_bytes : valtype -> CPubKey;
  (** [Solver(scriptPubKey, typeRet, vSolutionsRet)] *)
  Solver : CScript -> bool * txnouttype * list valtype;
  (** [VerifyScript(scriptSig, scriptPubKey, flags, checker)] *)
  VerifyScript : CScript -> CScript -> N -> BaseSignatureChecker -> bool;
  STANDARD_SCRIPT_VERIFY_FLAGS : N;
  (** [CScript::operator<<(opcodetype)] *)
  push_opcode : CScript -> N -> CScript;
  (** [CScript::operator<<(const std::vector<uint8_t> &)] *)
  push_data : CScript -> valtype -> CScript;
  OP_0 : N;
  (** [CScript::EncodeOP_N] *)
  EncodeOP_N : N -> N;
  SIGHASH_ALL : N;
  SIGHASH_FORKID : N
}.

Section Signing.
Context `{ext : Collaborators}.

Definition GetID (pubkey : CPubKey) : CKeyID := Hash160 pubkey.

Definition CScriptID_of (script : CScript) : CScriptID := Hash160 script.

(** [static bool GetCScript(provider, sigdata, scriptid, script)]:
    [Some script] when it returns true. *)
Definition GetCScript (provider : SigningProvider) (sigdata : SignatureData)
    (scriptid : CScriptID) : option CScript :=
  match provider_GetCScript provider scriptid with
  | Some script => Some script
  | None =>
      if decide (CScriptID_of (redeem_script sigdata) = scriptid)
      then Some (redeem_script sigdata)
      else None
  end.

(** [static bool GetPubKey(provider, sigdata, address, pubkey)]: the second
    component is the out-parameter [pubkey], left as it was when the result
    is false. *)
Definition GetPubKey (provider : SigningProvider) (sigdata : SignatureData)
    (address : CKeyID) (pubkey : CPubKey)
  : bool * CPubKey * SignatureData :=
  match provider_GetPubKey provider address with
  | Some pk =>
      (true, pk,
       set_misc_pubkeys (emplace (GetID pk) pk (misc_pubkeys sigdata)) sigdata)
  | None =>
      match signatures sigdata !! address with
      | Some p => (true, fst p, sigdata)
      | None =>
          match misc_pubkeys sigdata !! address with
          | Some pk => (true, pk, sigdata)
          | None => (false, pubkey, sigdata)
          end
      end
  end.

(** [static bool CreateSig(creator, sigdata, provider, sig_out, keyid,
    scriptcode)]: [Some sig_out] when it returns true.  The [emplace] on
    [signatures] is the one the source asserts to be fresh. *)
Definition CreateSig (creator : BaseSignatureCreator) (sigdata : SignatureData)
    (provider : SigningProvider) (keyid : CKeyID) (scriptcode : CScript)
  : option valtype * SignatureData :=
  match signatures sigdata !! keyid with
  | Some p => (Some (snd p), sigdata)
  | None =>
      let '(_, pubkey, sigdata1) :=
        GetPubKey provider sigdata keyid CPubKey_default in
      match creator_CreateSig creator provider keyid scriptcode with
      | Some sig_out =>
          (Some sig_out,
           set_signatures
             (emplace keyid (pubkey, sig_out) (signatures sigdata1)) sigdata1)
      | None => (None, sigdata1)
      end
  end.

(** The entries [vSolutions[1] .. vSolutions[size - 2]] that the first loop
    of the MULTISIG arm visits. *)
Definition multisig_pubkeys (vSolutions : list valtype) : list valtype :=
  take (length vSolutions - 2) (drop 1 vSolutions).

(** One iteration of
    [for (size_t i = 1; i < vSolutions.size() - 1; ++i)]: the test on
    [ret.size()] comes first and [&&] short-circuits. *)
Definition multisig_step (provider : SigningProvider)
    (creator : BaseSignatureCreator) (scriptPubKey : CScript) (required : N)
    (st : list valtype * SignatureData) (vch : valtype)
  : list valtype * SignatureData :=
  let '(ret, sigdata) := st in
  let pubkey := CPubKey_of_bytes vch in
  if (N.of_nat (length ret) <? required + 1)%N then
    match CreateSig creator sigdata provider (GetID pubkey) scriptPubKey with
    | (Some sig, sigdata') => (ret ++ [sig], sigdata')
    | (None, sigdata') => (ret, sigdata')
    end
  else (ret, sigdata).

Definition multisig_loop (provider : SigningProvider)
    (creator : BaseSignatureCreator) (scriptPubKey : CScript) (required : N)
    (pubkeys : list valtype) (st : list valtype * SignatureData)
  : list valtype * SignatureData :=
  fold_left (multisig_step provider creator scriptPubKey required) pubkeys st.

(** [for (size_t i = 0; i + ret.size() < required + 1; ++i)
       ret.push_back(valtype());]
    Both [i] and [ret.size()] grow in every iteration.  [fuel] bounds the
    number of iterations; [required + 1] is always enough
    ([pad_loop_fuel]). *)
Fixpoint pad_loop (fuel : nat) (required : N) (i : N) (ret : list valtype)
  : list valtype :=
  match fuel with
  | O => ret
  | S fuel' =>
      if (i + N.of_nat (length ret) <? required + 1)%N
      then pad_loop fuel' required (i + 1)%N (ret ++ [[]])
      else ret
  end.

(** [static bool SignStep(provider, creator, scriptPubKey, ret, whichTypeRet,
    sigdata)]: the result is the returned boolean, [ret], [whichTypeRet] and
    the [sigdata] after the call. *)
Definition SignStep (provider : SigningProvider)
    (creator : BaseSignatureCreator) (scriptPubKey : CScript)
    (sigdata : SignatureData)
  : option (bool * list valtype * txnouttype * SignatureData) :=
  let '(solved, whichTypeRet, vSolutions) := Solver scriptPubKey in
  if negb solved then Some (false, [], whichTypeRet, sigdata) else
  match whichTypeRet with
  | TX_NONSTANDARD | TX_NULL_DATA => Some (false, [], whichTypeRet, sigdata)
  | TX_PUBKEY =>
      v0 ← vSolutions !! 0%nat;
      match CreateSig creator sigdata provider
              (GetID (CPubKey_of_bytes v0)) scriptPubKey with
      | (Some sig, sigdata') => Some (true, [sig], whichTypeRet, sigdata')
      | (None, sigdata') => Some (false, [], whichTypeRet, sigdata')
      end
  | TX_PUBKEYHASH =>
      v0 ← vSolutions !! 0%nat;
      let keyID : CKeyID := v0 in
      match CreateSig creator sigdata provider keyID scriptPubKey with
      | (Some sig, sigdata') =>
          let pubkey :=
            match provider_GetPubKey provider keyID with
            | Some pk => pk
            | None => CPubKey_default
            end in
          Some (true, [sig; ToByteVector pubkey], whichTypeRet, sigdata')
      | (None, sigdata') => Some (false, [], whichTypeRet, sigdata')
      end
  | TX_SCRIPTHASH =>
      v0 ← vSolutions !! 0%nat;
      match GetCScript provider sigdata v0 with
      | Some scriptRet => Some (true, [scriptRet], whichTypeRet, sigdata)
      | None => Some (false, [], whichTypeRet, sigdata)
      end
  | TX_MULTISIG =>
      front ← head vSolutions;
      required ← head front;
      let '(ret, sigdata') :=
        multisig_loop provider creator scriptPubKey required
          (multisig_pubkeys vSolutions) ([[]], sigdata) in
      let ok := (N.of_nat (length ret) =? required + 1)%N in
      Some (ok, pad_loop (N.to_nat (required + 1)) required 0%N ret,
            whichTypeRet, sigdata')
  end.

(** [static CScript PushAll(const std::vector<valtype> &values)] *)
Definition PushAll_step (result : CScript) (v : valtype) : CScript :=
  match v with
  | [] => push_opcode result OP_0
  | [b] =>
      if (1 <=? b)%N && (b <=? 16)%N
      then push_opcode result (EncodeOP_N b)
      else push_data result v
  | _ => push_data result v
  end.

Definition PushAll (values : list valtype) : CScript :=
  fold_left PushAll_step values [].

(** [bool ProduceSignature(provider, creator, fromPubKey, sigdata)]: the
    returned boolean and the [sigdata] after the call. *)
Definition ProduceSignature (provider : SigningProvider)
    (creator : BaseSignatureCreator) (fromPubKey : CScript)
    (sigdata : SignatureData) : option (bool * SignatureData) :=
  if complete sigdata then Some (true, sigdata) else
  '(solved, result, whichType, sigdata1) ←
    SignStep provider creator fromPubKey sigdata;
  '(solved', result', sigdata2) ←
    (if solved && bool_decide (whichType = TX_SCRIPTHASH) then
       subscript ← result !! 0%nat;
       '(solved2, result2, whichType2, sigdata2) ←
         SignStep provider creator subscript
           (set_redeem_script subscript sigdata1);
       Some (solved && solved2 && negb (bool_decide (whichType2 = TX_SCRIPTHASH)),
             result2 ++ [subscript], sigdata2)
     else Some (solved, result, sigdata1));
  let sigdata3 := set_scriptSig (PushAll result') sigdata2 in
  let complete' :=
    solved' && VerifyScript (scriptSig sigdata3) fromPubKey
                 STANDARD_SCRIPT_VERIFY_FLAGS (Checker creator) in
  Some (complete', set_complete complete' sigdata3).

(** [void SignatureData::MergeSignatureData(SignatureData sigdata)]: the
    receiver after the call. *)
Definition MergeSignatureData (self sigdata : SignatureData) : SignatureData :=
  if complete self then self
  else if complete sigdata then sigdata
  else
    let self1 :=
      if bool_decide (redeem_script self = []) &&
         negb (bool_decide (redeem_script sigdata = []))
      then set_redeem_script (redeem_script sigdata) self
      else self in
    set_signatures
      (insert_range (signatures self1) (signatures sigdata)) self1.

(** [DummySignatureChecker::CheckSig] accepts every signature. *)
Definition DUMMY_CHECKER : BaseSignatureChecker :=
  {| CheckSig := fun _ _ _ _ => true |}.

(** The conversion of an [int] to [uint8_t]. *)
Definition to_uint8 (n : N) : N := (n mod 256)%N.

(** [DummySignatureCreator::CreateSig]: [vchSig.assign(72, '\000')] followed
    by the nine indexed stores, all of them in range. *)
Definition DummySignatureCreator_CreateSig (provider : SigningProvider)
    (keyid : CKeyID) (scriptCode : CScript) : option valtype :=
  let vchSig : list N := replicate 72 0%N in
  let vchSig := <[0%nat := 0x30%N]> vchSig in
  let vchSig := <[1%nat := 69%N]> vchSig in
  let vchSig := <[2%nat := 0x02%N]> vchSig in
  let vchSig := <[3%nat := 33%N]> vchSig in
  let vchSig := <[4%nat := 0x01%N]> vchSig in
  let vchSig := <[(4 + 33)%nat := 0x02%N]> vchSig in
  let vchSig := <[(5 + 33)%nat := 32%N]> vchSig in
  let vchSig := <[(6 + 33)%nat := 0x01%N]> vchSig in
  let vchSig :=
    <[(6 + 33 + 32)%nat := to_uint8 (N.lor SIGHASH_ALL SIGHASH_FORKID)]>
      vchSig in
  Some vchSig.

Definition DUMMY_SIGNATURE_CREATOR : BaseSignatureCreator :=
  {| creator_CreateSig := DummySignatureCreator_CreateSig;
     Checker := DUMMY_CHECKER |}.

(** The variant of the first MULTISIG loop that the specification describes:
    "iterate the pubkeys in order and attempt to sign with each; stop
    collecting once m signatures are gathered but continue iterating to give
    every key a chance".  It follows the specification's words, not the
    source, and is only compared with [multisig_step]. *)
Definition multisig_step_every_key (provider : SigningProvider)
    (creator : BaseSignatureCreator) (scriptPubKey : CScript) (required : N)
    (st : list valtype * SignatureData) (vch : valtype)
  : list valtype * SignatureData :=
  let '(ret, sigdata) := st in
  let pubkey := CPubKey_of_bytes vch in
  match CreateSig creator sigdata provider (GetID pubkey) scriptPubKey with
  | (Some sig, sigdata') =>
      if (N.of_nat (length ret) <? required + 1)%N
      then (ret ++ [sig], sigdata')
      else (ret, sigdata')
  | (None, sigdata') => (ret, sigdata')
  end.

Definition multisig_loop_every_key (provider : SigningProvider)
    (creator : BaseSignatureCreator) (scriptPubKey : CScript) (required : N)
    (pubkeys : list valtype) (st : list valtype * SignatureData)
  : list valtype * SignatureData :=
  fold_left (multisig_step_every_key provider creator scriptPubKey required)
    pubkeys st.

(** ** Notions used in the statements *)

(** [sigdata.scriptSig = x; sigdata.complete = b;] *)
Definition with_flags (b : bool) (x : CScript) (sd : SignatureData)
  : SignatureData :=
  set_complete b (set_scriptSig x sd).

Definition lift_flags {A : Type} (b : bool) (x : CScript)
    (r : A * SignatureData) : A * SignatureData :=
  (fst r, with_flags b x (snd r)).

Definition lift_result (b : bool) (x : CScript)
    (r : bool * list valtype * txnouttype * SignatureData)
  : bool * list valtype * txnouttype * SignatureData :=
  (r.1, with_flags b x r.2).

(** The last three statements of [ProduceSignature], from the stack
    [result] and the flag [solved]. *)
Definition finish (creator : BaseSignatureCreator) (fromPubKey : CScript)
    (solved : bool) (result : list valtype) (sd : SignatureData)
  : bool * SignatureData :=
  let cpl := solved && VerifyScript (PushAll result) fromPubKey
                         STANDARD_SCRIPT_VERIFY_FLAGS (Checker creator) in
  (cpl, with_flags cpl (PushAll result) sd).

(** What a call leaves alone: the flags, the redeem script and every entry
    of [signatures]. *)
Definition preserved (sd sd' : SignatureData) : Prop :=
  complete sd' = complete sd /\ scriptSig sd' = scriptSig sd /\
  redeem_script sd' = redeem_script sd /\
  forall k v, signatures sd !! k = Some v -> signatures sd' !! k = Some v.


(** The entries of [vSolutions] that [SignStep] reads by index exist:
    [vSolutions[0]] for PUBKEY, PUBKEYHASH and SCRIPTHASH, and
    [vSolutions.front()[0]] for MULTISIG.  The table of template shapes
    ([pubkey], [keyid], [scriptid], [[m], pk1 .. pkn, [n]]) promises it. *)
Definition solutions_in_range (r : bool * txnouttype * list valtype) : bool :=
  match r with
  | (true, (TX_PUBKEY | TX_PUBKEYHASH | TX_SCRIPTHASH), sols) =>
      match sols with [] => false | _ => true end
  | (true, TX_MULTISIG, sols) =>
      match sols with (_ :: _) :: _ => true | _ => false end
  | _ => true
  end.

Definition Solver_in_range : Prop :=
  forall script, solutions_in_range (Solver script) = true.

(** Modelled from the spec: the script interpreter behind [VerifyScript]
    (script/interpreter.cpp) is not at hand.  "if provider misses the
    pubkey, an empty bytestring is pushed - the resulting scriptSig will fail
    verification": the scriptSig that pushes [sig] and then the empty
    serialization does not verify against [scriptPubKey]. *)
Definition empty_pubkey_fails_verification (scriptPubKey : CScript)
    (sig : valtype) (checker : BaseSignatureChecker) : Prop :=
  VerifyScript (PushAll [sig; ToByteVector CPubKey_default]) scriptPubKey
    STANDARD_SCRIPT_VERIFY_FLAGS checker = false.

End Signing.

(** [SigningProvider()], the base class: every lookup misses. *)
Definition DUMMY_SIGNING_PROVIDER : SigningProvider :=
  {| provider_GetKey := fun _ => None;
     provider_GetPubKey := fun _ => None;
     provider_GetCScript := fun _ => None |}.

(** ** PSBT input records *)

Module PSBTInput.
Section Model.
(** [CTxOut] and [CTxOut::IsNull] (primitives/transaction.h). *)
Variable CTxOut : Type.
Variable IsNull : CTxOut -> bool.

Record t : Type := {
  utxo : CTxOut;
  partial_sigs : gmap (list N) (list N * list N);
  hd_keypaths : gmap (list N) (list N);
  redeem_script : CScript;
  final_script_sig : CScript;
  unknown : gmap (list N) (list N)
}.

(** [void PSBTInput::Merge(const PSBTInput &input)]: the receiver after the
    call. *)
Definition Merge (self input : t) : t :=
  {| utxo :=
       if IsNull (utxo self) && negb (IsNull (utxo input))
       then utxo input else utxo self;
     partial_sigs := insert_range (partial_sigs self) (partial_sigs input);
     hd_keypaths := insert_range (hd_keypaths self) (hd_keypaths input);
     unknown := insert_range (unknown self) (unknown input);
     redeem_script :=
       if bool_decide (redeem_script self = []) &&
          negb (bool_decide (redeem_script input = []))
       then redeem_script input else redeem_script self;
     final_script_sig :=
       if bool_decide (final_script_sig self = []) &&
          negb (bool_decide (final_script_sig input = []))
       then final_script_sig input else final_script_sig self |}.

(** The [(KeyId -> signature)] pairs of the partial signatures. *)
Definition sig_pairs (input : t) : gmap (list N) (list N) :=
  snd <$> partial_sigs input.

End Model.

Arguments utxo {CTxOut} _.
Arguments partial_sigs {CTxOut} _.
Arguments hd_keypaths {CTxOut} _.
Arguments redeem_script {CTxOut} _.
Arguments final_script_sig {CTxOut} _.
Arguments unknown {CTxOut} _.
Arguments Merge {CTxOut} IsNull self input.
Arguments sig_pairs {CTxOut} input.
End PSBTInput.

(** ** A small instance of the collaborators

    Concrete stand-ins for the collaborators, used to run the embedding on
    explicit inputs.  A script starts with a tag byte: [1 :: pubkey],
    [2 :: keyid], [3 :: scriptid], [4 :: m :: pubkeys] (one byte per key) and
    [5 :: data] stand for PUBKEY, PUBKEYHASH, SCRIPTHASH, MULTISIG and
    NULL_DATA.  A private key is its public key with every byte incremented,
    and a signature is [48 :: key ++ scriptCode ++ [65]]. *)
Module Demo.

Definition Hash160 (v : valtype) : uint160 := 160%N :: v.

Definition Solver (script : CScript) : bool * txnouttype * list valtype :=
  match script with
  | 1%N :: pk => (true, TX_PUBKEY, [pk])
  | 2%N :: h => (true, TX_PUBKEYHASH, [h])
  | 3%N :: h => (true, TX_SCRIPTHASH, [h])
  | 4%N :: m :: pks =>
      (true, TX_MULTISIG,
       [m] :: map (fun b => [b]) pks ++ [[N.of_nat (length pks)]])
  | 5%N :: _ => (true, TX_NULL_DATA, [])
  | _ => (false, TX_NONSTANDARD, [])
  end.

Definition push_opcode (s : CScript) (op : N) : CScript := s ++ [op].

Definition push_data (s : CScript) (v : valtype) : CScript :=
  s ++ N.of_nat (length v) :: v.

(** The stack a push-only script leaves. *)
Fixpoint decode (fuel : nat) (s : CScript) : list valtype :=
  match fuel, s with
  | S fuel', b :: rest =>
      if (b =? 0)%N then [] :: decode fuel' rest
      else if (81 <=? b)%N && (b <=? 96)%N
           then [(b - 80)%N] :: decode fuel' rest
           else take (N.to_nat b) rest
                  :: decode fuel' (drop (N.to_nat b) rest)
  | _, _ => []
  end.

Definition verify_stack (stack : list valtype) (script : CScript) (flags : N)
    (checker : BaseSignatureChecker) : bool :=
  match Solver script with
  | (true, TX_PUBKEY, [pk]) =>
      match stack with
      | [sig] => CheckSig checker sig pk script flags
      | _ => false
      end
  | (true, TX_PUBKEYHASH, [h]) =>
      match stack with
      | [sig; pk] =>
          bool_decide (Hash160 pk = h) && CheckSig checker sig pk script flags
      | _ => false
      end
  | (true, TX_MULTISIG, [m] :: rest) =>
      match stack with
      | [] :: sigs =>
          (N.of_nat (length sigs) =? m)%N &&
          forallb
            (fun sig =>
               existsb (fun pk => CheckSig checker sig pk script flags)
                 (removelast rest))
            sigs
      | _ => false
      end
  | _ => false
  end.

Definition VerifyScript (scriptSig scriptPubKey : CScript) (flags : N)
    (checker : BaseSignatureChecker) : bool :=
  let stack := decode (length scriptSig) scriptSig in
  match Solver scriptPubKey with
  | (true, TX_SCRIPTHASH, [h]) =>
      match reverse stack with
      | script :: below =>
          bool_decide (Hash160 script = h) &&
          verify_stack (reverse below) script flags checker
      | [] => false
      end
  | _ => verify_stack stack scriptPubKey flags checker
  end.

(** [SIGHASH_ALL = 1] and [SIGHASH_FORKID = 0x40]; [OP_0 = 0x00] and
    [OP_1 .. OP_16 = 0x51 .. 0x60]. *)
Definition ext : Collaborators :=
  Build_Collaborators Hash160 (fun v => v) Solver VerifyScript 0%N
    push_opcode push_data 0%N (fun n => (80 + n)%N) 1%N 0x40%N.

Definition privkey (pubkey : valtype) : valtype := map N.succ pubkey.

Definition sign (key : valtype) (scriptCode : CScript) : valtype :=
  48%N :: key ++ scriptCode ++ [65%N].

Definition checker : BaseSignatureChecker :=
  {| CheckSig := fun sig pubkey scriptCode _ =>
       bool_decide (sig = sign (privkey pubkey) scriptCode) |}.

(** The creator looks the private key up and signs, as
    [MutableTransactionSignatureCreator::CreateSig] does. *)
Definition creator : BaseSignatureCreator :=
  {| creator_CreateSig := fun provider keyid scriptCode =>
       match provider_GetKey provider keyid with
       | Some key => Some (sign key scriptCode)
       | None => None
       end;
     Checker := checker |}.

(** A key store holding the keys of [pubkeys] and the scripts [scripts]. *)
Definition keystore (pubkeys : list valtype) (scripts : list CScript)
  : SigningProvider :=
  {| provider_GetKey := fun keyid =>
       privkey <$> find (fun pk => bool_decide (Hash160 pk = keyid)) pubkeys;
     provider_GetPubKey := fun keyid =>
       find (fun pk => bool_decide (Hash160 pk = keyid)) pubkeys;
     provider_GetCScript := fun scriptid =>
       find (fun s => bool_decide (Hash160 s = scriptid)) scripts |}.

(** A provider that can sign for [pubkeys] and knows no public key. *)
Definition keys_only (pubkeys : list valtype) : SigningProvider :=
  {| provider_GetKey := provider_GetKey (keystore pubkeys []);
     provider_GetPubKey := fun _ => None;
     provider_GetCScript := fun _ => None |}.

(** Two partial records of one input (same [utxo], same redeem script)
    that carry different signatures for the key id [[160; 11]], as two
    signers using different sighash types produce. *)
Definition input_a : PSBTInput.t (Z * list N) :=
  {| PSBTInput.utxo := (5000%Z, [3; 160; 4; 1; 11]%N);
     PSBTInput.partial_sigs := {[ [160; 11]%N := ([11%N], [48; 12; 65]%N) ]};
     PSBTInput.hd_keypaths := ∅;
     PSBTInput.redeem_script := [4; 1; 11]%N;
     PSBTInput.final_script_sig := [];
     PSBTInput.unknown := ∅ |}.

Definition input_b : PSBTInput.t (Z * list N) :=
  {| PSBTInput.utxo := (5000%Z, [3; 160; 4; 1; 11]%N);
     PSBTInput.partial_sigs := {[ [160; 11]%N := ([11%N], [48; 12; 193]%N) ]};
     PSBTInput.hd_keypaths := ∅;
     PSBTInput.redeem_script := [4; 1; 11]%N;
     PSBTInput.final_script_sig := [];
     PSBTInput.unknown := ∅ |}.

(** Two partial records with signatures of different keys; only the second
    knows the redeem script. *)
Definition input_c : PSBTInput.t (Z * list N) :=
  {| PSBTInput.utxo := (5000%Z, [3; 160; 4; 2; 11; 12]%N);
     PSBTInput.partial_sigs := {[ [160; 11]%N := ([11%N], [48; 12; 65]%N) ]};
     PSBTInput.hd_keypaths := ∅;
     PSBTInput.redeem_script := [];
     PSBTInput.final_script_sig := [];
     PSBTInput.unknown := ∅ |}.

Definition input_d : PSBTInput.t (Z * list N) :=
  {| PSBTInput.utxo := (5000%Z, [3; 160; 4; 2; 11; 12]%N);
     PSBTInput.partial_sigs := {[ [160; 12]%N := ([12%N], [48; 13; 65]%N) ]};
     PSBTInput.hd_keypaths := ∅;
     PSBTInput.redeem_script := [4; 2; 11; 12]%N;
     PSBTInput.final_script_sig := [];
     PSBTInput.unknown := ∅ |}.

Definition IsNull (out : Z * list N) : bool := bool_decide (out.1 = (-1)%Z).

(** Locking scripts and signature data used as explicit inputs. *)
Definition p2pkh : CScript := 2%N :: Hash160 [11%N].

Definition multisig_2of2 : CScript := [4; 2; 11; 12]%N.

Definition multisig_3of3 : CScript := [4; 3; 11; 12; 13]%N.

Definition multisig_1of2 : CScript := [4; 1; 11; 12]%N.

Definition multisig_2of3 : CScript := [4; 2; 11; 12; 13]%N.

Definition p2sh_2of3 : CScript := 3%N :: Hash160 multisig_2of3.

Definition p2sh_inner : CScript := 3%N :: Hash160 [1; 11]%N.

Definition p2sh_nested : CScript := 3%N :: Hash160 p2sh_inner.

(** An incomplete record left by an earlier attempt: a scriptSig and one
    signature. *)
Definition stale : SignatureData :=
  {| complete := false; scriptSig := [9; 9; 9]%N; redeem_script := [];
     signatures := {[ [160; 77]%N := ([77%N], [48; 78; 65]%N) ]};
     misc_pubkeys := ∅ |}.

End Demo.

(** ** Notions used by the properties of the signing driver *)

Section SigningNotions.
Context `{ext : Collaborators}.

(** Every stored signature sits under the id of the public key stored with
    it (or the key is the default one, which [CreateSig] stores when the
    public key is unknown), and every entry of [misc_pubkeys] sits under the
    id of its key. *)
Definition well_keyed (sd : SignatureData) : Prop :=
  (forall k pk sig, signatures sd !! k = Some (pk, sig) ->
     pk = CPubKey_default \/ GetID pk = k) /\
  (forall k pk, misc_pubkeys sd !! k = Some pk -> GetID pk = k).

(** The provider answers a look-up by key id with a key of that id. *)
Definition provider_consistent (provider : SigningProvider) : Prop :=
  forall k pk, provider_GetPubKey provider k = Some pk -> GetID pk = k.

(** [s] extends the signatures of [sd0], and what it adds was made by the
    creator for the key id it is stored under, over the script code [sc]. *)
Definition from_creator (creator : BaseSignatureCreator)
    (provider : SigningProvider) (sd0 : SignatureData) (sc : CScript)
    (s : SignatureData) : Prop :=
  (forall k v, signatures sd0 !! k = Some v -> signatures s !! k = Some v) /\
  forall k pk sig,
    signatures s !! k = Some (pk, sig) ->
    signatures sd0 !! k = Some (pk, sig) \/
    (signatures sd0 !! k = None /\
     creator_CreateSig creator provider k sc = Some sig).

(** The 72 bytes that [DummySignatureCreator::CreateSig] writes. *)
Definition dummy_signature : valtype :=
  [0x30; 0x45; 0x02; 0x21; 0x01]%N ++ replicate 32 0%N ++
  [0x02; 0x20; 0x01]%N ++ replicate 31 0%N ++
  [to_uint8 (N.lor SIGHASH_ALL SIGHASH_FORKID)].

Definition all_dummy (sd : SignatureData) : Prop :=
  forall k pk sig, signatures sd !! k = Some (pk, sig) -> sig = dummy_signature.

(** The signatures that [sd] stores for the keys [pks], in the order of the
    keys. *)
Definition stored_sigs (sd : SignatureData) (pks : list valtype)
  : list valtype :=
  omap (fun vch => snd <$> signatures sd !! GetID (CPubKey_of_bytes vch)) pks.

End SigningNotions.

(** ** Transactions

    The transaction types of primitives/transaction.h with the members that
    sign.cpp reads or writes ([vin], [vout], [scriptSig], [prevout.GetN()],
    [nValue], [scriptPubKey]); an [Amount] is a [Z], an [unsigned int] an
    [N], and a [SigHashType] is its raw value (what [getRawSigHashType()]
    returns). *)

Module COutPoint.
Record t : Type := {
  txid : list N;
  n : N
}.
End COutPoint.

Module CTxIn.
Record t : Type := {
  prevout : COutPoint.t;
  scriptSig : CScript;
  nSequence : N
}.
End CTxIn.

Module CTxOut.
Record t : Type := {
  nValue : Z;
  scriptPubKey : CScript
}.
End CTxOut.

Module CMutableTransaction.
Record t : Type := {
  nVersion : Z;
  vin : list CTxIn.t;
  vout : list CTxOut.t;
  nLockTime : N
}.

Definition set_vin (v : list CTxIn.t) (tx : t) : t :=
  {| nVersion := nVersion tx; vin := v; vout := vout tx;
     nLockTime := nLockTime tx |}.
End CMutableTransaction.

(** The [CheckSig] calls that the script interpreter makes on its checker
    and what it does with the answers, down to its verdict. *)
Inductive CheckSigCalls : Type :=
  | Verdict (result : bool)
  | CallCheckSig (vchSig vchPubKey : valtype) (scriptCode : CScript)
      (flags : N) (next : bool -> CheckSigCalls).

(** The collaborators of the transaction-level functions
    (script/interpreter.cpp, key.h, pubkey.h, primitives/transaction.h). *)
Class TxCollaborators : Type := {
  (** [SignatureHash(scriptCode, txTo, nIn, sigHashType, amount)] *)
  SignatureHash :
    CScript -> CMutableTransaction.t -> N -> N -> Z -> list N;
  (** [CKey::SignECDSA(hash, vchSig)] *)
  SignECDSA : CKey -> list N -> option valtype;
  (** [MutableTransactionSignatureChecker(txTo, nIn, amount)] *)
  MutableTransactionSignatureChecker :
    CMutableTransaction.t -> N -> Z -> BaseSignatureChecker;
  (** [CTxOut::IsNull] *)
  CTxOut_IsNull : CTxOut.t -> bool;
  MANDATORY_SCRIPT_VERIFY_FLAGS : N;
  (** [EvalScript(stack, script, flags, BaseSignatureChecker())]: the result
      and the stack it leaves. *)
  EvalScript : list valtype -> CScript -> N -> bool * list valtype;
  (** [VerifyScript(scriptSig, scriptPubKey, flags, checker)] run with a
      checker that overrides [CheckSig] only. *)
  VerifyScript_calls : CScript -> CScript -> N -> CheckSigCalls;
  (** The keys of a [std::map<CPubKey, KeyOriginInfo>] in the order in which
      a range-for visits them. *)
  hd_keypaths_order : gmap (list N) (list N) -> list CPubKey
}.

(** [PSBTOutput] *)
Module PSBTOutput.
Record t : Type := {
  redeem_script : CScript;
  hd_keypaths : gmap (list N) (list N);
  unknown : gmap (list N) (list N)
}.

(** [bool PSBTOutput::IsNull() const] *)
Definition IsNull (output : t) : bool :=
  bool_decide (redeem_script output = []) &&
  bool_decide (hd_keypaths output = ∅) &&
  bool_decide (unknown output = ∅).

(** [void PSBTOutput::Merge(const PSBTOutput &output)]: the receiver after
    the call. *)
Definition Merge (self output : t) : t :=
  {| hd_keypaths := insert_range (hd_keypaths self) (hd_keypaths output);
     unknown := insert_range (unknown self) (unknown output);
     redeem_script :=
       if bool_decide (redeem_script self = []) &&
          negb (bool_decide (redeem_script output = []))
       then redeem_script output else redeem_script self |}.
End PSBTOutput.

(** [for (size_t i = 0; i < mine.size(); ++i) mine[i].Merge(theirs[i]);]
    from index [i] on; [theirs[i]] out of range has no defined result. *)
Fixpoint merge_each {A : Type} (Merge : A -> A -> A) (theirs : list A)
    (i : nat) (mine : list A) : option (list A) :=
  match mine with
  | [] => Some []
  | x :: rest =>
      match theirs !! i with
      | Some y =>
          match merge_each Merge theirs (S i) rest with
          | Some rest' => Some (Merge x y :: rest')
          | None => None
          end
      | None => None
      end
  end.

Section Transactions.
Context `{ext : Collaborators} `{tx_ext : TxCollaborators}.

(** [MutableTransactionSignatureCreator]: [CreateSig] and [Checker()]. *)
Definition MutableTransactionSignatureCreator (txTo : CMutableTransaction.t)
    (nIn : N) (amount : Z) (sigHashType : N) : BaseSignatureCreator :=
  {| creator_CreateSig := fun provider address scriptCode =>
       match provider_GetKey provider address with
       | None => None
       | Some key =>
           let hash := SignatureHash scriptCode txTo nIn sigHashType amount in
           match SignECDSA key hash with
           | None => None
           | Some vchSig => Some (vchSig ++ [to_uint8 sigHashType])
           end
       end;
     Checker := MutableTransactionSignatureChecker txTo nIn amount |}.

(** [void UpdateInput(CTxIn &input, const SignatureData &data)] *)
Definition UpdateInput (input : CTxIn.t) (data : SignatureData) : CTxIn.t :=
  {| CTxIn.prevout := CTxIn.prevout input;
     CTxIn.scriptSig := scriptSig data;
     CTxIn.nSequence := CTxIn.nSequence input |}.

(** [bool SignSignature(provider, fromPubKey, txTo, nIn, amount,
    sigHashType)]: the result and [txTo] after the call; [None] when the
    assertion fails. *)
Definition SignSignature (provider : SigningProvider) (fromPubKey : CScript)
    (txTo : CMutableTransaction.t) (nIn : N) (amount : Z) (sigHashType : N)
  : option (bool * CMutableTransaction.t) :=
  if bool_decide (N.to_nat nIn < length (CMutableTransaction.vin txTo)) then
    let creator :=
      MutableTransactionSignatureCreator txTo nIn amount sigHashType in
    match ProduceSignature provider creator fromPubKey SignatureData_default with
    | Some (ret, sigdata) =>
        match CMutableTransaction.vin txTo !! N.to_nat nIn with
        | Some txin =>
            Some (ret,
                  CMutableTransaction.set_vin
                    (<[N.to_nat nIn := UpdateInput txin sigdata]>
                       (CMutableTransaction.vin txTo))
                    txTo)
        | None => None
        end
    | None => None
    end
  else None.

(** [bool SignSignature(provider, txFrom, txTo, nIn, sigHashType)] *)
Definition SignSignature_from (provider : SigningProvider)
    (txFrom txTo : CMutableTransaction.t) (nIn : N) (sigHashType : N)
  : option (bool * CMutableTransaction.t) :=
  if bool_decide (N.to_nat nIn < length (CMutableTransaction.vin txTo)) then
    match CMutableTransaction.vin txTo !! N.to_nat nIn with
    | Some txin =>
        let n := COutPoint.n (CTxIn.prevout txin) in
        if bool_decide (N.to_nat n < length (CMutableTransaction.vout txFrom))
        then
          match CMutableTransaction.vout txFrom !! N.to_nat n with
          | Some txout =>
              SignSignature provider (CTxOut.scriptPubKey txout) txTo nIn
                (CTxOut.nValue txout) sigHashType
          | None => None
          end
        else None
    | None => None
    end
  else None.

(** *** PSBT records and signature data *)

(** [bool PSBTInput::IsNull() const] *)
Definition PSBTInput_IsNull (input : PSBTInput.t CTxOut.t) : bool :=
  CTxOut_IsNull (PSBTInput.utxo input) &&
  bool_decide (PSBTInput.partial_sigs input = ∅) &&
  bool_decide (PSBTInput.unknown input = ∅) &&
  bool_decide (PSBTInput.hd_keypaths input = ∅) &&
  bool_decide (PSBTInput.redeem_script input = []).

(** [bool PSBTInput::IsSane() const] *)
Definition PSBTInput_IsSane (input : PSBTInput.t CTxOut.t) : bool := true.

(** [for (const auto &key_pair : hd_keypaths)
       sigdata.misc_pubkeys.emplace(key_pair.first.GetID(), key_pair.first);] *)
Definition note_hd_keypaths (hd_keypaths : gmap (list N) (list N))
    (sigdata : SignatureData) : SignatureData :=
  fold_left
    (fun sd pubkey =>
       set_misc_pubkeys (emplace (GetID pubkey) pubkey (misc_pubkeys sd)) sd)
    (hd_keypaths_order hd_keypaths) sigdata.

(** [void PSBTInput::FillSignatureData(SignatureData &sigdata) const]: the
    [sigdata] after the call. *)
Definition PSBTInput_FillSignatureData (input : PSBTInput.t CTxOut.t)
    (sigdata : SignatureData) : SignatureData :=
  let sigdata1 :=
    if negb (bool_decide (PSBTInput.final_script_sig input = []))
    then set_complete true
           (set_scriptSig (PSBTInput.final_script_sig input) sigdata)
    else sigdata in
  if complete sigdata1 then sigdata1 else
  let sigdata2 :=
    set_signatures
      (insert_range (signatures sigdata1) (PSBTInput.partial_sigs input))
      sigdata1 in
  let sigdata3 :=
    if negb (bool_decide (PSBTInput.redeem_script input = []))
    then set_redeem_script (PSBTInput.redeem_script input) sigdata2
    else sigdata2 in
  note_hd_keypaths (PSBTInput.hd_keypaths input) sigdata3.

(** [void PSBTInput::FromSignatureData(const SignatureData &sigdata)]: the
    receiver after the call. *)
Definition PSBTInput_FromSignatureData (input : PSBTInput.t CTxOut.t)
    (sigdata : SignatureData) : PSBTInput.t CTxOut.t :=
  if complete sigdata then
    {| PSBTInput.utxo := PSBTInput.utxo input;
       PSBTInput.partial_sigs := ∅;
       PSBTInput.hd_keypaths := ∅;
       PSBTInput.redeem_script := [];
       PSBTInput.final_script_sig :=
         if negb (bool_decide (scriptSig sigdata = []))
         then scriptSig sigdata else PSBTInput.final_script_sig input;
       PSBTInput.unknown := PSBTInput.unknown input |}
  else
    {| PSBTInput.utxo := PSBTInput.utxo input;
       PSBTInput.partial_sigs :=
         insert_range (PSBTInput.partial_sigs input) (signatures sigdata);
       PSBTInput.hd_keypaths := PSBTInput.hd_keypaths input;
       PSBTInput.redeem_script :=
         if bool_decide (PSBTInput.redeem_script input = []) &&
            negb (bool_decide (redeem_script sigdata = []))
         then redeem_script sigdata else PSBTInput.redeem_script input;
       PSBTInput.final_script_sig := PSBTInput.final_script_sig input;
       PSBTInput.unknown := PSBTInput.unknown input |}.

(** [void PSBTOutput::FillSignatureData(SignatureData &sigdata) const] *)
Definition PSBTOutput_FillSignatureData (output : PSBTOutput.t)
    (sigdata : SignatureData) : SignatureData :=
  let sigdata1 :=
    if negb (bool_decide (PSBTOutput.redeem_script output = []))
    then set_redeem_script (PSBTOutput.redeem_script output) sigdata
    else sigdata in
  note_hd_keypaths (PSBTOutput.hd_keypaths output) sigdata1.

(** [void PSBTOutput::FromSignatureData(const SignatureData &sigdata)] *)
Definition PSBTOutput_FromSignatureData (output : PSBTOutput.t)
    (sigdata : SignatureData) : PSBTOutput.t :=
  {| PSBTOutput.redeem_script :=
       if bool_decide (PSBTOutput.redeem_script output = []) &&
          negb (bool_decide (redeem_script sigdata = []))
       then redeem_script sigdata else PSBTOutput.redeem_script output;
     PSBTOutput.hd_keypaths := PSBTOutput.hd_keypaths output;
     PSBTOutput.unknown := PSBTOutput.unknown output |}.

(** [unsigned int nInIn] initialised from [int index]. *)
Definition to_unsigned_int (index : Z) : N := Z.to_N (index mod 2 ^ 32).

(** [bool SignPSBTInput(provider, tx, input, sigdata, index, sighash)]: the
    result with [input] and [sigdata] after the call. *)
Definition SignPSBTInput (provider : SigningProvider)
    (tx : CMutableTransaction.t) (input : PSBTInput.t CTxOut.t)
    (sigdata : SignatureData) (index : Z) (sighash : N)
  : option (bool * PSBTInput.t CTxOut.t * SignatureData) :=
  if negb (bool_decide (PSBTInput.final_script_sig input = [])) then
    Some (true, input, sigdata)
  else
    let sigdata1 := PSBTInput_FillSignatureData input sigdata in
    if CTxOut_IsNull (PSBTInput.utxo input) then Some (false, input, sigdata1)
    else
      let utxo := PSBTInput.utxo input in
      let creator :=
        MutableTransactionSignatureCreator tx (to_unsigned_int index)
          (CTxOut.nValue utxo) sighash in
      match ProduceSignature provider creator (CTxOut.scriptPubKey utxo)
              sigdata1 with
      | Some (sig_complete, sigdata2) =>
          Some (sig_complete, PSBTInput_FromSignatureData input sigdata2,
                sigdata2)
      | None => None
      end.

(** *** Extracting signature data from a transaction *)

(** [bool SignatureExtractorChecker::CheckSig(scriptSig, vchPubKey,
    scriptCode, flags) const], with the [sigdata] it refers to. *)
Definition SignatureExtractorChecker_CheckSig (checker : BaseSignatureChecker)
    (scriptSig vchPubKey : valtype) (scriptCode : CScript) (flags : N)
    (sigdata : SignatureData) : bool * SignatureData :=
  if CheckSig checker scriptSig vchPubKey scriptCode flags then
    let pubkey := CPubKey_of_bytes vchPubKey in
    (true,
     set_signatures
       (emplace (GetID pubkey) (pubkey, scriptSig) (signatures sigdata))
       sigdata)
  else (false, sigdata).

(** The interpreter's run with the extractor as its checker. *)
Fixpoint run_extractor (checker : BaseSignatureChecker)
    (calls : CheckSigCalls) (sigdata : SignatureData)
  : bool * SignatureData :=
  match calls with
  | Verdict result => (result, sigdata)
  | CallCheckSig vchSig vchPubKey scriptCode flags next =>
      let '(ok, sigdata') :=
        SignatureExtractorChecker_CheckSig checker vchSig vchPubKey
          scriptCode flags sigdata in
      run_extractor checker (next ok) sigdata'
  end.

(** [Stacks(const SignatureData &data)]: the stack that evaluating
    [data.scriptSig] leaves. *)
Definition Stacks (data : SignatureData) : list valtype :=
  (EvalScript [] (scriptSig data) MANDATORY_SCRIPT_VERIFY_FLAGS).2.

(** [SignatureData Stacks::Output() const] *)
Definition Stacks_Output (script : list valtype) : SignatureData :=
  set_scriptSig (PushAll script) SignatureData_default.

(** The inner loop of the multisig branch of [DataFromTransaction],
    [for (unsigned int i = ...; i < num_pubkeys; ++i)], with [steps] keys
    left to visit: the new [last_success_key] and the data. *)
Fixpoint match_keys (checker : BaseSignatureChecker) (next_script : CScript)
    (solutions : list valtype) (sig : valtype) (steps i : nat)
    (last_success_key : nat) (data : SignatureData)
  : option (nat * SignatureData) :=
  match steps with
  | 0 => Some (last_success_key, data)
  | S steps' =>
      match solutions !! (i + 1) with
      | None => None
      | Some pubkey =>
          if bool_decide
               (is_Some (signatures data !! GetID (CPubKey_of_bytes pubkey)))
          then Some (i + 1, data)
          else
            let '(ok, data') :=
              SignatureExtractorChecker_CheckSig checker sig pubkey
                next_script STANDARD_SCRIPT_VERIFY_FLAGS data in
            if ok then Some (i + 1, data')
            else match_keys checker next_script solutions sig steps' (S i)
                   last_success_key data'
      end
  end.

(** The outer loop, [for (const valtype &sig : stack.script)]. *)
Fixpoint match_sigs (checker : BaseSignatureChecker) (next_script : CScript)
    (solutions : list valtype) (num_pubkeys : nat) (stack : list valtype)
    (last_success_key : nat) (data : SignatureData) : option SignatureData :=
  match stack with
  | [] => Some data
  | sig :: stack' =>
      match match_keys checker next_script solutions sig
              (num_pubkeys - last_success_key) last_success_key
              last_success_key data with
      | Some (last_success_key', data') =>
          match_sigs checker next_script solutions num_pubkeys stack'
            last_success_key' data'
      | None => None
      end
  end.

(** [SignatureData DataFromTransaction(tx, nIn, txout)]; [None] when an
    assertion fails. *)
Definition DataFromTransaction (tx : CMutableTransaction.t) (nIn : N)
    (txout : CTxOut.t) : option SignatureData :=
  match CMutableTransaction.vin tx !! N.to_nat nIn with
  | None => None
  | Some txin =>
      let data := set_scriptSig (CTxIn.scriptSig txin) SignatureData_default in
      let stack := Stacks data in
      let tx_checker :=
        MutableTransactionSignatureChecker tx nIn (CTxOut.nValue txout) in
      let '(verified, data1) :=
        run_extractor tx_checker
          (VerifyScript_calls (scriptSig data) (CTxOut.scriptPubKey txout)
             STANDARD_SCRIPT_VERIFY_FLAGS)
          data in
      if verified then Some (set_complete true data1) else
      let '(_, script_type, solutions) := Solver (CTxOut.scriptPubKey txout) in
      let next_script := CTxOut.scriptPubKey txout in
      let '(data2, next_script2, script_type2, solutions2, stack2) :=
        match last stack with
        | Some top =>
            if bool_decide (script_type = TX_SCRIPTHASH) &&
               negb (bool_decide (top = []))
            then
              let '(_, script_type', solutions') := Solver top in
              (set_redeem_script top data1, top, script_type', solutions',
               removelast stack)
            else (data1, next_script, script_type, solutions, stack)
        | None => (data1, next_script, script_type, solutions, stack)
        end in
      if bool_decide (script_type2 = TX_MULTISIG) &&
         negb (bool_decide (stack2 = []))
      then
        if bool_decide (1 < length solutions2) then
          match_sigs tx_checker next_script2 solutions2
            (length solutions2 - 2) stack2 0 data2
        else None
      else Some data2
  end.

(** Every signature stored in [data] was accepted by [checker] for the
    public key stored with it, and sits under the id of that key. *)
Definition accepted_by (checker : BaseSignatureChecker)
    (data : SignatureData) : Prop :=
  map_Forall
    (fun k p =>
       exists vchPubKey scriptCode flags,
         p.1 = CPubKey_of_bytes vchPubKey /\ k = GetID p.1 /\
         CheckSig checker p.2 vchPubKey scriptCode flags = true)
    (signatures data).

End Transactions.

(** [PartiallySignedTransaction] *)
Module PartiallySignedTransaction.
Record t : Type := {
  tx : option CMutableTransaction.t;
  inputs : list (PSBTInput.t CTxOut.t);
  outputs : list PSBTOutput.t;
  unknown : gmap (list N) (list N)
}.

(** [bool PartiallySignedTransaction::IsNull() const] *)
Definition IsNull (psbt : t) : bool :=
  match tx psbt with None => true | Some _ => false end &&
  bool_decide (inputs psbt = []) &&
  bool_decide (outputs psbt = []) &&
  bool_decide (unknown psbt = ∅).

(** [void PartiallySignedTransaction::Merge(const
    PartiallySignedTransaction &psbt)]: the receiver after the call. *)
Definition Merge `{tx_ext : TxCollaborators} (self psbt : t) : option t :=
  match merge_each (PSBTInput.Merge CTxOut_IsNull) (inputs psbt) 0
          (inputs self) with
  | Some inputs' =>
      match merge_each PSBTOutput.Merge (outputs psbt) 0 (outputs self) with
      | Some outputs' =>
          Some {| tx := tx self; inputs := inputs'; outputs := outputs';
                  unknown := unknown self |}
      | None => None
      end
  | None => None
  end.

(** [bool PartiallySignedTransaction::IsSane() const] *)
Definition IsSane (psbt : t) : bool :=
  forallb PSBTInput_IsSane (inputs psbt).
End PartiallySignedTransaction.

(** ** A small instance of the transaction-level collaborators

    Stand-ins that go with [Demo]: the digest of a script code is the script
    code, an ECDSA signature is [48 :: key ++ digest], so that with the
    sighash type [65] the transaction creator makes the signatures of
    [Demo.sign], which [Demo.checker] accepts.  The interpreter asks its
    checker about the signatures as [Demo.VerifyScript] does. *)
Module DemoTx.

Definition SignatureHash (scriptCode : CScript) (txTo : CMutableTransaction.t)
    (nIn sigHashType : N) (amount : Z) : list N := scriptCode.

Definition SignECDSA (key : CKey) (hash : list N) : option valtype :=
  Some (48%N :: key ++ hash).

Fixpoint multisig_calls (script : CScript) (flags : N)
    (keys sigs : list valtype) {struct keys} : CheckSigCalls :=
  match sigs with
  | [] => Verdict true
  | sig :: sigs' =>
      match keys with
      | [] => Verdict false
      | key :: keys' =>
          CallCheckSig sig key script flags
            (fun ok =>
               if ok then multisig_calls script flags keys' sigs'
               else multisig_calls script flags keys' sigs)
      end
  end.

Definition verify_stack_calls (stack : list valtype) (script : CScript)
    (flags : N) : CheckSigCalls :=
  match Demo.Solver script with
  | (true, TX_PUBKEY, [pk]) =>
      match stack with
      | [sig] => CallCheckSig sig pk script flags Verdict
      | _ => Verdict false
      end
  | (true, TX_PUBKEYHASH, [h]) =>
      match stack with
      | [sig; pk] =>
          if bool_decide (Demo.Hash160 pk = h)
          then CallCheckSig sig pk script flags Verdict
          else Verdict false
      | _ => Verdict false
      end
  | (true, TX_MULTISIG, [m] :: rest) =>
      match stack with
      | [] :: sigs =>
          if (N.of_nat (length sigs) =? m)%N
          then multisig_calls script flags (removelast rest) sigs
          else Verdict false
      | _ => Verdict false
      end
  | _ => Verdict false
  end.

Definition VerifyScript_calls (scriptSig scriptPubKey : CScript) (flags : N)
  : CheckSigCalls :=
  let stack := Demo.decode (length scriptSig) scriptSig in
  match Demo.Solver scriptPubKey with
  | (true, TX_SCRIPTHASH, [h]) =>
      match reverse stack with
      | script :: below =>
          if bool_decide (Demo.Hash160 script = h)
          then verify_stack_calls (reverse below) script flags
          else Verdict false
      | [] => Verdict false
      end
  | _ => verify_stack_calls stack scriptPubKey flags
  end.

Definition tx_ext : TxCollaborators :=
  Build_TxCollaborators SignatureHash SignECDSA
    (fun _ _ _ => Demo.checker)
    (fun out => bool_decide (CTxOut.nValue out = (-1)%Z))
    0%N
    (fun stack script _ => (true, stack ++ Demo.decode (length script) script))
    VerifyScript_calls
    (fun m => (map_to_list m).*1).

(** A transaction with two inputs; the first carries a stale scriptSig. *)
Definition tx : CMutableTransaction.t :=
  {| CMutableTransaction.nVersion := 2%Z;
     CMutableTransaction.vin :=
       [ {| CTxIn.prevout := {| COutPoint.txid := [7%N]; COutPoint.n := 1%N |};
            CTxIn.scriptSig := [9; 9]%N;
            CTxIn.nSequence := 4294967295%N |};
         {| CTxIn.prevout := {| COutPoint.txid := [8%N]; COutPoint.n := 0%N |};
            CTxIn.scriptSig := [];
            CTxIn.nSequence := 4294967295%N |} ];
     CMutableTransaction.vout :=
       [ {| CTxOut.nValue := 4000%Z; CTxOut.scriptPubKey := Demo.p2pkh |} ];
     CMutableTransaction.nLockTime := 0%N |}.

(** The transaction whose second output the first input of [tx] spends. *)
Definition txFrom : CMutableTransaction.t :=
  {| CMutableTransaction.nVersion := 2%Z;
     CMutableTransaction.vin := [];
     CMutableTransaction.vout :=
       [ {| CTxOut.nValue := 100%Z; CTxOut.scriptPubKey := [5; 1]%N |};
         {| CTxOut.nValue := 5000%Z; CTxOut.scriptPubKey := Demo.p2pkh |} ];
     CMutableTransaction.nLockTime := 0%N |}.

(** [tx] with a 2-of-3 scriptSig on its first input that holds the
    signature of the second key only. *)
Definition tx_partial : CMutableTransaction.t :=
  CMutableTransaction.set_vin
    [ {| CTxIn.prevout := {| COutPoint.txid := [7%N]; COutPoint.n := 1%N |};
         CTxIn.scriptSig :=
           PushAll (ext := Demo.ext)
             [[]; Demo.sign [13%N] Demo.multisig_2of3; []];
         CTxIn.nSequence := 4294967295%N |} ]
    tx.

(** A PSBT input for a 2-of-3 P2SH output: one partial signature, the
    redeem script and the key paths of two of the keys. *)
Definition psbt_input : PSBTInput.t CTxOut.t :=
  {| PSBTInput.utxo :=
       {| CTxOut.nValue := 5000%Z; CTxOut.scriptPubKey := Demo.p2sh_2of3 |};
     PSBTInput.partial_sigs :=
       {[ [160; 11]%N := ([11%N], Demo.sign [12%N] Demo.multisig_2of3) ]};
     PSBTInput.hd_keypaths := {[ [11%N] := [0; 1]%N; [12%N] := [0; 2]%N ]};
     PSBTInput.redeem_script := Demo.multisig_2of3;
     PSBTInput.final_script_sig := [];
     PSBTInput.unknown := ∅ |}.

(** The same input before anybody signed. *)
Definition psbt_unsigned : PSBTInput.t CTxOut.t :=
  {| PSBTInput.utxo :=
       {| CTxOut.nValue := 5000%Z; CTxOut.scriptPubKey := Demo.p2sh_2of3 |};
     PSBTInput.partial_sigs := ∅;
     PSBTInput.hd_keypaths := ∅;
     PSBTInput.redeem_script := Demo.multisig_2of3;
     PSBTInput.final_script_sig := [];
     PSBTInput.unknown := ∅ |}.

(** The signature data of a PUBKEYHASH input signed with its key. *)
Definition signed_p2pkh : SignatureData :=
  {| complete := true;
     scriptSig :=
       PushAll (ext := Demo.ext) [Demo.sign [12%N] Demo.p2pkh; [11%N]];
     redeem_script := [];
     signatures :=
       {[ [160; 11]%N := ([11%N], Demo.sign [12%N] Demo.p2pkh) ]};
     misc_pubkeys := {[ [160; 11]%N := [11%N] ]} |}.

(** Signature data that hold a signature for each key of the 2-of-3
    script. *)
Definition presigned : SignatureData :=
  {| complete := false; scriptSig := []; redeem_script := [];
     signatures :=
       {[ [160; 11]%N := ([11%N], [48; 1]%N);
          [160; 12]%N := ([12%N], [48; 2]%N);
          [160; 13]%N := ([13%N], [48; 3]%N) ]};
     misc_pubkeys := ∅ |}.

End DemoTx.

(** * Properties *)

(** ** The dummy creator *)

(** C9: the dummy creator's [CreateSig] always succeeds and always yields
    the same 72 bytes, [30 45 02 21 01], 32 zero bytes, [02 20 01], 31 zero
    bytes and the sighash byte [SIGHASH_ALL | SIGHASH_FORKID] (as a
    [uint8_t]), whatever the provider, the key id and the scriptCode. *)
Theorem DummySignatureCreator_CreateSig_fixed `{ext : Collaborators}
    (provider : SigningProvider) (keyid : CKeyID) (scriptCode : CScript) :
  exists sig,
    DummySignatureCreator_CreateSig provider keyid scriptCode = Some sig /\
    length sig = 72 /\
    sig = [0x30; 0x45; 0x02; 0x21; 0x01]%N ++ replicate 32 0%N ++
          [0x02; 0x20; 0x01]%N ++ replicate 31 0%N ++
          [to_uint8 (N.lor SIGHASH_ALL SIGHASH_FORKID)].
Proof.
  eexists. split; [reflexivity|]. split; reflexivity.
Qed.

(** With the values of script/sighashtype.h the last byte is [0x41]. *)
Example dummy_sighash_byte :
  to_uint8 (N.lor (SIGHASH_ALL (Collaborators := Demo.ext))
                  (SIGHASH_FORKID (Collaborators := Demo.ext))) = 0x41%N.
Proof. reflexivity. Qed.

(** ** Merging signature data *)

Lemma lookup_insert_range {K : Type} `{Countable K} {V : Type}
    (m other : gmap K V) (k : K) :
  insert_range m other !! k =
    match m !! k with Some v => Some v | None => other !! k end.
Proof.
  unfold insert_range. rewrite lookup_union.
  destruct (m !! k), (other !! k); reflexivity.
Qed.

(** C6: completion absorption.  A complete receiver is left unchanged; an
    incomplete receiver merged with a complete argument becomes the argument;
    when neither is complete the receiver takes the argument's redeem script
    only if its own is empty, and the signatures are united with the
    receiver's entries winning (nothing else changes). *)
Theorem MergeSignatureData_absorption (self other : SignatureData) :
  (complete self = true -> MergeSignatureData self other = self) /\
  (complete self = false -> complete other = true ->
     MergeSignatureData self other = other) /\
  (complete self = false -> complete other = false ->
     redeem_script (MergeSignatureData self other) =
       (if bool_decide (redeem_script self = [])
        then redeem_script other else redeem_script self) /\
     (forall k,
        signatures (MergeSignatureData self other) !! k =
          match signatures self !! k with
          | Some p => Some p
          | None => signatures other !! k
          end) /\
     complete (MergeSignatureData self other) = false /\
     scriptSig (MergeSignatureData self other) = scriptSig self /\
     misc_pubkeys (MergeSignatureData self other) = misc_pubkeys self).
Proof.
  unfold MergeSignatureData. split; [|split].
  - intros ->. reflexivity.
  - intros -> ->. reflexivity.
  - intros Hself Hother. rewrite Hself, Hother.
    split; [|split; [|split; [|split]]].
    + do 2 case_bool_decide; simpl; congruence.
    + intros k. simpl. rewrite lookup_insert_range.
      do 2 case_bool_decide; reflexivity.
    + do 2 case_bool_decide; simpl; assumption.
    + do 2 case_bool_decide; reflexivity.
    + do 2 case_bool_decide; reflexivity.
Qed.

(** ** Merging PSBT inputs *)

(** C7, as stated, fails: two partial records of the same input that hold
    different signatures for one key id are merged into different
    [(KeyId -> signature)] sets, depending on the receiver. *)
Lemma PSBTInput_Merge_order_matters :
  PSBTInput.final_script_sig Demo.input_a = [] /\
  PSBTInput.final_script_sig Demo.input_b = [] /\
  PSBTInput.utxo Demo.input_a = PSBTInput.utxo Demo.input_b /\
  PSBTInput.redeem_script Demo.input_a = PSBTInput.redeem_script Demo.input_b /\
  PSBTInput.sig_pairs (PSBTInput.Merge Demo.IsNull Demo.input_a Demo.input_b)
    !! [160; 11]%N = Some [48; 12; 65]%N /\
  PSBTInput.sig_pairs (PSBTInput.Merge Demo.IsNull Demo.input_b Demo.input_a)
    !! [160; 11]%N = Some [48; 12; 193]%N /\
  PSBTInput.sig_pairs (PSBTInput.Merge Demo.IsNull Demo.input_a Demo.input_b)
    <> PSBTInput.sig_pairs (PSBTInput.Merge Demo.IsNull Demo.input_b Demo.input_a).
Proof.
  assert (Ha : PSBTInput.sig_pairs
                 (PSBTInput.Merge Demo.IsNull Demo.input_a Demo.input_b)
                 !! [160; 11]%N = Some [48; 12; 65]%N) by (vm_compute; reflexivity).
  assert (Hb : PSBTInput.sig_pairs
                 (PSBTInput.Merge Demo.IsNull Demo.input_b Demo.input_a)
                 !! [160; 11]%N = Some [48; 12; 193]%N) by (vm_compute; reflexivity).
  repeat split; try reflexivity; try assumption.
  intros Heq. rewrite Heq, Hb in Ha. discriminate Ha.
Qed.

(** C7, amended: when neither record is finalized, the two records hold the
    same signature for every key id they share, and their redeem scripts are
    equal unless one of them is empty, merging in either order gives the same
    [(KeyId -> signature)] pairs and the same redeem script, the non-empty
    one. *)
Theorem PSBTInput_Merge_commutes (CTxOut : Type) (IsNull : CTxOut -> bool)
    (a b : PSBTInput.t CTxOut) :
  PSBTInput.final_script_sig a = [] ->
  PSBTInput.final_script_sig b = [] ->
  (forall k p q,
     PSBTInput.partial_sigs a !! k = Some p ->
     PSBTInput.partial_sigs b !! k = Some q -> snd p = snd q) ->
  (PSBTInput.redeem_script a = [] \/ PSBTInput.redeem_script b = [] \/
   PSBTInput.redeem_script a = PSBTInput.redeem_script b) ->
  PSBTInput.sig_pairs (PSBTInput.Merge IsNull a b) =
    PSBTInput.sig_pairs (PSBTInput.Merge IsNull b a) /\
  PSBTInput.redeem_script (PSBTInput.Merge IsNull a b) =
    PSBTInput.redeem_script (PSBTInput.Merge IsNull b a) /\
  PSBTInput.redeem_script (PSBTInput.Merge IsNull a b) =
    (if bool_decide (PSBTInput.redeem_script a = [])
     then PSBTInput.redeem_script b else PSBTInput.redeem_script a).
Proof.
  intros _ _ Hsig Hrs. split; [|split].
  - apply map_eq. intros k. unfold PSBTInput.sig_pairs. simpl.
    rewrite !lookup_fmap, !lookup_insert_range.
    destruct (PSBTInput.partial_sigs a !! k) as [p|] eqn:Ha,
             (PSBTInput.partial_sigs b !! k) as [q|] eqn:Hb; simpl;
      try reflexivity.
    f_equal. eapply Hsig; eassumption.
  - simpl. do 2 case_bool_decide; simpl; try congruence.
    destruct Hrs as [?|[?|?]]; congruence.
  - simpl. do 2 case_bool_decide; simpl; congruence.
Qed.

Lemma PSBTInput_Merge_commutes_witness :
  PSBTInput.sig_pairs (PSBTInput.Merge Demo.IsNull Demo.input_c Demo.input_d) =
    PSBTInput.sig_pairs (PSBTInput.Merge Demo.IsNull Demo.input_d Demo.input_c) /\
  PSBTInput.redeem_script (PSBTInput.Merge Demo.IsNull Demo.input_c Demo.input_d) =
    PSBTInput.redeem_script (PSBTInput.Merge Demo.IsNull Demo.input_d Demo.input_c) /\
  PSBTInput.redeem_script (PSBTInput.Merge Demo.IsNull Demo.input_c Demo.input_d) =
    (if bool_decide (PSBTInput.redeem_script Demo.input_c = [])
     then PSBTInput.redeem_script Demo.input_d
     else PSBTInput.redeem_script Demo.input_c).
Proof.
  apply (PSBTInput_Merge_commutes _ Demo.IsNull Demo.input_c Demo.input_d).
  - reflexivity.
  - reflexivity.
  - intros k p q Hc Hd. simpl in Hc, Hd.
    apply lookup_singleton_Some in Hc as [<- _].
    rewrite lookup_singleton_ne in Hd; [discriminate Hd|].
    intros Heq; discriminate Heq.
  - left. reflexivity.
Defined.

(** ** The signing driver *)

Section SigningProperties.
Context `{ext : Collaborators}.

Lemma emplace_lookup {V} (k k' : list N) (v : V) (m : gmap (list N) V) :
  emplace k v m !! k' =
    match m !! k' with
    | Some w => Some w
    | None => if decide (k = k') then Some v else None
    end.
Proof.
  unfold emplace. destruct (m !! k) eqn:Hk.
  - destruct (m !! k') eqn:Hk'; [reflexivity|].
    case_decide; [congruence | reflexivity].
  - rewrite lookup_insert. case_decide; subst.
    + rewrite Hk. reflexivity.
    + destruct (m !! k'); reflexivity.
Qed.

Lemma emplace_present {V} (k : list N) (v : V) (m : gmap (list N) V) :
  is_Some (m !! k) -> emplace k v m = m.
Proof. intros [w Hw]. unfold emplace. rewrite Hw. reflexivity. Qed.

Lemma emplace_fixed {V} (k : list N) (v : V) (m : gmap (list N) V) :
  emplace k v m = m -> is_Some (m !! k).
Proof.
  unfold emplace. destruct (m !! k) eqn:Hk; [eauto|].
  intros Heq. rewrite <- Heq, lookup_insert_eq in Hk. discriminate.
Qed.

(** [GetPubKey] does not touch [signatures]: the key that [CreateSig] found
    absent is still absent at its [emplace], so the assertion there holds. *)
Lemma GetPubKey_signatures provider sd address pubkey :
  signatures (GetPubKey provider sd address pubkey).2 = signatures sd.
Proof.
  unfold GetPubKey. repeat case_match; reflexivity.
Qed.

Lemma CreateSig_idem creator sd provider keyid scriptcode r sd' :
  CreateSig creator sd provider keyid scriptcode = (r, sd') ->
  CreateSig creator sd' provider keyid scriptcode = (r, sd').
Proof.
  unfold CreateSig, GetPubKey.
  destruct sd as [c ss rs sigs misc]; simpl.
  destruct (sigs !! keyid) as [p|] eqn:Hk.
  { intros [= <- <-]. simpl. rewrite Hk. reflexivity. }
  destruct (provider_GetPubKey provider keyid) as [pk|] eqn:Hp;
    [|destruct (misc !! keyid) as [pk|] eqn:Hm];
    destruct (creator_CreateSig creator provider keyid scriptcode)
      as [sig|] eqn:Hc;
    intros [= <- <-]; simpl;
    rewrite ?emplace_lookup, ?Hk, ?Hp, ?Hm, ?Hc, ?decide_True by reflexivity;
    try reflexivity.
  simpl. rewrite (emplace_present (GetID pk)); [reflexivity|].
  rewrite emplace_lookup. destruct (misc !! GetID pk); [eauto|].
  rewrite decide_True by reflexivity. eauto.
Qed.

Lemma CreateSig_effect creator sd provider keyid scriptcode r sd' :
  CreateSig creator sd provider keyid scriptcode = (r, sd') ->
  complete sd' = complete sd /\ scriptSig sd' = scriptSig sd /\
  redeem_script sd' = redeem_script sd /\
  (misc_pubkeys sd' = misc_pubkeys sd \/
   exists pk, misc_pubkeys sd' = emplace (GetID pk) pk (misc_pubkeys sd)) /\
  (signatures sd' = signatures sd \/
   exists pk sig,
     signatures sd !! keyid = None /\
     creator_CreateSig creator provider keyid scriptcode = Some sig /\
     r = Some sig /\
     signatures sd' = <[keyid := (pk, sig)]> (signatures sd)).
Proof.
  unfold CreateSig, GetPubKey.
  destruct (signatures sd !! keyid) as [p|] eqn:Hk.
  { intros [= <- <-]. auto 10. }
  destruct (provider_GetPubKey provider keyid) as [pk|];
    [|destruct (misc_pubkeys sd !! keyid) as [pk|]];
    (destruct (creator_CreateSig creator provider keyid scriptcode) as [sig|];
     intros [= <- <-]; simpl; repeat split; eauto;
     right; eexists _, _; unfold emplace; rewrite Hk; eauto).
Qed.

Lemma settled_iff creator sd provider keyid scriptcode r :
  CreateSig creator sd provider keyid scriptcode = (r, sd) <->
  (exists p, signatures sd !! keyid = Some p /\ r = Some (snd p)) \/
  (signatures sd !! keyid = None /\ r = None /\
   creator_CreateSig creator provider keyid scriptcode = None /\
   forall pk, provider_GetPubKey provider keyid = Some pk ->
              is_Some (misc_pubkeys sd !! GetID pk)).
Proof.
  unfold CreateSig, GetPubKey.
  destruct (signatures sd !! keyid) as [p|] eqn:Hk.
  { split.
    - intros [= <-]. left. eauto.
    - intros [(q & [= <-] & ->)|(? & _)]; [reflexivity|discriminate]. }
  split.
  - intros Heq. right. split; [reflexivity|].
    destruct (creator_CreateSig creator provider keyid scriptcode) as [sig|].
    { exfalso.
      assert (Hs : exists pk sd1,
                 sd = set_signatures (emplace keyid (pk, sig) (signatures sd1)) sd1
                 /\ signatures sd1 = signatures sd).
      { destruct (provider_GetPubKey provider keyid);
          [|destruct (misc_pubkeys sd !! keyid)];
          injection Heq as _ Heq; eexists _, _; (split; [symmetry; exact Heq|]);
          reflexivity. }
      destruct Hs as (pk & sd1 & Hs & Hs1).
      apply (f_equal (fun x => signatures x !! keyid)) in Hs. simpl in Hs.
      rewrite emplace_lookup, Hs1, Hk, decide_True in Hs by reflexivity.
      discriminate. }
    destruct (provider_GetPubKey provider keyid) as [pk|].
    + injection Heq as <- Heq. repeat split. intros ? [= <-].
      apply (f_equal misc_pubkeys) in Heq. simpl in Heq.
      eapply emplace_fixed. exact Heq.
    + destruct (misc_pubkeys sd !! keyid); injection Heq as <-;
        repeat split; intros ? [=].
  - intros [(q & [=] & _)|(_ & -> & -> & Hpk)].
    destruct (provider_GetPubKey provider keyid) as [pk|].
    + rewrite emplace_present by eauto. destruct sd; reflexivity.
    + destruct (misc_pubkeys sd !! keyid); reflexivity.
Qed.

Lemma settled_step creator provider scriptcode keyid r sd keyid2 r2 sd2 :
  CreateSig creator sd provider keyid scriptcode = (r, sd) ->
  CreateSig creator sd provider keyid2 scriptcode = (r2, sd2) ->
  CreateSig creator sd2 provider keyid scriptcode = (r, sd2).
Proof.
  intros Hs Hstep. apply settled_iff in Hs. apply settled_iff.
  apply CreateSig_effect in Hstep as (_ & _ & _ & Hmisc & Hsig).
  destruct Hs as [(p & Hp & ->)|(Hnone & -> & Hc & Hpk)].
  - left. exists p. split; [|reflexivity].
    destruct Hsig as [->|(pk & sig & Hn & _ & _ & ->)]; [assumption|].
    rewrite lookup_insert_ne; [assumption|congruence].
  - right. repeat split; try assumption.
    + destruct Hsig as [->|(pk & sig & Hn & Hc2 & _ & ->)]; [assumption|].
      rewrite lookup_insert_ne; [assumption|congruence].
    + intros pk Hpk'. specialize (Hpk pk Hpk').
      destruct Hmisc as [->|(pk2 & ->)]; [assumption|].
      rewrite emplace_lookup. destruct Hpk as [w ->]. eauto.
Qed.



Lemma CreateSig_with_flags creator sd provider keyid scriptcode b x :
  CreateSig creator (with_flags b x sd) provider keyid scriptcode =
  lift_flags b x (CreateSig creator sd provider keyid scriptcode).
Proof.
  unfold CreateSig, GetPubKey, lift_flags. simpl.
  destruct (signatures sd !! keyid); [reflexivity|].
  destruct (provider_GetPubKey provider keyid);
    [|destruct (misc_pubkeys sd !! keyid)];
    destruct (creator_CreateSig creator provider keyid scriptcode);
    reflexivity.
Qed.

Lemma multisig_step_with_flags provider creator scriptPubKey required st vch b x :
  multisig_step provider creator scriptPubKey required
     (lift_flags b x st) vch =
  lift_flags b x (multisig_step provider creator scriptPubKey required st vch).
Proof.
  destruct st as [ret sd]. unfold multisig_step, lift_flags at 1. simpl.
  destruct (N.of_nat (length ret) <? required + 1)%N; [|reflexivity].
  rewrite CreateSig_with_flags.
  destruct (CreateSig creator sd provider _ scriptPubKey) as [[sig|] sd'];
    reflexivity.
Qed.

Lemma multisig_loop_cons provider creator scriptPubKey required vch pks st :
  multisig_loop provider creator scriptPubKey required (vch :: pks) st =
  multisig_loop provider creator scriptPubKey required pks
    (multisig_step provider creator scriptPubKey required st vch).
Proof. reflexivity. Qed.

Lemma multisig_loop_with_flags provider creator scriptPubKey required pks st b x :
  multisig_loop provider creator scriptPubKey required pks (lift_flags b x st) =
  lift_flags b x (multisig_loop provider creator scriptPubKey required pks st).
Proof.
  revert st. induction pks as [|vch pks IH]; intros st; [reflexivity|].
  rewrite !multisig_loop_cons, multisig_step_with_flags. apply IH.
Qed.


(** Case analysis along the arms of [SignStep], for hypotheses and goals
    that mention a call. *)
Ltac SignStep_arms :=
  unfold SignStep in *;
  repeat case_match; simplify_option_eq;
  repeat case_match; simplify_eq/=.

Lemma SignStep_with_flags provider creator scriptPubKey sd b x :
  SignStep provider creator scriptPubKey (with_flags b x sd) =
  lift_result b x <$> SignStep provider creator scriptPubKey sd.
Proof.
  unfold SignStep.
  destruct (Solver scriptPubKey) as [[[] []] [|[|m front] sols]]; simpl;
    try reflexivity;
    rewrite ?CreateSig_with_flags;
    try (destruct (CreateSig creator sd provider _ scriptPubKey) as [[sig|] sd'];
         reflexivity);
    try (unfold GetCScript; simpl; repeat case_match; reflexivity).
  all: change ([[]], with_flags b x sd)
         with (lift_flags b x ([[] : list N], sd));
       rewrite multisig_loop_with_flags;
       destruct (multisig_loop provider creator scriptPubKey m _ _);
       reflexivity.
Qed.

Lemma multisig_loop_saturated provider creator scriptPubKey required pks ret sd :
  (N.of_nat (length ret) <? required + 1)%N = false ->
  multisig_loop provider creator scriptPubKey required pks (ret, sd) = (ret, sd).
Proof.
  intros Hsat. induction pks as [|vch pks IH]; [reflexivity|].
  unfold multisig_loop in *. simpl. rewrite Hsat. exact IH.
Qed.

Lemma multisig_loop_settled provider creator scriptPubKey required keyid r pks :
  forall ret sd ret' sd',
  CreateSig creator sd provider keyid scriptPubKey = (r, sd) ->
  multisig_loop provider creator scriptPubKey required pks (ret, sd) = (ret', sd') ->
  CreateSig creator sd' provider keyid scriptPubKey = (r, sd').
Proof.
  induction pks as [|vch pks IH]; intros ret sd ret' sd' Hs Hloop.
  - injection Hloop as <- <-. exact Hs.
  - unfold multisig_loop in *. simpl in Hloop.
    destruct (N.of_nat (length ret) <? required + 1)%N.
    + destruct (CreateSig creator sd provider (GetID (CPubKey_of_bytes vch))
                  scriptPubKey) as [r2 sd2] eqn:Hstep.
      pose proof (settled_step _ _ _ _ _ _ _ _ _ Hs Hstep) as Hs2.
      destruct r2; eapply IH; eassumption.
    + eapply IH; eassumption.
Qed.

Lemma multisig_loop_idem provider creator scriptPubKey required pks :
  forall ret sd ret' sd',
  multisig_loop provider creator scriptPubKey required pks (ret, sd) = (ret', sd') ->
  multisig_loop provider creator scriptPubKey required pks (ret, sd') = (ret', sd').
Proof.
  induction pks as [|vch pks IH]; intros ret sd ret' sd' Hloop.
  - injection Hloop as <- <-. reflexivity.
  - unfold multisig_loop in *. simpl in *.
    destruct (N.of_nat (length ret) <? required + 1)%N eqn:Hsat.
    + destruct (CreateSig creator sd provider (GetID (CPubKey_of_bytes vch))
                  scriptPubKey) as [r2 sd2] eqn:Hstep.
      apply CreateSig_idem in Hstep.
      assert (Hfin : CreateSig creator sd' provider
                       (GetID (CPubKey_of_bytes vch)) scriptPubKey = (r2, sd')).
      { destruct r2; eapply multisig_loop_settled; eassumption. }
      rewrite Hfin. destruct r2; eapply IH; eassumption.
    + eapply IH. eassumption.
Qed.


Lemma preserved_refl sd : preserved sd sd.
Proof. repeat split; auto. Qed.

Lemma preserved_trans sd1 sd2 sd3 :
  preserved sd1 sd2 -> preserved sd2 sd3 -> preserved sd1 sd3.
Proof.
  intros (Hc1 & Hs1 & Hr1 & Hm1) (Hc2 & Hs2 & Hr2 & Hm2).
  repeat split; try congruence. auto.
Qed.

Lemma CreateSig_preserved creator sd provider keyid scriptcode r sd' :
  CreateSig creator sd provider keyid scriptcode = (r, sd') -> preserved sd sd'.
Proof.
  intros (? & ? & ? & _ & Hsig)%CreateSig_effect. repeat split; try assumption.
  intros k v Hk. destruct Hsig as [->|(pk & sig & Hn & _ & _ & ->)]; [assumption|].
  rewrite lookup_insert_ne; [assumption|congruence].
Qed.

Lemma multisig_loop_preserved provider creator scriptPubKey required pks :
  forall ret sd ret' sd',
  multisig_loop provider creator scriptPubKey required pks (ret, sd) = (ret', sd') ->
  preserved sd sd'.
Proof.
  induction pks as [|vch pks IH]; intros ret sd ret' sd' Hloop.
  - injection Hloop as <- <-. apply preserved_refl.
  - rewrite multisig_loop_cons in Hloop. unfold multisig_step in Hloop.
    destruct (N.of_nat (length ret) <? required + 1)%N; [|eauto].
    destruct (CreateSig creator sd provider (GetID (CPubKey_of_bytes vch))
                scriptPubKey) as [r2 sd2] eqn:Hstep.
    apply CreateSig_preserved in Hstep.
    destruct r2; (eapply preserved_trans; [exact Hstep|eauto]).
Qed.

Lemma SignStep_preserved provider creator scriptPubKey sd ok ret t sd' :
  SignStep provider creator scriptPubKey sd = Some (ok, ret, t, sd') ->
  preserved sd sd'.
Proof.
  intros Hs. SignStep_arms;
    eauto using preserved_refl, CreateSig_preserved, multisig_loop_preserved.
Qed.

Lemma SignStep_type provider creator scriptPubKey sd ok ret t sd' :
  SignStep provider creator scriptPubKey sd = Some (ok, ret, t, sd') ->
  t = (Solver scriptPubKey).1.2.
Proof. intros Hs. SignStep_arms; reflexivity. Qed.

Lemma SignStep_idem provider creator scriptPubKey sd ok ret t sd' :
  SignStep provider creator scriptPubKey sd = Some (ok, ret, t, sd') ->
  SignStep provider creator scriptPubKey sd' = Some (ok, ret, t, sd').
Proof.
  intros Hs. SignStep_arms; try reflexivity;
    repeat match goal with
    | H : CreateSig ?c ?sd ?p ?k ?s = (_, ?sd'),
      H' : CreateSig ?c ?sd' ?p ?k ?s = _ |- _ =>
        apply CreateSig_idem in H; rewrite H in H'; simplify_eq
    | H : multisig_loop ?p ?c ?s ?m ?pks (?r, ?sd) = (_, ?sd'),
      H' : multisig_loop ?p ?c ?s ?m ?pks (?r, ?sd') = _ |- _ =>
        apply multisig_loop_idem in H; rewrite H in H'; simplify_eq
    end; reflexivity.
Qed.


Lemma SignStep_defined provider creator scriptPubKey sd :
  solutions_in_range (Solver scriptPubKey) = true ->
  exists ok ret sd',
    SignStep provider creator scriptPubKey sd =
      Some (ok, ret, (Solver scriptPubKey).1.2, sd').
Proof.
  unfold SignStep, solutions_in_range.
  destruct (Solver scriptPubKey) as [[[] []] [|[|m front] sols]];
    intros Hin; simplify_eq/=; repeat case_match;
    eexists _, _, _; reflexivity.
Qed.

Lemma SignStep_scripthash provider creator scriptPubKey sd ret sd' :
  SignStep provider creator scriptPubKey sd =
    Some (true, ret, TX_SCRIPTHASH, sd') ->
  exists h subscript,
    (Solver scriptPubKey).2 !! 0%nat = Some h /\
    GetCScript provider sd h = Some subscript /\
    ret = [subscript] /\ sd' = sd.
Proof.
  intros Hs. SignStep_arms. eauto 10.
Qed.


Lemma ProduceSignature_direct provider creator fromPubKey sd solved result t sd1 :
  complete sd = false ->
  SignStep provider creator fromPubKey sd = Some (solved, result, t, sd1) ->
  solved && bool_decide (t = TX_SCRIPTHASH) = false ->
  ProduceSignature provider creator fromPubKey sd =
    Some (finish creator fromPubKey solved result sd1).
Proof.
  intros Hc Hs Hb. unfold ProduceSignature. rewrite Hc, Hs. simpl.
  rewrite Hb. reflexivity.
Qed.

Lemma ProduceSignature_p2sh provider creator fromPubKey sd subscript sd1
    solved2 result2 t2 sd2 :
  complete sd = false ->
  SignStep provider creator fromPubKey sd =
    Some (true, [subscript], TX_SCRIPTHASH, sd1) ->
  SignStep provider creator subscript (set_redeem_script subscript sd1) =
    Some (solved2, result2, t2, sd2) ->
  ProduceSignature provider creator fromPubKey sd =
    Some (finish creator fromPubKey
            (solved2 && negb (bool_decide (t2 = TX_SCRIPTHASH)))
            (result2 ++ [subscript]) sd2).
Proof.
  intros Hc Hs Hi. unfold ProduceSignature. rewrite Hc, Hs. simpl.
  rewrite Hi. reflexivity.
Qed.

Lemma ProduceSignature_complete provider creator fromPubKey sd :
  complete sd = true ->
  ProduceSignature provider creator fromPubKey sd = Some (true, sd).
Proof. intros Hc. unfold ProduceSignature. rewrite Hc. reflexivity. Qed.

Lemma GetCScript_again provider sd sd' h subscript :
  GetCScript provider sd h = Some subscript ->
  redeem_script sd' = subscript ->
  GetCScript provider sd' h = Some subscript.
Proof.
  unfold GetCScript. destruct (provider_GetCScript provider h); [auto|].
  case_decide as Hid; [|discriminate]. intros [= <-] Hr.
  rewrite Hr. rewrite decide_True by assumption. reflexivity.
Qed.

Lemma SignStep_scripthash_again provider creator scriptPubKey sd sd' subscript :
  SignStep provider creator scriptPubKey sd =
    Some (true, [subscript], TX_SCRIPTHASH, sd) ->
  redeem_script sd' = subscript ->
  SignStep provider creator scriptPubKey sd' =
    Some (true, [subscript], TX_SCRIPTHASH, sd').
Proof.
  intros Hs Hr.
  pose proof Hs as (h & s' & Hh & Hg & [= <-] & _)%SignStep_scripthash.
  pose proof (GetCScript_again _ _ _ _ _ Hg Hr) as Hg'.
  SignStep_arms; congruence.
Qed.

Lemma set_redeem_script_eta sd : set_redeem_script (redeem_script sd) sd = sd.
Proof. destruct sd; reflexivity. Qed.

Lemma ProduceSignature_again provider creator fromPubKey sd b sd1 :
  ProduceSignature provider creator fromPubKey sd = Some (b, sd1) ->
  complete sd1 = b /\
  ProduceSignature provider creator fromPubKey sd1 = Some (b, sd1).
Proof.
  destruct (complete sd) eqn:Hc.
  { rewrite ProduceSignature_complete by assumption. intros [= <- <-].
    split; [assumption|]. apply ProduceSignature_complete. assumption. }
  intros Hps.
  assert (Hfin : forall solved result sd2,
    (b, sd1) = finish creator fromPubKey solved result sd2 ->
    complete sd1 = b /\
    (b = false -> sd1 = with_flags false (PushAll result) sd2 /\
       solved && VerifyScript (PushAll result) fromPubKey
                   STANDARD_SCRIPT_VERIFY_FLAGS (Checker creator) = false)).
  { intros solved result sd2 [= -> ->]. split; [reflexivity|].
    intros Hf. rewrite Hf. split; reflexivity. }
  unfold ProduceSignature in Hps. rewrite Hc in Hps.
  destruct (SignStep provider creator fromPubKey sd)
    as [[[[solved result] t] sd2]|] eqn:Hs; [simpl in Hps|discriminate].
  destruct (solved && bool_decide (t = TX_SCRIPTHASH)) eqn:Hb.
  - apply andb_true_iff in Hb as [-> Ht]. apply bool_decide_eq_true in Ht as ->.
    pose proof Hs as (h & subscript & Hh & Hg & -> & ->)%SignStep_scripthash.
    simpl in Hps.
    destruct (SignStep provider creator subscript (set_redeem_script subscript sd))
      as [[[[solved2 result2] t2] sd3]|] eqn:Hi; [simpl in Hps|discriminate].
    injection Hps as Hb Hsd.
    destruct (Hfin (solved2 && negb (bool_decide (t2 = TX_SCRIPTHASH)))
                (result2 ++ [subscript]) sd3) as [Hcpl Hfalse].
    { unfold finish, with_flags. simpl. congruence. }
    split; [assumption|].
    destruct b; [apply ProduceSignature_complete; assumption|].
    destruct (Hfalse eq_refl) as [Hsd1 Hv].
    assert (Hr : redeem_script sd1 = subscript).
    { rewrite Hsd1. simpl.
      apply SignStep_preserved in Hi as (_ & _ & -> & _). reflexivity. }
    rewrite (ProduceSignature_p2sh _ _ _ _ subscript sd1 solved2 result2 t2 sd1).
    + unfold finish. rewrite Hv. rewrite Hsd1. reflexivity.
    + assumption.
    + eapply SignStep_scripthash_again; eassumption.
    + rewrite <- Hr at 2. rewrite set_redeem_script_eta.
      rewrite Hsd1. rewrite SignStep_with_flags.
      apply SignStep_idem in Hi. rewrite Hi. reflexivity.
  - simpl in Hps. injection Hps as Hb' Hsd.
    destruct (Hfin solved result sd2) as [Hcpl Hfalse].
    { unfold finish, with_flags. simpl. congruence. }
    split; [assumption|].
    destruct b; [apply ProduceSignature_complete; assumption|].
    destruct (Hfalse eq_refl) as [Hsd1 Hv].
    rewrite (ProduceSignature_direct _ _ _ _ solved result t sd1).
    + unfold finish. rewrite Hv. rewrite Hsd1. reflexivity.
    + assumption.
    + rewrite Hsd1. rewrite SignStep_with_flags.
      apply SignStep_idem in Hs. rewrite Hs. reflexivity.
    + assumption.
Qed.

Lemma pad_loop_spec fuel required i ret :
  N.to_nat (required + 1 - (i + N.of_nat (length ret))) <= fuel ->
  exists k,
    pad_loop fuel required i ret = ret ++ replicate k [] /\
    N.to_nat (required + 1 - (i + N.of_nat (length ret))) <= 2 * k /\
    2 * k <= S (N.to_nat (required + 1 - (i + N.of_nat (length ret)))).
Proof.
  revert i ret. induction fuel as [|fuel IH]; intros i ret Hfuel.
  - exists 0. simpl. rewrite app_nil_r. split; [reflexivity|lia].
  - simpl. destruct (i + N.of_nat (length ret) <? required + 1)%N eqn:Hlt.
    + apply N.ltb_lt in Hlt.
      destruct (IH (i + 1)%N (ret ++ [[]])) as (k & -> & Hlo & Hhi).
      { rewrite length_app. simpl. lia. }
      rewrite length_app in Hlo, Hhi. simpl in Hlo, Hhi.
      exists (S k). split.
      * rewrite <- app_assoc. reflexivity.
      * lia.
    + apply N.ltb_ge in Hlt. exists 0. rewrite app_nil_r.
      split; [reflexivity|lia].
Qed.

(** Fuel beyond the distance to [required + 1] is never used: the loop has
    stopped on its own test. *)
Lemma pad_loop_fuel fuel fuel' required i ret :
  N.to_nat (required + 1 - (i + N.of_nat (length ret))) <= fuel ->
  N.to_nat (required + 1 - (i + N.of_nat (length ret))) <= fuel' ->
  pad_loop fuel required i ret = pad_loop fuel' required i ret.
Proof.
  intros (k & -> & Hlo & Hhi)%pad_loop_spec (k' & -> & Hlo' & Hhi')%pad_loop_spec.
  replace k' with k by lia. reflexivity.
Qed.




Lemma ProduceSignature_defined provider creator fromPubKey sd :
  Solver_in_range ->
  exists b sd', ProduceSignature provider creator fromPubKey sd = Some (b, sd').
Proof.
  intros Hrange. destruct (complete sd) eqn:Hc.
  { rewrite ProduceSignature_complete by assumption. eauto. }
  destruct (SignStep_defined provider creator fromPubKey sd (Hrange _))
    as (ok & ret & sd1 & Hs).
  destruct (ok && bool_decide ((Solver fromPubKey).1.2 = TX_SCRIPTHASH)) eqn:Hb.
  - apply andb_true_iff in Hb as [-> Ht]. apply bool_decide_eq_true in Ht.
    rewrite Ht in Hs.
    pose proof Hs as (h & subscript & _ & _ & -> & ->)%SignStep_scripthash.
    destruct (SignStep_defined provider creator subscript
                (set_redeem_script subscript sd) (Hrange _))
      as (ok2 & ret2 & sd2 & Hi).
    erewrite ProduceSignature_p2sh by eassumption.
    unfold finish. eauto.
  - erewrite ProduceSignature_direct by eassumption. unfold finish. eauto.
Qed.

(** C4: [ProduceSignature] is idempotent.  When [Solver] answers in range,
    the call returns, a second call on the resulting [SignatureData] returns
    the same boolean and leaves that [SignatureData] as it is, and when the
    first call reported completion every later call (whatever the provider,
    the creator and the script) returns true at once without changing the
    [SignatureData]. *)
Theorem ProduceSignature_idempotent provider creator fromPubKey sd :
  Solver_in_range ->
  exists b sd1,
    ProduceSignature provider creator fromPubKey sd = Some (b, sd1) /\
    ProduceSignature provider creator fromPubKey sd1 = Some (b, sd1) /\
    (b = true ->
     complete sd1 = true /\
     forall provider' creator' fromPubKey',
       ProduceSignature provider' creator' fromPubKey' sd1 = Some (true, sd1)).
Proof.
  intros Hrange.
  destruct (ProduceSignature_defined provider creator fromPubKey sd Hrange)
    as (b & sd1 & Hps).
  exists b, sd1. split; [assumption|].
  destruct (ProduceSignature_again _ _ _ _ _ _ Hps) as [Hc Hagain].
  split; [assumption|].
  intros ->. split; [assumption|].
  intros provider' creator' fromPubKey'.
  apply ProduceSignature_complete. assumption.
Qed.

Lemma set_scriptSig_with_flags old sd :
  set_scriptSig old sd = with_flags (complete sd) old sd.
Proof. destruct sd; reflexivity. Qed.

Lemma ProduceSignature_ignores_scriptSig provider creator fromPubKey sd old :
  complete sd = false ->
  ProduceSignature provider creator fromPubKey (set_scriptSig old sd) =
  ProduceSignature provider creator fromPubKey sd.
Proof.
  intros Hc. unfold ProduceSignature. simpl. rewrite Hc.
  rewrite set_scriptSig_with_flags, SignStep_with_flags.
  destruct (SignStep provider creator fromPubKey sd)
    as [[[[solved result] t] sd1]|]; [simpl|reflexivity].
  destruct (solved && bool_decide (t = TX_SCRIPTHASH)); [|reflexivity].
  destruct (result !! 0%nat) as [subscript|]; [simpl|reflexivity].
  change (set_redeem_script subscript (with_flags (complete sd) old sd1))
    with (with_flags (complete sd) old (set_redeem_script subscript sd1)).
  rewrite SignStep_with_flags.
  destruct (SignStep provider creator subscript
              (set_redeem_script subscript sd1))
    as [[[[solved2 result2] t2] sd2]|]; reflexivity.
Qed.

Lemma ProduceSignature_effect provider creator fromPubKey sd b sd' :
  complete sd = false ->
  ProduceSignature provider creator fromPubKey sd = Some (b, sd') ->
  complete sd' = b /\
  (exists result, scriptSig sd' = PushAll result) /\
  (forall k v, signatures sd !! k = Some v -> signatures sd' !! k = Some v) /\
  ((Solver fromPubKey).1.1 = false -> b = false /\ scriptSig sd' = []).
Proof.
  intros Hc. unfold ProduceSignature. rewrite Hc.
  destruct (SignStep provider creator fromPubKey sd)
    as [[[[solved result] t] sd1]|] eqn:Hs; [simpl|discriminate].
  assert (Hfail : (Solver fromPubKey).1.1 = false ->
                  solved = false /\ result = []).
  { revert Hs. unfold SignStep.
    destruct (Solver fromPubKey) as [[ok t0] sols]. simpl.
    intros Hs ->. simpl in Hs. injection Hs as <- <- _ _. auto. }
  pose proof (SignStep_preserved _ _ _ _ _ _ _ _ Hs) as (_ & _ & _ & Hm1).
  destruct (solved && bool_decide (t = TX_SCRIPTHASH)) eqn:Hb.
  - destruct (result !! 0%nat) as [subscript|]; [simpl|discriminate].
    destruct (SignStep provider creator subscript
                (set_redeem_script subscript sd1))
      as [[[[solved2 result2] t2] sd2]|] eqn:Hi; [simpl|discriminate].
    pose proof (SignStep_preserved _ _ _ _ _ _ _ _ Hi) as (_ & _ & _ & Hm2).
    intros [= <- <-]. simpl.
    split; [reflexivity|]. split; [eexists; reflexivity|]. split; [auto|].
    intros Hf. destruct (Hfail Hf) as [-> _]. discriminate Hb.
  - intros [= <- <-]. simpl.
    split; [reflexivity|]. split; [eexists; reflexivity|]. split; [auto|].
    intros Hf. destruct (Hfail Hf) as [-> ->]. split; reflexivity.
Qed.

(** C10: a call of [ProduceSignature] on a [SignatureData] that is not
    complete always stores the newly assembled push script in [scriptSig],
    also when it returns false: the result does not depend on the scriptSig
    stored before (which is discarded); the stored script is [PushAll] of
    the stack of [SignStep] (of the recursive [SignStep] followed by the
    redeem script in the P2SH case), the empty script when [Solver] does not
    recognise the locking script; and every entry of [signatures] is still
    there. *)
Theorem ProduceSignature_overwrites_scriptSig provider creator fromPubKey sd :
  Solver_in_range ->
  complete sd = false ->
  exists b sd' result,
    ProduceSignature provider creator fromPubKey sd = Some (b, sd') /\
    complete sd' = b /\
    scriptSig sd' = PushAll result /\
    (forall old,
       ProduceSignature provider creator fromPubKey (set_scriptSig old sd) =
         Some (b, sd')) /\
    (forall k v, signatures sd !! k = Some v -> signatures sd' !! k = Some v) /\
    ((Solver fromPubKey).1.1 = false -> b = false /\ scriptSig sd' = []) /\
    (forall solved ret t sd1,
       SignStep provider creator fromPubKey sd = Some (solved, ret, t, sd1) ->
       solved && bool_decide (t = TX_SCRIPTHASH) = false ->
       result = ret) /\
    (forall subscript sd1 solved2 ret2 t2 sd2,
       SignStep provider creator fromPubKey sd =
         Some (true, [subscript], TX_SCRIPTHASH, sd1) ->
       SignStep provider creator subscript (set_redeem_script subscript sd1) =
         Some (solved2, ret2, t2, sd2) ->
       result = ret2 ++ [subscript]).
Proof.
  intros Hrange Hc.
  destruct (ProduceSignature_defined provider creator fromPubKey sd Hrange)
    as (b & sd' & Hps).
  destruct (ProduceSignature_effect _ _ _ _ _ _ Hc Hps)
    as (Hb & _ & Hsig & Hfail).
  assert (Hstack : exists result,
    scriptSig sd' = PushAll result /\
    (forall solved ret t sd1,
       SignStep provider creator fromPubKey sd = Some (solved, ret, t, sd1) ->
       solved && bool_decide (t = TX_SCRIPTHASH) = false ->
       result = ret) /\
    (forall subscript sd1 solved2 ret2 t2 sd2,
       SignStep provider creator fromPubKey sd =
         Some (true, [subscript], TX_SCRIPTHASH, sd1) ->
       SignStep provider creator subscript (set_redeem_script subscript sd1) =
         Some (solved2, ret2, t2, sd2) ->
       result = ret2 ++ [subscript])).
  { revert Hps. unfold ProduceSignature. rewrite Hc.
    destruct (SignStep provider creator fromPubKey sd)
      as [[[[solved result] t] sd1]|] eqn:Hs; [simpl|discriminate].
    destruct (solved && bool_decide (t = TX_SCRIPTHASH)) eqn:Hb'.
    - destruct (result !! 0%nat) as [subscript|] eqn:Hr; [simpl|discriminate].
      destruct (SignStep provider creator subscript
                  (set_redeem_script subscript sd1))
        as [[[[solved2 result2] t2] sd2]|] eqn:Hi; [simpl|discriminate].
      intros [= <- <-]. exists (result2 ++ [subscript]).
      split; [reflexivity|]. split.
      + intros ? ? ? ? ? ?. simplify_eq. congruence.
      + intros ? ? ? ? ? ? ? ?. simplify_eq/=. reflexivity.
    - intros [= <- <-]. exists result. split; [reflexivity|]. split.
      + intros ? ? ? ? ? ?. simplify_eq. reflexivity.
      + intros ? ? ? ? ? ? ? ?. simplify_eq/=. }
  destruct Hstack as (result & Hss & Hdirect & Hp2sh).
  exists b, sd', result. repeat split; try assumption.
  - intros old. rewrite ProduceSignature_ignores_scriptSig; assumption.
  - apply Hfail; assumption.
  - apply Hfail; assumption.
Qed.

(** C5: no nested P2SH.  When the outer script is SCRIPTHASH and its
    embedded redeem script is found, the completion that [ProduceSignature]
    reports (on a [SignatureData] that was not complete already) is the
    conjunction of: the recursive [SignStep] succeeded, its tag is not
    SCRIPTHASH, and the assembled scriptSig verifies.  So a redeem script
    that itself resolves to SCRIPTHASH never gives completion. *)
Theorem ProduceSignature_no_nested_P2SH provider creator fromPubKey sd h rest
    subscript :
  complete sd = false ->
  Solver fromPubKey = (true, TX_SCRIPTHASH, h :: rest) ->
  GetCScript provider sd h = Some subscript ->
  solutions_in_range (Solver subscript) = true ->
  exists solved2 result2 sd2 b sd',
    SignStep provider creator subscript (set_redeem_script subscript sd) =
      Some (solved2, result2, (Solver subscript).1.2, sd2) /\
    ProduceSignature provider creator fromPubKey sd = Some (b, sd') /\
    complete sd' = b /\
    b = solved2 && negb (bool_decide ((Solver subscript).1.2 = TX_SCRIPTHASH))
        && VerifyScript (PushAll (result2 ++ [subscript])) fromPubKey
             STANDARD_SCRIPT_VERIFY_FLAGS (Checker creator) /\
    ((Solver subscript).1.2 = TX_SCRIPTHASH -> b = false).
Proof.
  intros Hc HS Hg Hin.
  assert (Hs : SignStep provider creator fromPubKey sd =
               Some (true, [subscript], TX_SCRIPTHASH, sd)).
  { unfold SignStep. rewrite HS. simpl. rewrite Hg. reflexivity. }
  destruct (SignStep_defined provider creator subscript
              (set_redeem_script subscript sd) Hin) as (ok2 & ret2 & sd2 & Hi).
  exists ok2, ret2, sd2. eexists _, _. split; [exact Hi|].
  split; [eapply ProduceSignature_p2sh; eassumption|].
  split; [reflexivity|]. split; [reflexivity|].
  intros Ht. rewrite Ht. rewrite bool_decide_eq_true_2 by reflexivity.
  rewrite andb_false_r. reflexivity.
Qed.

(** C8: PUBKEYHASH with a missing public key.  When signing for the key id
    succeeds and the provider's public-key lookup misses, [SignStep] still
    returns true with the stack [sig; empty]; the assembled scriptSig fails
    verification (the interpreter's answer, taken from the specification)
    and [ProduceSignature] returns false with [complete = false]. *)
Theorem SignStep_pubkeyhash_missing_pubkey provider creator scriptPubKey sd
    h rest sig sd1 :
  complete sd = false ->
  Solver scriptPubKey = (true, TX_PUBKEYHASH, h :: rest) ->
  CreateSig creator sd provider h scriptPubKey = (Some sig, sd1) ->
  provider_GetPubKey provider h = None ->
  empty_pubkey_fails_verification scriptPubKey sig (Checker creator) ->
  SignStep provider creator scriptPubKey sd =
    Some (true, [sig; []], TX_PUBKEYHASH, sd1) /\
  VerifyScript (PushAll [sig; []]) scriptPubKey
    STANDARD_SCRIPT_VERIFY_FLAGS (Checker creator) = false /\
  ProduceSignature provider creator scriptPubKey sd =
    Some (false, set_complete false (set_scriptSig (PushAll [sig; []]) sd1)).
Proof.
  intros Hc HS Hsig Hpk Hver.
  assert (Hs : SignStep provider creator scriptPubKey sd =
               Some (true, [sig; []], TX_PUBKEYHASH, sd1)).
  { unfold SignStep. rewrite HS. simpl. rewrite Hsig, Hpk. reflexivity. }
  split; [exact Hs|]. split; [exact Hver|].
  erewrite ProduceSignature_direct; [|eassumption..|reflexivity].
  unfold empty_pubkey_fails_verification, ToByteVector, CPubKey_default in Hver.
  unfold finish. rewrite Hver. reflexivity.
Qed.

(** C2, amended: the pubkeys are visited in order; a signing attempt
    ([CreateSig]) is made for a pubkey exactly while fewer than [required]
    signatures have been collected, and from the moment [required]
    signatures are on the stack the rest of the iteration makes no attempt
    and changes neither the stack nor the [SignatureData]. *)
Theorem multisig_attempts_stop_at_threshold provider creator scriptPubKey
    required vch pks ret sd :
  ((N.of_nat (length ret) < required + 1)%N ->
   multisig_loop provider creator scriptPubKey required (vch :: pks) (ret, sd) =
   multisig_loop provider creator scriptPubKey required pks
     (match CreateSig creator sd provider (GetID (CPubKey_of_bytes vch))
              scriptPubKey with
      | (Some sig, sd') => (ret ++ [sig], sd')
      | (None, sd') => (ret, sd')
      end)) /\
  ((required + 1 <= N.of_nat (length ret))%N ->
   multisig_loop provider creator scriptPubKey required (vch :: pks) (ret, sd) =
   (ret, sd)).
Proof.
  split.
  - intros Hlt%N.ltb_lt. rewrite multisig_loop_cons. unfold multisig_step.
    rewrite Hlt. reflexivity.
  - intros Hge%N.ltb_ge. apply multisig_loop_saturated. assumption.
Qed.
End SigningProperties.

(** ** The driver on explicit inputs *)

(** The demo [Solver] answers in range for every script. *)
Lemma Demo_Solver_in_range : @Solver_in_range Demo.ext.
Proof.
  intros script. unfold solutions_in_range. cbn.
  unfold Demo.Solver. repeat case_match; simplify_eq; reflexivity.
Qed.

(** PUBKEYHASH with the key at hand: signature and public key, complete. *)
Example scenario_p2pkh_signed :
  exists sd,
    ProduceSignature (ext := Demo.ext) (Demo.keystore [[11%N]] [])
      Demo.creator Demo.p2pkh SignatureData_default = Some (true, sd) /\
    scriptSig sd =
      PushAll (ext := Demo.ext) [Demo.sign [12%N] Demo.p2pkh; [11%N]].
Proof. eexists. split; vm_compute; reflexivity. Qed.

(** The same script and an empty provider: nothing is produced. *)
Example scenario_p2pkh_no_key :
  ProduceSignature (ext := Demo.ext) DUMMY_SIGNING_PROVIDER Demo.creator
    Demo.p2pkh SignatureData_default = Some (false, SignatureData_default).
Proof. vm_compute. reflexivity. Qed.

(** P2SH wrapping 2-of-3: the first signer leaves one signature,
    one placeholder and the redeem script, and a second signer who holds
    only the second key completes the input from that record. *)
Example scenario_p2sh_multisig_two_signers :
  exists sd3 sd4,
    ProduceSignature (ext := Demo.ext)
      (Demo.keystore [[11%N]] [Demo.multisig_2of3]) Demo.creator
      Demo.p2sh_2of3 SignatureData_default = Some (false, sd3) /\
    scriptSig sd3 =
      PushAll (ext := Demo.ext)
        [[]; Demo.sign [12%N] Demo.multisig_2of3; []; Demo.multisig_2of3] /\
    redeem_script sd3 = Demo.multisig_2of3 /\
    dom (signatures sd3) = {[ [160; 11]%N ]} /\
    ProduceSignature (ext := Demo.ext) (Demo.keystore [[12%N]] [])
      Demo.creator Demo.p2sh_2of3 sd3 = Some (true, sd4) /\
    scriptSig sd4 =
      PushAll (ext := Demo.ext)
        [[]; Demo.sign [12%N] Demo.multisig_2of3;
         Demo.sign [13%N] Demo.multisig_2of3; Demo.multisig_2of3].
Proof.
  eexists _, _. split; [vm_compute; reflexivity|].
  split; [vm_compute; reflexivity|]. split; [reflexivity|].
  split; [vm_compute; reflexivity|].
  split; vm_compute; reflexivity.
Qed.

(** C1, on the code: for the 2-of-2 script and a provider without keys the
    returned stack has two entries, not [m + 1 = 3]; for the 3-of-3 script
    and one available key it has three entries, not four.  The padding loop
    advances both [i] and [ret.size()] on every push and stops half way. *)
Lemma SignStep_multisig_padding_short :
  Solver (Collaborators := Demo.ext) Demo.multisig_2of2 =
    (true, TX_MULTISIG, [[2]; [11]; [12]; [2]]%N) /\
  SignStep (ext := Demo.ext) (Demo.keystore [] []) Demo.creator
    Demo.multisig_2of2 SignatureData_default =
    Some (false, [[]; []], TX_MULTISIG, SignatureData_default) /\
  SignStep (ext := Demo.ext) (Demo.keystore [[11%N]] []) Demo.creator
    Demo.multisig_3of3 SignatureData_default =
    Some (false, [[]; Demo.sign [12%N] Demo.multisig_3of3; []], TX_MULTISIG,
          {| complete := false; scriptSig := []; redeem_script := [];
             signatures :=
               {[ [160; 11]%N := ([11%N], Demo.sign [12%N] Demo.multisig_3of3) ]};
             misc_pubkeys := {[ [160; 11]%N := [11%N] ]} |}).
Proof. repeat split; vm_compute; reflexivity. Qed.

(** C2, as stated, fails: for the 1-of-2 script and a provider that can sign
    with both keys, the source's loop stops attempting after the first
    signature.  The second key leaves no trace in the [SignatureData]
    although the creator signs for it, whereas the loop the specification
    describes records its signature; the two loops differ. *)
Lemma multisig_second_key_not_attempted :
  Solver (Collaborators := Demo.ext) Demo.multisig_1of2 =
    (true, TX_MULTISIG, [[1]; [11]; [12]; [2]]%N) /\
  creator_CreateSig Demo.creator (Demo.keystore [[11%N]; [12%N]] [])
    [160; 12]%N Demo.multisig_1of2 = Some (Demo.sign [13%N] Demo.multisig_1of2) /\
  (exists sd',
     multisig_loop (ext := Demo.ext) (Demo.keystore [[11%N]; [12%N]] [])
       Demo.creator Demo.multisig_1of2 1%N [[11%N]; [12%N]]
       ([[]], SignatureData_default) =
       ([[]; Demo.sign [12%N] Demo.multisig_1of2], sd') /\
     signatures sd' !! [160; 12]%N = None /\
     misc_pubkeys sd' !! [160; 12]%N = None) /\
  (exists sd',
     multisig_loop_every_key (ext := Demo.ext)
       (Demo.keystore [[11%N]; [12%N]] [])
       Demo.creator Demo.multisig_1of2 1%N [[11%N]; [12%N]]
       ([[]], SignatureData_default) =
       ([[]; Demo.sign [12%N] Demo.multisig_1of2], sd') /\
     signatures sd' !! [160; 12]%N =
       Some ([12%N], Demo.sign [13%N] Demo.multisig_1of2)) /\
  multisig_loop (ext := Demo.ext) (Demo.keystore [[11%N]; [12%N]] [])
    Demo.creator Demo.multisig_1of2 1%N [[11%N]; [12%N]]
    ([[]], SignatureData_default) <>
  multisig_loop_every_key (ext := Demo.ext) (Demo.keystore [[11%N]; [12%N]] [])
    Demo.creator Demo.multisig_1of2 1%N [[11%N]; [12%N]]
    ([[]], SignatureData_default).
Proof.
  split; [reflexivity|]. split; [reflexivity|].
  split; [eexists; split; [reflexivity|split; vm_compute; reflexivity]|].
  split; [eexists; split; [reflexivity|vm_compute; reflexivity]|].
  intros Heq.
  apply (f_equal (fun st => signatures st.2 !! [160; 12]%N)) in Heq.
  vm_compute in Heq. discriminate Heq.
Qed.

(** C4 on an input: P2SH wrapping 2-of-3 with one available key. *)
Lemma ProduceSignature_idempotent_witness :
  exists b sd1,
    ProduceSignature (ext := Demo.ext) (Demo.keystore [[11%N]] [Demo.multisig_2of3])
      Demo.creator Demo.p2sh_2of3 SignatureData_default = Some (b, sd1) /\
    ProduceSignature (ext := Demo.ext) (Demo.keystore [[11%N]] [Demo.multisig_2of3])
      Demo.creator Demo.p2sh_2of3 sd1 = Some (b, sd1) /\
    (b = true ->
     complete sd1 = true /\
     forall provider' creator' fromPubKey',
       ProduceSignature (ext := Demo.ext) provider' creator' fromPubKey' sd1 =
         Some (true, sd1)).
Proof.
  apply (ProduceSignature_idempotent (ext := Demo.ext)).
  apply Demo_Solver_in_range.
Defined.

(** C10 on an input: a PUBKEYHASH script, no key, and a stale
    [SignatureData]. *)
Lemma ProduceSignature_overwrites_scriptSig_witness :
  exists b sd' result,
    ProduceSignature (ext := Demo.ext) (Demo.keystore [] []) Demo.creator
      Demo.p2pkh Demo.stale = Some (b, sd') /\
    complete sd' = b /\
    scriptSig sd' = PushAll (ext := Demo.ext) result /\
    (forall old,
       ProduceSignature (ext := Demo.ext) (Demo.keystore [] []) Demo.creator
         Demo.p2pkh (set_scriptSig old Demo.stale) = Some (b, sd')) /\
    (forall k v, signatures Demo.stale !! k = Some v -> signatures sd' !! k = Some v) /\
    ((Solver (Collaborators := Demo.ext) Demo.p2pkh).1.1 = false ->
     b = false /\ scriptSig sd' = []) /\
    (forall solved ret t sd1,
       SignStep (ext := Demo.ext) (Demo.keystore [] []) Demo.creator
         Demo.p2pkh Demo.stale = Some (solved, ret, t, sd1) ->
       solved && bool_decide (t = TX_SCRIPTHASH) = false ->
       result = ret) /\
    (forall subscript sd1 solved2 ret2 t2 sd2,
       SignStep (ext := Demo.ext) (Demo.keystore [] []) Demo.creator
         Demo.p2pkh Demo.stale =
         Some (true, [subscript], TX_SCRIPTHASH, sd1) ->
       SignStep (ext := Demo.ext) (Demo.keystore [] []) Demo.creator
         subscript (set_redeem_script subscript sd1) =
         Some (solved2, ret2, t2, sd2) ->
       result = ret2 ++ [subscript]).
Proof.
  apply (ProduceSignature_overwrites_scriptSig (ext := Demo.ext)).
  - apply Demo_Solver_in_range.
  - reflexivity.
Defined.

(** The failed attempt replaces the stale scriptSig [9 9 9] by the empty
    script and keeps the stored signature. *)
Example failed_attempt_discards_scriptSig :
  ProduceSignature (ext := Demo.ext) (Demo.keystore [] []) Demo.creator
    Demo.p2pkh Demo.stale = Some (false, set_scriptSig [] Demo.stale).
Proof. vm_compute. reflexivity. Qed.

(** C5 on an input: P2SH wrapping P2SH wrapping a PUBKEY script whose key
    the provider holds. *)
Lemma ProduceSignature_no_nested_P2SH_witness :
  exists solved2 result2 sd2 b sd',
    SignStep (ext := Demo.ext) (Demo.keystore [[11%N]] [Demo.p2sh_inner; [1; 11]%N])
      Demo.creator Demo.p2sh_inner
      (set_redeem_script Demo.p2sh_inner SignatureData_default) =
      Some (solved2, result2, (Solver (Collaborators := Demo.ext) Demo.p2sh_inner).1.2, sd2) /\
    ProduceSignature (ext := Demo.ext)
      (Demo.keystore [[11%N]] [Demo.p2sh_inner; [1; 11]%N])
      Demo.creator Demo.p2sh_nested SignatureData_default = Some (b, sd') /\
    complete sd' = b /\
    b = solved2 &&
        negb (bool_decide ((Solver (Collaborators := Demo.ext) Demo.p2sh_inner).1.2
                           = TX_SCRIPTHASH)) &&
        VerifyScript (Collaborators := Demo.ext)
          (PushAll (ext := Demo.ext) (result2 ++ [Demo.p2sh_inner])) Demo.p2sh_nested
          (STANDARD_SCRIPT_VERIFY_FLAGS (Collaborators := Demo.ext))
          (Checker Demo.creator) /\
    ((Solver (Collaborators := Demo.ext) Demo.p2sh_inner).1.2 = TX_SCRIPTHASH ->
     b = false).
Proof.
  apply (ProduceSignature_no_nested_P2SH (ext := Demo.ext) _ _ _ _
           (Demo.Hash160 Demo.p2sh_inner) []).
  - reflexivity.
  - reflexivity.
  - vm_compute. reflexivity.
  - reflexivity.
Defined.

(** The nested script is not complete although every lookup succeeds. *)
Example nested_P2SH_is_rejected :
  exists sd',
    ProduceSignature (ext := Demo.ext)
      (Demo.keystore [[11%N]] [Demo.p2sh_inner; [1; 11]%N])
      Demo.creator Demo.p2sh_nested SignatureData_default = Some (false, sd') /\
    scriptSig sd' =
      PushAll (ext := Demo.ext) [[1; 11]%N; Demo.p2sh_inner].
Proof. eexists. split; vm_compute; reflexivity. Qed.

(** C8 on an input: the provider signs for the key id and knows no public
    key. *)
Lemma SignStep_pubkeyhash_missing_pubkey_witness :
  SignStep (ext := Demo.ext) (Demo.keys_only [[11%N]]) Demo.creator Demo.p2pkh
    SignatureData_default =
    Some (true, [Demo.sign [12%N] Demo.p2pkh; []], TX_PUBKEYHASH,
          set_signatures {[ [160; 11]%N := ([], Demo.sign [12%N] Demo.p2pkh) ]}
            SignatureData_default) /\
  VerifyScript (Collaborators := Demo.ext)
    (PushAll (ext := Demo.ext) [Demo.sign [12%N] Demo.p2pkh; []]) Demo.p2pkh
    (STANDARD_SCRIPT_VERIFY_FLAGS (Collaborators := Demo.ext))
    (Checker Demo.creator) = false /\
  ProduceSignature (ext := Demo.ext) (Demo.keys_only [[11%N]]) Demo.creator
    Demo.p2pkh SignatureData_default =
    Some (false,
          set_complete false
            (set_scriptSig
               (PushAll (ext := Demo.ext) [Demo.sign [12%N] Demo.p2pkh; []])
               (set_signatures
                  {[ [160; 11]%N := ([], Demo.sign [12%N] Demo.p2pkh) ]}
                  SignatureData_default))).
Proof.
  apply (SignStep_pubkeyhash_missing_pubkey (ext := Demo.ext) _ _ _ _
           [160; 11]%N []).
  - reflexivity.
  - reflexivity.
  - vm_compute. reflexivity.
  - reflexivity.
  - vm_compute. reflexivity.
Defined.


(** * Further properties of the signing driver *)

Section DriverProperties.
Context `{ext : Collaborators}.

Lemma ProduceSignature_true_verifies provider creator fromPubKey sd sd' :
  complete sd = false ->
  ProduceSignature provider creator fromPubKey sd = Some (true, sd') ->
  complete sd' = true /\
  VerifyScript (scriptSig sd') fromPubKey STANDARD_SCRIPT_VERIFY_FLAGS
    (Checker creator) = true.
Proof.
  intros Hc. unfold ProduceSignature. rewrite Hc.
  destruct (SignStep provider creator fromPubKey sd)
    as [[[[solved result] t] sd1]|]; [simpl|discriminate].
  destruct (solved && bool_decide (t = TX_SCRIPTHASH)).
  - destruct (result !! 0%nat) as [subscript|]; [simpl|discriminate].
    destruct (SignStep provider creator subscript
                (set_redeem_script subscript sd1))
      as [[[[solved2 result2] t2] sd2]|]; [simpl|discriminate].
    intros [= Hb <-]. simpl. apply andb_true_iff in Hb as [Hs Hv].
    rewrite Hs, Hv. auto.
  - simpl. intros [= Hb <-]. simpl. apply andb_true_iff in Hb as [Hs Hv].
    rewrite Hs, Hv. auto.
Qed.

(** X2: when [ProduceSignature] returns true for signature data that were
    not complete on entry, the data are marked complete and the scriptSig it
    stored verifies against [fromPubKey] under the standard flags with the
    creator's checker. *)
Theorem ProduceSignature_complete_verified provider creator fromPubKey sd sd' :
  complete sd = false ->
  ProduceSignature provider creator fromPubKey sd = Some (true, sd') ->
  complete sd' = true /\
  VerifyScript (scriptSig sd') fromPubKey STANDARD_SCRIPT_VERIFY_FLAGS
    (Checker creator) = true.
Proof. apply ProduceSignature_true_verifies. Qed.

Lemma CreateSig_well_keyed creator sd provider keyid scriptcode r sd' :
  provider_consistent provider ->
  well_keyed sd ->
  CreateSig creator sd provider keyid scriptcode = (r, sd') ->
  well_keyed sd'.
Proof.
  intros Hp [Hs Hm]. unfold CreateSig, GetPubKey.
  destruct (signatures sd !! keyid) as [p|] eqn:Hk.
  { intros [= <- <-]. split; assumption. }
  assert (Hm' : forall pk0 k pk,
            emplace (GetID pk0) pk0 (misc_pubkeys sd) !! k = Some pk ->
            GetID pk = k).
  { intros pk0 k pk. rewrite emplace_lookup.
    destruct (misc_pubkeys sd !! k) eqn:Hmk; [intros [= <-]; eauto|].
    case_decide; [|discriminate]. intros [= <-]. assumption. }
  assert (Hs' : forall pk0 sig0 k pk sig,
            (pk0 = CPubKey_default \/ GetID pk0 = keyid) ->
            emplace keyid (pk0, sig0) (signatures sd) !! k = Some (pk, sig) ->
            pk = CPubKey_default \/ GetID pk = k).
  { intros pk0 sig0 k pk sig H0. rewrite emplace_lookup.
    destruct (signatures sd !! k) eqn:Hsk; [intros [= ->]; eauto|].
    case_decide; [|discriminate]. intros [= <- <-]. subst. assumption. }
  destruct (provider_GetPubKey provider keyid) as [pk|] eqn:Hpk;
    [|destruct (misc_pubkeys sd !! keyid) as [pk|] eqn:Hmk];
    destruct (creator_CreateSig creator provider keyid scriptcode);
    intros [= <- <-]; (split; simpl; [|eauto]); eauto.
Qed.

(** A property of the signature data that every [CreateSig] call with
    script code [scriptPubKey] keeps is kept by [SignStep]. *)
Lemma multisig_loop_invariant (P : SignatureData -> Prop)
    provider creator scriptPubKey required pks :
  (forall sd k r sd',
     P sd -> CreateSig creator sd provider k scriptPubKey = (r, sd') -> P sd') ->
  forall ret sd ret' sd',
  P sd ->
  multisig_loop provider creator scriptPubKey required pks (ret, sd) = (ret', sd') ->
  P sd'.
Proof.
  intros Hstep. induction pks as [|vch pks IH]; intros ret sd ret' sd' HP Hloop.
  - injection Hloop as <- <-. exact HP.
  - rewrite multisig_loop_cons in Hloop. unfold multisig_step in Hloop.
    destruct (N.of_nat (length ret) <? required + 1)%N; [|eauto].
    destruct (CreateSig creator sd provider (GetID (CPubKey_of_bytes vch))
                scriptPubKey) as [[sig|] sd1] eqn:Hc; eauto.
Qed.

Lemma SignStep_invariant (P : SignatureData -> Prop)
    provider creator scriptPubKey sd ok ret t sd' :
  (forall sd k r sd',
     P sd -> CreateSig creator sd provider k scriptPubKey = (r, sd') -> P sd') ->
  P sd ->
  SignStep provider creator scriptPubKey sd = Some (ok, ret, t, sd') ->
  P sd'.
Proof.
  intros Hstep HP Hs. unfold SignStep in Hs.
  repeat case_match; simplify_option_eq; repeat case_match; simplify_eq/=;
    eauto.
  eapply multisig_loop_invariant; eauto.
Qed.

Lemma ProduceSignature_invariant (P : SignatureData -> Prop)
    provider creator fromPubKey sd b sd' :
  (forall scriptcode sd k r sd',
     P sd -> CreateSig creator sd provider k scriptcode = (r, sd') -> P sd') ->
  (forall s sd, P sd -> P (set_redeem_script s sd)) ->
  (forall c x sd, P sd -> P (with_flags c x sd)) ->
  P sd ->
  ProduceSignature provider creator fromPubKey sd = Some (b, sd') ->
  P sd'.
Proof.
  intros Hstep Hrs Hfl HP. unfold ProduceSignature.
  destruct (complete sd); [intros [= <- <-]; exact HP|].
  destruct (SignStep provider creator fromPubKey sd)
    as [[[[solved result] t] sd1]|] eqn:Hs; [simpl|discriminate].
  assert (HP1 : P sd1).
  { eapply SignStep_invariant; [|exact HP|exact Hs].
    intros; eapply Hstep; eassumption. }
  destruct (solved && bool_decide (t = TX_SCRIPTHASH)).
  - destruct (result !! 0%nat) as [subscript|]; [simpl|discriminate].
    destruct (SignStep provider creator subscript
                (set_redeem_script subscript sd1))
      as [[[[solved2 result2] t2] sd2]|] eqn:Hi; [simpl|discriminate].
    intros [= <- <-]. apply (Hfl _ _ sd2).
    eapply SignStep_invariant; [|apply Hrs, HP1|exact Hi].
    intros; eapply Hstep; eassumption.
  - simpl. intros [= <- <-]. apply (Hfl _ _ sd1). exact HP1.
Qed.

Lemma ProduceSignature_keeps_well_keyed provider creator fromPubKey sd b sd' :
  provider_consistent provider ->
  well_keyed sd ->
  ProduceSignature provider creator fromPubKey sd = Some (b, sd') ->
  well_keyed sd'.
Proof.
  intros Hp Hw Hps.
  eapply (ProduceSignature_invariant well_keyed); eauto.
  intros ? ? ? ? ? ?. eapply CreateSig_well_keyed; eauto.
Qed.

(** X3: with a provider that answers a look-up by key id with a key of that
    id, [ProduceSignature] returns and keeps the signature data well keyed:
    every signature is stored under the id of the public key stored with it
    (or with the default key), every entry of [misc_pubkeys] under the id of
    its key. *)
Theorem ProduceSignature_well_keyed provider creator fromPubKey sd :
  Solver_in_range ->
  provider_consistent provider ->
  well_keyed sd ->
  exists b sd',
    ProduceSignature provider creator fromPubKey sd = Some (b, sd') /\
    well_keyed sd'.
Proof.
  intros Hrange Hp Hw.
  destruct (ProduceSignature_defined provider creator fromPubKey sd Hrange)
    as (b & sd' & Hps).
  exists b, sd'. split; [exact Hps|].
  eapply ProduceSignature_keeps_well_keyed; eassumption.
Qed.

Lemma CreateSig_misc_mono creator sd provider keyid scriptcode r sd' :
  CreateSig creator sd provider keyid scriptcode = (r, sd') ->
  forall k v, misc_pubkeys sd !! k = Some v -> misc_pubkeys sd' !! k = Some v.
Proof.
  intros (_ & _ & _ & Hmisc & _)%CreateSig_effect k v Hk.
  destruct Hmisc as [->|(pk & ->)]; [assumption|].
  rewrite emplace_lookup, Hk. reflexivity.
Qed.

Lemma ProduceSignature_misc_mono provider creator fromPubKey sd b sd' :
  ProduceSignature provider creator fromPubKey sd = Some (b, sd') ->
  forall k v, misc_pubkeys sd !! k = Some v -> misc_pubkeys sd' !! k = Some v.
Proof.
  intros Hps k v Hk.
  apply (ProduceSignature_invariant
           (fun s => misc_pubkeys s !! k = Some v) _ _ _ _ _ _) in Hps; auto.
  intros ? ? ? ? ? ? ?. eapply CreateSig_misc_mono; eauto.
Qed.

Lemma ProduceSignature_redeem_script provider creator fromPubKey sd b sd' :
  ProduceSignature provider creator fromPubKey sd = Some (b, sd') ->
  redeem_script sd' = redeem_script sd \/
  exists h, (Solver fromPubKey).2 !! 0%nat = Some h /\
            (Solver fromPubKey).1.2 = TX_SCRIPTHASH /\
            provider_GetCScript provider h = Some (redeem_script sd').
Proof.
  unfold ProduceSignature.
  destruct (complete sd); [intros [= <- <-]; left; reflexivity|].
  destruct (SignStep provider creator fromPubKey sd)
    as [[[[solved result] t] sd1]|] eqn:Hs; [simpl|discriminate].
  pose proof (SignStep_preserved _ _ _ _ _ _ _ _ Hs) as (_ & _ & Hr1 & _).
  destruct (solved && bool_decide (t = TX_SCRIPTHASH)) eqn:Hb.
  - apply andb_true_iff in Hb as [-> Ht]. apply bool_decide_eq_true in Ht as ->.
    pose proof Hs as (h & subscript & Hh & Hg & -> & ->)%SignStep_scripthash.
    simpl.
    destruct (SignStep provider creator subscript
                (set_redeem_script subscript sd))
      as [[[[solved2 result2] t2] sd2]|] eqn:Hi; [simpl|discriminate].
    pose proof (SignStep_preserved _ _ _ _ _ _ _ _ Hi) as (_ & _ & Hr2 & _).
    intros [= <- <-]. simpl. rewrite Hr2. simpl.
    unfold GetCScript in Hg.
    destruct (provider_GetCScript provider h) eqn:Hp.
    + injection Hg as ->. right. exists h.
      split; [assumption|]. split; [|assumption].
      symmetry. eapply SignStep_type. eassumption.
    + case_decide; [|discriminate]. injection Hg as <-. left. reflexivity.
  - simpl. intros [= <- <-]. left. exact Hr1.
Qed.

(** X5: what [ProduceSignature] leaves alone.  It returns, and every entry
    of [misc_pubkeys] is still there afterwards; [redeem_script] is
    unchanged, or [fromPubKey] is a SCRIPTHASH script and the new
    [redeem_script] is the script that the provider holds for its hash. *)
Theorem ProduceSignature_frame provider creator fromPubKey sd :
  Solver_in_range ->
  exists b sd',
    ProduceSignature provider creator fromPubKey sd = Some (b, sd') /\
    (forall k v,
       misc_pubkeys sd !! k = Some v -> misc_pubkeys sd' !! k = Some v) /\
    (redeem_script sd' = redeem_script sd \/
     exists h, (Solver fromPubKey).2 !! 0%nat = Some h /\
               (Solver fromPubKey).1.2 = TX_SCRIPTHASH /\
               provider_GetCScript provider h = Some (redeem_script sd')).
Proof.
  intros Hrange.
  destruct (ProduceSignature_defined provider creator fromPubKey sd Hrange)
    as (b & sd' & Hps).
  exists b, sd'. split; [exact Hps|]. split.
  - eapply ProduceSignature_misc_mono. exact Hps.
  - eapply ProduceSignature_redeem_script. exact Hps.
Qed.

Lemma CreateSig_from_creator creator provider sd0 sc s k r s' :
  from_creator creator provider sd0 sc s ->
  CreateSig creator s provider k sc = (r, s') ->
  from_creator creator provider sd0 sc s'.
Proof.
  intros [Hmono HP] Hcs.
  pose proof (CreateSig_preserved _ _ _ _ _ _ _ Hcs) as (_ & _ & _ & Hmono').
  split; [auto|]. intros k' pk sig Hk'.
  apply CreateSig_effect in Hcs as (_ & _ & _ & _ & Hsig).
  destruct Hsig as [Heq|(pk0 & sig0 & Hn & Hc & _ & Heq)];
    rewrite Heq in Hk'; [eauto|].
  rewrite lookup_insert in Hk'. case_decide; [|eauto].
  simplify_eq. right. split; [|assumption].
  destruct (signatures sd0 !! k') as [v|] eqn:Hsd; [|reflexivity].
  apply Hmono in Hsd. congruence.
Qed.

Lemma ProduceSignature_new_signatures provider creator fromPubKey sd b sd' :
  ProduceSignature provider creator fromPubKey sd = Some (b, sd') ->
  forall k pk sig,
    signatures sd' !! k = Some (pk, sig) ->
    signatures sd !! k = Some (pk, sig) \/
    (signatures sd !! k = None /\
     exists scriptcode,
       (scriptcode = fromPubKey \/ scriptcode = redeem_script sd') /\
       creator_CreateSig creator provider k scriptcode = Some sig).
Proof.
  assert (Hrefl : forall sc, from_creator creator provider sd sc sd).
  { intros sc. split; auto. }
  unfold ProduceSignature.
  destruct (complete sd); [intros [= <- <-]; auto|].
  destruct (SignStep provider creator fromPubKey sd)
    as [[[[solved result] t] sd1]|] eqn:Hs; [simpl|discriminate].
  destruct (solved && bool_decide (t = TX_SCRIPTHASH)) eqn:Hb.
  - apply andb_true_iff in Hb as [-> Ht]. apply bool_decide_eq_true in Ht as ->.
    pose proof Hs as (h & subscript & Hh & Hg & -> & ->)%SignStep_scripthash.
    simpl.
    destruct (SignStep provider creator subscript
                (set_redeem_script subscript sd))
      as [[[[solved2 result2] t2] sd2]|] eqn:Hi; [simpl|discriminate].
    pose proof (SignStep_preserved _ _ _ _ _ _ _ _ Hi) as (_ & _ & Hr2 & _).
    apply (SignStep_invariant (from_creator creator provider sd subscript)) in Hi;
      [|intros; eapply CreateSig_from_creator; eassumption|split; auto].
    intros [= <- <-] k pk sig Hk. simpl in Hk.
    destruct Hi as [_ Hi]. destruct (Hi _ _ _ Hk) as [?|[? ?]]; [auto|].
    right. split; [assumption|]. exists subscript. split; [right|assumption].
    simpl. rewrite Hr2. reflexivity.
  - apply (SignStep_invariant (from_creator creator provider sd fromPubKey)) in Hs;
      [|intros; eapply CreateSig_from_creator; eassumption|split; auto].
    simpl. intros [= <- <-] k pk sig Hk. simpl in Hk.
    destruct Hs as [_ Hs]. destruct (Hs _ _ _ Hk) as [?|[? ?]]; [auto|].
    right. split; [assumption|]. exists fromPubKey. auto.
Qed.

(** X4: where signatures come from.  [ProduceSignature] returns, and every
    signature stored afterwards was stored before, under the same key id, or
    is one that the creator made for the key id it is stored under, over
    [fromPubKey] or over the redeem script. *)
Theorem ProduceSignature_signatures_origin provider creator fromPubKey sd :
  Solver_in_range ->
  exists b sd',
    ProduceSignature provider creator fromPubKey sd = Some (b, sd') /\
    forall k pk sig,
      signatures sd' !! k = Some (pk, sig) ->
      signatures sd !! k = Some (pk, sig) \/
      (signatures sd !! k = None /\
       exists scriptcode,
         (scriptcode = fromPubKey \/ scriptcode = redeem_script sd') /\
         creator_CreateSig creator provider k scriptcode = Some sig).
Proof.
  intros Hrange.
  destruct (ProduceSignature_defined provider creator fromPubKey sd Hrange)
    as (b & sd' & Hps).
  exists b, sd'. split; [exact Hps|].
  eapply ProduceSignature_new_signatures. exact Hps.
Qed.

Lemma CreateSig_dummy sd provider keyid scriptcode :
  all_dummy sd ->
  exists sd',
    CreateSig DUMMY_SIGNATURE_CREATOR sd provider keyid scriptcode =
      (Some dummy_signature, sd') /\
    all_dummy sd'.
Proof.
  intros Hall.
  destruct (CreateSig DUMMY_SIGNATURE_CREATOR sd provider keyid scriptcode)
    as [r sd'] eqn:Hc.
  exists sd'. pose proof Hc as Heff%CreateSig_effect.
  pose proof Hc as Hidem%CreateSig_idem%settled_iff.
  destruct Heff as (_ & _ & _ & _ & Hsig). split.
  - destruct Hidem as [([pk sig] & Hk & ->)|(_ & _ & Hnone & _)];
      [|discriminate Hnone].
    simpl. f_equal. f_equal.
    destruct Hsig as [Heq|(pk0 & sig0 & Hn & Hcr & _ & Heq)]; rewrite Heq in Hk.
    + eapply Hall; eassumption.
    + rewrite lookup_insert_eq in Hk. injection Hk as <- <-.
      injection Hcr as <-. reflexivity.
  - intros k pk sig Hk.
    destruct Hsig as [Heq|(pk0 & sig0 & Hn & Hcr & _ & Heq)]; rewrite Heq in Hk.
    + eapply Hall; eassumption.
    + rewrite lookup_insert in Hk. case_decide; [|eapply Hall; eassumption].
      injection Hk as <- <-. injection Hcr as <-. reflexivity.
Qed.

Lemma multisig_loop_dummy provider scriptPubKey required pks :
  forall j sd,
  all_dummy sd ->
  j <= N.to_nat required ->
  exists sd',
    multisig_loop provider DUMMY_SIGNATURE_CREATOR scriptPubKey required pks
      ([] :: replicate j dummy_signature, sd) =
      ([] :: replicate (Nat.min (j + length pks) (N.to_nat required))
               dummy_signature,
       sd') /\
    all_dummy sd'.
Proof.
  induction pks as [|vch pks IH]; intros j sd Hall Hj.
  - exists sd. split; [|assumption]. simpl.
    replace (Nat.min (j + 0) (N.to_nat required)) with j by lia. reflexivity.
  - rewrite multisig_loop_cons. unfold multisig_step.
    replace (j + length (vch :: pks)) with (S j + length pks) by (simpl; lia).
    cbn [length]. rewrite length_replicate.
    destruct (N.of_nat (S j) <? required + 1)%N eqn:Hlt.
    + apply N.ltb_lt in Hlt.
      destruct (CreateSig_dummy sd provider (GetID (CPubKey_of_bytes vch))
                  scriptPubKey Hall) as (sd1 & -> & Hall1).
      destruct (IH (S j) sd1 Hall1) as (sd' & Hloop & Hall'); [lia|].
      exists sd'. split; [|assumption].
      replace (([] :: replicate j dummy_signature) ++ [dummy_signature])
        with ([] :: replicate (S j) dummy_signature).
      * rewrite Hloop. reflexivity.
      * simpl. f_equal. apply replicate_cons_app.
    + apply N.ltb_ge in Hlt.
      destruct (IH j sd Hall Hj) as (sd' & Hloop & Hall').
      rewrite multisig_loop_saturated in Hloop
        by (cbn [length]; rewrite length_replicate; apply N.ltb_ge; lia).
      rewrite multisig_loop_saturated
        by (cbn [length]; rewrite length_replicate; apply N.ltb_ge; lia).
      injection Hloop as Hret <-. exists sd. split; [|assumption].
      do 2 f_equal. f_equal. lia.
Qed.

(** X6: size estimation with the dummy creator.  For a MULTISIG script with
    threshold [m] and at least [m] public keys, and signature data that hold
    no signature yet, [SignStep] with the dummy creator is solved and returns
    the empty item followed by exactly [m] copies of the 72-byte dummy
    signature, whatever the provider holds. *)
Theorem SignStep_dummy_multisig provider scriptPubKey sd m front rest :
  Solver scriptPubKey = (true, TX_MULTISIG, (m :: front) :: rest) ->
  signatures sd = ∅ ->
  N.to_nat m <= length (multisig_pubkeys ((m :: front) :: rest)) ->
  exists sd',
    SignStep provider DUMMY_SIGNATURE_CREATOR scriptPubKey sd =
      Some (true, [] :: replicate (N.to_nat m) dummy_signature,
            TX_MULTISIG, sd') /\
    length dummy_signature = 72.
Proof.
  intros HS Hempty Hn. unfold SignStep. rewrite HS. simpl.
  destruct (multisig_loop_dummy provider scriptPubKey m
              (multisig_pubkeys ((m :: front) :: rest)) 0 sd)
    as (sd' & Hloop & _).
  { intros k pk sig. rewrite Hempty, lookup_empty. discriminate. }
  { lia. }
  simpl in Hloop. rewrite Hloop.
  rewrite Nat.min_r by lia.
  exists sd'. split; [|reflexivity].
  destruct (pad_loop_spec (N.to_nat (m + 1)) m 0%N
              ([] :: replicate (N.to_nat m) dummy_signature))
    as (k & -> & Hlo & Hhi).
  { cbn [length]. rewrite length_replicate. lia. }
  cbn [length] in Hhi. rewrite length_replicate in Hhi.
  replace k with 0 by lia. rewrite app_nil_r.
  assert (Hok : (N.of_nat (length ([] :: replicate (N.to_nat m) dummy_signature))
                 =? m + 1)%N = true).
  { apply N.eqb_eq. cbn [length]. rewrite length_replicate. lia. }
  rewrite Hok. reflexivity.
Qed.

Lemma stored_sigs_cons sd vch pks :
  stored_sigs sd (vch :: pks) =
    match signatures sd !! GetID (CPubKey_of_bytes vch) with
    | Some p => snd p :: stored_sigs sd pks
    | None => stored_sigs sd pks
    end.
Proof.
  unfold stored_sigs. simpl.
  destruct (signatures sd !! GetID (CPubKey_of_bytes vch)); reflexivity.
Qed.

Lemma multisig_loop_presigned provider creator scriptPubKey required pks :
  forall ret sd,
  (forall vch, vch ∈ pks ->
     is_Some (signatures sd !! GetID (CPubKey_of_bytes vch))) ->
  length ret <= S (N.to_nat required) ->
  multisig_loop provider creator scriptPubKey required pks (ret, sd) =
    (ret ++ take (S (N.to_nat required) - length ret) (stored_sigs sd pks), sd).
Proof.
  induction pks as [|vch pks IH]; intros ret sd Hall Hlen.
  - simpl. rewrite take_nil, app_nil_r. reflexivity.
  - rewrite multisig_loop_cons. unfold multisig_step.
    destruct (Hall vch) as [[pk sig] Hk]; [left|].
    rewrite stored_sigs_cons, Hk. cbn [snd].
    assert (Hall' : forall v, v ∈ pks ->
              is_Some (signatures sd !! GetID (CPubKey_of_bytes v))).
    { intros v Hv. apply Hall. right. exact Hv. }
    destruct (N.of_nat (length ret) <? required + 1)%N eqn:Hlt.
    + apply N.ltb_lt in Hlt. unfold CreateSig. rewrite Hk. simpl.
      rewrite IH by (try assumption; rewrite length_app; simpl; lia).
      rewrite length_app. simpl. rewrite <- app_assoc. simpl.
      destruct (S (N.to_nat required) - length ret) as [|d] eqn:Hd; [lia|].
      simpl.
      replace (S (N.to_nat required) - (length ret + 1)) with d by lia.
      reflexivity.
    + apply N.ltb_ge in Hlt. rewrite IH by assumption.
      replace (S (N.to_nat required) - length ret) with 0 by lia.
      reflexivity.
Qed.

(** X7: combining from stored signatures.  For a MULTISIG script with
    threshold [m], when the signature data already hold a signature for every
    public key of the script, [SignStep] is solved without any call to the
    creator or the provider: it returns the empty item followed by the
    stored signatures of the first [m] keys, in the order of the keys in the
    script, and leaves the signature data as they are. *)
Theorem SignStep_presigned provider creator scriptPubKey sd m front rest :
  Solver scriptPubKey = (true, TX_MULTISIG, (m :: front) :: rest) ->
  (forall vch, vch ∈ multisig_pubkeys ((m :: front) :: rest) ->
     is_Some (signatures sd !! GetID (CPubKey_of_bytes vch))) ->
  N.to_nat m <= length (multisig_pubkeys ((m :: front) :: rest)) ->
  SignStep provider creator scriptPubKey sd =
    Some (true,
          [] :: take (N.to_nat m)
                  (stored_sigs sd (multisig_pubkeys ((m :: front) :: rest))),
          TX_MULTISIG, sd).
Proof.
  intros HS Hall Hn. unfold SignStep. rewrite HS. simpl.
  rewrite multisig_loop_presigned by (try assumption; simpl; lia).
  cbn [length app].
  replace (S (N.to_nat m) - 1) with (N.to_nat m) by lia.
  assert (Hlen : length (stored_sigs sd (multisig_pubkeys ((m :: front) :: rest)))
                 = length (multisig_pubkeys ((m :: front) :: rest))).
  { revert Hall. generalize (multisig_pubkeys ((m :: front) :: rest)).
    intros pks Hall. induction pks as [|vch pks IH]; [reflexivity|].
    rewrite stored_sigs_cons.
    destruct (Hall vch) as [p Hk]; [left|]. rewrite Hk. simpl.
    f_equal. apply IH. intros v Hv. apply Hall. right. exact Hv. }
  set (sigs := take (N.to_nat m) _).
  assert (Hsigs : length sigs = N.to_nat m).
  { unfold sigs. rewrite length_take. lia. }
  destruct (pad_loop_spec (N.to_nat (m + 1)) m 0%N ([] :: sigs))
    as (k & -> & Hlo & Hhi).
  { cbn [length]. lia. }
  cbn [length] in Hhi. replace k with 0 by lia. rewrite app_nil_r.
  assert (Hok : (N.of_nat (S (length sigs)) =? m + 1)%N = true).
  { apply N.eqb_eq. lia. }
  rewrite Hok. reflexivity.
Qed.

(** X8: the failure path of a single-key script.  For a PUBKEY or
    PUBKEYHASH script whose key id has no stored signature and for which the
    creator makes none, [ProduceSignature] returns false, leaves [complete]
    false and the scriptSig empty, keeps the signatures and the redeem
    script, and the only trace of the attempt is the public key that the
    provider returned, noted in [misc_pubkeys]. *)
Theorem ProduceSignature_missing_key provider creator scriptPubKey sd t v0 rest
    keyid :
  complete sd = false ->
  Solver scriptPubKey = (true, t, v0 :: rest) ->
  (t = TX_PUBKEY /\ keyid = GetID (CPubKey_of_bytes v0) \/
   t = TX_PUBKEYHASH /\ keyid = v0) ->
  signatures sd !! keyid = None ->
  creator_CreateSig creator provider keyid scriptPubKey = None ->
  exists sd',
    ProduceSignature provider creator scriptPubKey sd = Some (false, sd') /\
    complete sd' = false /\ scriptSig sd' = [] /\
    signatures sd' = signatures sd /\
    redeem_script sd' = redeem_script sd /\
    misc_pubkeys sd' =
      match provider_GetPubKey provider keyid with
      | Some pk => emplace (GetID pk) pk (misc_pubkeys sd)
      | None => misc_pubkeys sd
      end.
Proof.
  intros Hc HS Ht Hk Hcr.
  assert (Hcs : exists sd1,
    CreateSig creator sd provider keyid scriptPubKey = (None, sd1) /\
    complete sd1 = complete sd /\ scriptSig sd1 = scriptSig sd /\
    signatures sd1 = signatures sd /\ redeem_script sd1 = redeem_script sd /\
    misc_pubkeys sd1 =
      match provider_GetPubKey provider keyid with
      | Some pk => emplace (GetID pk) pk (misc_pubkeys sd)
      | None => misc_pubkeys sd
      end).
  { unfold CreateSig, GetPubKey. rewrite Hk, Hcr.
    destruct (provider_GetPubKey provider keyid);
      [|destruct (misc_pubkeys sd !! keyid)]; eexists; repeat split. }
  destruct Hcs as (sd1 & Hcs & H1 & H2 & H3 & H4 & H5).
  assert (Hs : SignStep provider creator scriptPubKey sd =
               Some (false, [], t, sd1)).
  { unfold SignStep. rewrite HS. simpl.
    destruct Ht as [[-> ->]|[-> ->]]; simpl; rewrite Hcs; reflexivity. }
  exists (with_flags false [] sd1).
  split; [|repeat split; assumption].
  erewrite ProduceSignature_direct; [|eassumption..|reflexivity].
  reflexivity.
Qed.

Lemma CreateSig_cases creator sd provider keyid scriptcode r sd' :
  CreateSig creator sd provider keyid scriptcode = (r, sd') ->
  (is_Some r <->
   is_Some (signatures sd !! keyid) \/
   is_Some (creator_CreateSig creator provider keyid scriptcode)) /\
  (forall sig, r = Some sig ->
     exists pk,
       signatures sd' !! keyid = Some (pk, sig) /\
       (forall p, signatures sd !! keyid = Some p -> p = (pk, sig))) /\
  (r = None -> signatures sd' = signatures sd).
Proof.
  unfold CreateSig, GetPubKey.
  destruct (signatures sd !! keyid) as [[pk0 sig0]|] eqn:Hk.
  { intros [= <- <-]. split; [split; eauto|]. split; [|discriminate].
    intros sig [= <-]. exists pk0. split; [exact Hk|].
    intros p [= <-]. reflexivity. }
  destruct (provider_GetPubKey provider keyid) as [pk|];
    [|destruct (misc_pubkeys sd !! keyid) as [pk|]];
    (destruct (creator_CreateSig creator provider keyid scriptcode) as [sig|];
     intros [= <- <-]; simpl;
     (split; [split; [eauto|intros [[? [=]]|[? [=]]]; eauto]|]);
     (split; [|try discriminate; reflexivity]);
     intros sig' [= <-]; eexists; unfold emplace; rewrite Hk;
     (split; [apply lookup_insert_eq|discriminate])).
Qed.

(** X24: single-key scripts.  For a PUBKEY or PUBKEYHASH script, [SignStep]
    is solved exactly when the signature data already hold a signature for
    the key id or the creator makes one.  When solved, the signature it
    returns is the one stored under the key id afterwards (a signature that
    was stored before is used as it is), alone for PUBKEY and followed, for
    PUBKEYHASH, by the public key that the provider holds for the key id
    (by the empty serialization when it holds none).  When not solved,
    nothing is returned and the signatures are as before. *)
Theorem SignStep_single_key provider creator scriptPubKey sd t v0 rest keyid :
  Solver scriptPubKey = (true, t, v0 :: rest) ->
  (t = TX_PUBKEY /\ keyid = GetID (CPubKey_of_bytes v0) \/
   t = TX_PUBKEYHASH /\ keyid = v0) ->
  exists ok ret sd',
    SignStep provider creator scriptPubKey sd = Some (ok, ret, t, sd') /\
    (ok = true <->
     is_Some (signatures sd !! keyid) \/
     is_Some (creator_CreateSig creator provider keyid scriptPubKey)) /\
    (ok = true ->
     exists pk sig,
       signatures sd' !! keyid = Some (pk, sig) /\
       (forall p, signatures sd !! keyid = Some p -> p = (pk, sig)) /\
       ret =
         match t with
         | TX_PUBKEYHASH =>
             [sig;
              ToByteVector
                match provider_GetPubKey provider keyid with
                | Some pubkey => pubkey
                | None => CPubKey_default
                end]
         | _ => [sig]
         end) /\
    (ok = false -> ret = [] /\ signatures sd' = signatures sd).
Proof.
  intros HS Ht. unfold SignStep. rewrite HS. simpl.
  destruct (CreateSig creator sd provider keyid scriptPubKey) as [r sd'] eqn:Hc.
  destruct (CreateSig_cases _ _ _ _ _ _ _ Hc) as (Hiff & Hsome & Hnone).
  destruct Ht as [[-> ->]|[-> ->]]; simpl; rewrite Hc; destruct r as [sig|];
    eexists _, _, _; (split; [reflexivity|]).
  - split; [split; [intros _; apply Hiff; eauto|reflexivity]|].
    split; [|discriminate]. intros _.
    destruct (Hsome sig eq_refl) as (pk & Hk & Hold). eauto.
  - split; [split; [discriminate|]|].
    + intros Hor. apply Hiff in Hor as [? [=]].
    + split; [discriminate|]. intros _. split; [reflexivity|auto].
  - split; [split; [intros _; apply Hiff; eauto|reflexivity]|].
    split; [|discriminate]. intros _.
    destruct (Hsome sig eq_refl) as (pk & Hk & Hold). eauto.
  - split; [split; [discriminate|]|].
    + intros Hor. apply Hiff in Hor as [? [=]].
    + split; [discriminate|]. intros _. split; [reflexivity|auto].
Qed.

End DriverProperties.

(** X9: merging signature data is associative and idempotent, so the
    result of combining the records of several signers does not depend on
    how the merges are grouped, and merging a record into itself changes
    nothing. *)
Theorem MergeSignatureData_assoc_idem (a b c : SignatureData) :
  MergeSignatureData (MergeSignatureData a b) c =
    MergeSignatureData a (MergeSignatureData b c) /\
  MergeSignatureData a a = a.
Proof.
  split.
  - unfold MergeSignatureData, insert_range.
    destruct a as [ca sa ra ga ma], b as [cb sb rb gb mb],
             c as [cc sc rc gc mc]; simpl.
    destruct ca, cb, cc; simpl; try reflexivity;
      repeat (case_bool_decide; simpl); simplify_eq/=;
      try reflexivity; try congruence;
      rewrite ?(assoc_L (∪)); reflexivity.
  - unfold MergeSignatureData, insert_range. destruct a as [ca sa ra ga ma]; simpl.
    destruct ca; [reflexivity|]. simpl.
    repeat (case_bool_decide; simpl); simplify_eq/=;
      unfold set_signatures; simpl; rewrite (idemp_L (∪)); reflexivity.
Qed.

(** * PSBT records *)

Lemma PSBTInput_eq {CTxOut : Type} (a b : PSBTInput.t CTxOut) :
  PSBTInput.utxo a = PSBTInput.utxo b ->
  PSBTInput.partial_sigs a = PSBTInput.partial_sigs b ->
  PSBTInput.hd_keypaths a = PSBTInput.hd_keypaths b ->
  PSBTInput.redeem_script a = PSBTInput.redeem_script b ->
  PSBTInput.final_script_sig a = PSBTInput.final_script_sig b ->
  PSBTInput.unknown a = PSBTInput.unknown b ->
  a = b.
Proof. destruct a, b; simpl; intros; subst; reflexivity. Qed.

(** "Take the other side's when mine is empty" is associative and
    idempotent. *)
Lemma adopt_assoc (x y z : list N) :
  (if bool_decide
        ((if bool_decide (x = []) && negb (bool_decide (y = []))
          then y else x) = []) &&
      negb (bool_decide (z = []))
   then z
   else if bool_decide (x = []) && negb (bool_decide (y = [])) then y else x) =
  (if bool_decide (x = []) &&
      negb (bool_decide
              ((if bool_decide (y = []) && negb (bool_decide (z = []))
                then z else y) = []))
   then if bool_decide (y = []) && negb (bool_decide (z = [])) then z else y
   else x).
Proof.
  destruct x as [|x0 x], y as [|y0 y], z as [|z0 z]; reflexivity.
Qed.

Lemma adopt_idem (x : list N) :
  (if bool_decide (x = []) && negb (bool_decide (x = [])) then x else x) = x.
Proof. destruct (bool_decide (x = []) && negb (bool_decide (x = []))); reflexivity. Qed.

Lemma PSBTInput_Merge_idem {CTxOut : Type} (IsNull : CTxOut -> bool)
    (a : PSBTInput.t CTxOut) :
  PSBTInput.Merge IsNull a a = a.
Proof.
  apply PSBTInput_eq; simpl; unfold insert_range;
    rewrite ?(idemp_L (∪)); try reflexivity; try apply adopt_idem.
  destruct (IsNull (PSBTInput.utxo a)); reflexivity.
Qed.

(** X10: [PSBTInput::Merge] is associative and idempotent: combining the
    records that several parties hold for one input gives the same record
    however the merges are grouped, and merging a record into itself changes
    nothing. *)
Theorem PSBTInput_Merge_assoc_idem {CTxOut : Type} (IsNull : CTxOut -> bool)
    (a b c : PSBTInput.t CTxOut) :
  PSBTInput.Merge IsNull (PSBTInput.Merge IsNull a b) c =
    PSBTInput.Merge IsNull a (PSBTInput.Merge IsNull b c) /\
  PSBTInput.Merge IsNull a a = a.
Proof.
  split.
  - apply PSBTInput_eq; simpl; unfold insert_range;
      rewrite ?(assoc_L (∪)); try reflexivity; try apply adopt_assoc.
    destruct (IsNull (PSBTInput.utxo a)) eqn:Ha,
             (IsNull (PSBTInput.utxo b)) eqn:Hb,
             (IsNull (PSBTInput.utxo c)) eqn:Hc; simpl;
      rewrite ?Ha, ?Hb, ?Hc; reflexivity.
  - apply PSBTInput_Merge_idem.
Qed.

Lemma PSBTOutput_eq (a b : PSBTOutput.t) :
  PSBTOutput.redeem_script a = PSBTOutput.redeem_script b ->
  PSBTOutput.hd_keypaths a = PSBTOutput.hd_keypaths b ->
  PSBTOutput.unknown a = PSBTOutput.unknown b ->
  a = b.
Proof. destruct a, b; simpl; intros; subst; reflexivity. Qed.

Lemma PSBTOutput_Merge_idem (a : PSBTOutput.t) : PSBTOutput.Merge a a = a.
Proof.
  apply PSBTOutput_eq; simpl; unfold insert_range;
    rewrite ?(idemp_L (∪)); try reflexivity; apply adopt_idem.
Qed.

(** X11: [PSBTOutput::Merge] is associative and idempotent, and an entry of
    [hd_keypaths] or [unknown] that the receiver holds is never replaced by
    the other side's. *)
Theorem PSBTOutput_Merge_assoc_idem (a b c : PSBTOutput.t) :
  PSBTOutput.Merge (PSBTOutput.Merge a b) c =
    PSBTOutput.Merge a (PSBTOutput.Merge b c) /\
  PSBTOutput.Merge a a = a /\
  map_Forall
    (fun k v => PSBTOutput.hd_keypaths (PSBTOutput.Merge a b) !! k = Some v)
    (PSBTOutput.hd_keypaths a) /\
  map_Forall
    (fun k v => PSBTOutput.unknown (PSBTOutput.Merge a b) !! k = Some v)
    (PSBTOutput.unknown a).
Proof.
  split; [|split; [|split]].
  - apply PSBTOutput_eq; simpl; unfold insert_range;
      rewrite ?(assoc_L (∪)); try reflexivity; apply adopt_assoc.
  - apply PSBTOutput_Merge_idem.
  - intros k v Hk. simpl. rewrite lookup_insert_range, Hk. reflexivity.
  - intros k v Hk. simpl. rewrite lookup_insert_range, Hk. reflexivity.
Qed.

Lemma merge_each_length {A : Type} (Merge : A -> A -> A) theirs mine :
  forall i r,
    merge_each Merge theirs i mine = Some r -> length r = length mine.
Proof.
  induction mine as [|x rest IH]; intros i r; simpl.
  - intros [= <-]. reflexivity.
  - destruct (theirs !! i); [|discriminate].
    destruct (merge_each Merge theirs (S i) rest) eqn:Hr; [|discriminate].
    intros [= <-]. simpl. f_equal. eapply IH. exact Hr.
Qed.

Lemma merge_each_None {A : Type} (Merge : A -> A -> A) theirs mine :
  forall i,
    i <= length theirs ->
    (merge_each Merge theirs i mine = None <->
     length theirs < i + length mine).
Proof.
  induction mine as [|x rest IH]; intros i Hi; cbn [merge_each length].
  - split; [discriminate|]. lia.
  - destruct (theirs !! i) as [y|] eqn:Hy.
    + apply lookup_lt_Some in Hy.
      destruct (merge_each Merge theirs (S i) rest) eqn:Hr.
      * split; [discriminate|]. intros Hlt.
        assert (Hn : merge_each Merge theirs (S i) rest = None)
          by (apply IH; lia).
        congruence.
      * apply IH in Hr; [|lia]. split; [lia|reflexivity].
    + apply lookup_ge_None in Hy. split; [lia|reflexivity].
Qed.

Lemma merge_each_lookup {A : Type} (Merge : A -> A -> A) theirs mine :
  forall i r j x,
    merge_each Merge theirs i mine = Some r ->
    mine !! j = Some x ->
    exists y, theirs !! (i + j) = Some y /\ r !! j = Some (Merge x y).
Proof.
  induction mine as [|x0 rest IH]; intros i r j x; simpl; [discriminate|].
  destruct (theirs !! i) as [y|] eqn:Hy; [|discriminate].
  destruct (merge_each Merge theirs (S i) rest) eqn:Hr; [|discriminate].
  intros [= <-]. destruct j as [|j]; simpl.
  - intros [= <-]. exists y. rewrite Nat.add_0_r. auto.
  - intros Hj. destruct (IH _ _ _ _ Hr Hj) as (y' & Hy' & Hl).
    exists y'. split; [|exact Hl].
    replace (i + S j) with (S i + j) by lia. exact Hy'.
Qed.

Lemma merge_each_idem {A : Type} (Merge : A -> A -> A) (before mine : list A) :
  (forall x, Merge x x = x) ->
  merge_each Merge (before ++ mine) (length before) mine = Some mine.
Proof.
  intros Hidem. revert before. induction mine as [|x rest IH]; intros before.
  - reflexivity.
  - simpl. rewrite list_lookup_middle by reflexivity.
    specialize (IH (before ++ [x])).
    rewrite length_app, <- app_assoc in IH. simpl in IH.
    rewrite Nat.add_1_r in IH. rewrite IH, Hidem. reflexivity.
Qed.

Section PSBTProperties.
Context `{ext : Collaborators} `{tx_ext : TxCollaborators}.

(** X12: [PartiallySignedTransaction::Merge] reads [psbt.inputs[i]] and
    [psbt.outputs[i]] for every index of the receiver, so it has a defined
    result exactly when [psbt] has at least as many inputs and outputs as
    the receiver.  Then the receiver keeps its transaction, its [unknown]
    map and its numbers of inputs and outputs, its i-th input and output
    are merged with the i-th of [psbt], and nothing else of [psbt] is taken
    over; in particular a receiver without inputs and outputs is left as it
    is.  Merging a transaction into itself changes nothing. *)
Theorem PartiallySignedTransaction_Merge_spec
    (self psbt : PartiallySignedTransaction.t) :
  (PartiallySignedTransaction.Merge self psbt = None <->
   length (PartiallySignedTransaction.inputs psbt) <
     length (PartiallySignedTransaction.inputs self) \/
   length (PartiallySignedTransaction.outputs psbt) <
     length (PartiallySignedTransaction.outputs self)) /\
  (forall r,
     PartiallySignedTransaction.Merge self psbt = Some r ->
     PartiallySignedTransaction.tx r = PartiallySignedTransaction.tx self /\
     PartiallySignedTransaction.unknown r =
       PartiallySignedTransaction.unknown self /\
     length (PartiallySignedTransaction.inputs r) =
       length (PartiallySignedTransaction.inputs self) /\
     length (PartiallySignedTransaction.outputs r) =
       length (PartiallySignedTransaction.outputs self) /\
     (forall i a,
        PartiallySignedTransaction.inputs self !! i = Some a ->
        exists b,
          PartiallySignedTransaction.inputs psbt !! i = Some b /\
          PartiallySignedTransaction.inputs r !! i =
            Some (PSBTInput.Merge CTxOut_IsNull a b)) /\
     (forall i a,
        PartiallySignedTransaction.outputs self !! i = Some a ->
        exists b,
          PartiallySignedTransaction.outputs psbt !! i = Some b /\
          PartiallySignedTransaction.outputs r !! i =
            Some (PSBTOutput.Merge a b))) /\
  (PartiallySignedTransaction.inputs self = [] ->
   PartiallySignedTransaction.outputs self = [] ->
   PartiallySignedTransaction.Merge self psbt = Some self) /\
  PartiallySignedTransaction.Merge self self = Some self.
Proof.
  unfold PartiallySignedTransaction.Merge.
  split; [|split; [|split]].
  - destruct (merge_each (PSBTInput.Merge CTxOut_IsNull)
                (PartiallySignedTransaction.inputs psbt) 0
                (PartiallySignedTransaction.inputs self)) as [ins|] eqn:Hi.
    + assert (Hni : ~ length (PartiallySignedTransaction.inputs psbt) <
                      0 + length (PartiallySignedTransaction.inputs self)).
      { intros Hlt.
        apply (merge_each_None (PSBTInput.Merge CTxOut_IsNull)) in Hlt;
          [congruence|lia]. }
      destruct (merge_each PSBTOutput.Merge
                  (PartiallySignedTransaction.outputs psbt) 0
                  (PartiallySignedTransaction.outputs self)) as [outs|] eqn:Ho.
      * assert (Hno : ~ length (PartiallySignedTransaction.outputs psbt) <
                        0 + length (PartiallySignedTransaction.outputs self)).
        { intros Hlt. apply (merge_each_None PSBTOutput.Merge) in Hlt;
            [congruence|lia]. }
        split; [discriminate|]. lia.
      * apply merge_each_None in Ho; [|lia]. split; [lia|reflexivity].
    + apply merge_each_None in Hi; [|lia]. split; [lia|reflexivity].
  - intros r.
    destruct (merge_each (PSBTInput.Merge CTxOut_IsNull)
                (PartiallySignedTransaction.inputs psbt) 0
                (PartiallySignedTransaction.inputs self)) as [ins|] eqn:Hi;
      [|discriminate].
    destruct (merge_each PSBTOutput.Merge
                (PartiallySignedTransaction.outputs psbt) 0
                (PartiallySignedTransaction.outputs self)) as [outs|] eqn:Ho;
      [|discriminate].
    intros [= <-]. simpl.
    split; [reflexivity|]. split; [reflexivity|].
    split; [eapply merge_each_length; exact Hi|].
    split; [eapply merge_each_length; exact Ho|].
    split; intros i a Ha.
    + destruct (merge_each_lookup _ _ _ _ _ _ _ Hi Ha) as (b & Hb & Hr).
      exists b. auto.
    + destruct (merge_each_lookup _ _ _ _ _ _ _ Ho Ha) as (b & Hb & Hr).
      exists b. auto.
  - intros Hi Ho. rewrite Hi, Ho. simpl.
    destruct self as [t ins outs u]. simpl in *. subst. reflexivity.
  - rewrite (merge_each_idem _ [] (PartiallySignedTransaction.inputs self))
      by apply PSBTInput_Merge_idem.
    rewrite (merge_each_idem _ [] (PartiallySignedTransaction.outputs self))
      by apply PSBTOutput_Merge_idem.
    destruct self; reflexivity.
Qed.

Lemma note_hd_keypaths_frame m sd :
  complete (note_hd_keypaths m sd) = complete sd /\
  scriptSig (note_hd_keypaths m sd) = scriptSig sd /\
  redeem_script (note_hd_keypaths m sd) = redeem_script sd /\
  signatures (note_hd_keypaths m sd) = signatures sd.
Proof.
  unfold note_hd_keypaths. generalize (hd_keypaths_order m). intros l.
  revert sd. induction l as [|pk l IH]; intros sd; [auto|].
  simpl. destruct (IH (set_misc_pubkeys
                         (emplace (GetID pk) pk (misc_pubkeys sd)) sd))
    as (-> & -> & -> & ->). auto.
Qed.

(** What the loop over [hd_keypaths] leaves in [misc_pubkeys]. *)
Lemma note_hd_keypaths_misc m sd :
  (forall k pk, misc_pubkeys sd !! k = Some pk ->
     misc_pubkeys (note_hd_keypaths m sd) !! k = Some pk) /\
  (forall pk, pk ∈ hd_keypaths_order m ->
     is_Some (misc_pubkeys (note_hd_keypaths m sd) !! GetID pk)) /\
  (forall k pk, misc_pubkeys (note_hd_keypaths m sd) !! k = Some pk ->
     misc_pubkeys sd !! k = Some pk \/
     (pk ∈ hd_keypaths_order m /\ GetID pk = k)).
Proof.
  unfold note_hd_keypaths. generalize (hd_keypaths_order m). intros l.
  revert sd. induction l as [|pk0 l IH]; intros sd.
  - simpl. split; [auto|]. split; [|auto].
    intros pk Hpk. inversion Hpk.
  - simpl.
    destruct (IH (set_misc_pubkeys
                    (emplace (GetID pk0) pk0 (misc_pubkeys sd)) sd))
      as (Hmono & Hin & Hfrom). simpl in *.
    split; [|split].
    + intros k pk Hk. apply Hmono. rewrite emplace_lookup, Hk. reflexivity.
    + intros pk Hpk. apply elem_of_cons in Hpk as [->|Hpk]; [|auto].
      destruct (emplace (GetID pk0) pk0 (misc_pubkeys sd) !! GetID pk0)
        as [v|] eqn:He.
      * apply Hmono in He. eauto.
      * rewrite emplace_lookup in He.
        destruct (misc_pubkeys sd !! GetID pk0); [discriminate|].
        rewrite decide_True in He by reflexivity. discriminate.
    + intros k pk Hk. apply Hfrom in Hk as [Hk|[Hk Hid]].
      * rewrite emplace_lookup in Hk.
        destruct (misc_pubkeys sd !! k) eqn:Hs; [left; exact Hk|].
        case_decide; [|discriminate]. injection Hk as <-.
        right. split; [left|assumption].
      * right. split; [right; assumption|assumption].
Qed.

(** X13: filling signature data from a PSBT input and writing them back.
    For an input without a final scriptSig, [FromSignatureData] after
    [FillSignatureData] into fresh signature data gives the input back
    unchanged; for a finalized input the round trip, whatever the signature
    data were, keeps the final scriptSig and clears the partial signatures,
    the key paths and the redeem script. *)
Theorem PSBTInput_Fill_From_roundtrip (input : PSBTInput.t CTxOut.t) :
  (PSBTInput.final_script_sig input = [] ->
   PSBTInput_FromSignatureData input
     (PSBTInput_FillSignatureData input SignatureData_default) = input) /\
  (PSBTInput.final_script_sig input <> [] ->
   forall sd,
     PSBTInput_FromSignatureData input (PSBTInput_FillSignatureData input sd) =
     {| PSBTInput.utxo := PSBTInput.utxo input;
        PSBTInput.partial_sigs := ∅;
        PSBTInput.hd_keypaths := ∅;
        PSBTInput.redeem_script := [];
        PSBTInput.final_script_sig := PSBTInput.final_script_sig input;
        PSBTInput.unknown := PSBTInput.unknown input |}).
Proof.
  split.
  - intros Hfin. unfold PSBTInput_FillSignatureData. rewrite Hfin.
    rewrite bool_decide_eq_true_2 by reflexivity. simpl.
    unfold PSBTInput_FromSignatureData.
    match goal with |- context [note_hd_keypaths ?m ?s] =>
      destruct (note_hd_keypaths_frame m s) as (Hc & _ & Hr & Hs) end.
    rewrite Hc, Hr, Hs.
    assert (Hu : insert_range (PSBTInput.partial_sigs input)
                   (insert_range ∅ (PSBTInput.partial_sigs input)) =
                 PSBTInput.partial_sigs input).
    { unfold insert_range. rewrite (left_id_L ∅ (∪)).
      apply (idemp_L (∪)). }
    case_bool_decide as Hrs; simpl.
    + apply PSBTInput_eq; simpl; try reflexivity; try exact Hu.
    + apply PSBTInput_eq; simpl; try reflexivity; try exact Hu.
  - intros Hfin sd. unfold PSBTInput_FillSignatureData.
    rewrite (bool_decide_eq_false_2 _ Hfin). simpl.
    unfold PSBTInput_FromSignatureData. simpl.
    rewrite (bool_decide_eq_false_2 _ Hfin). reflexivity.
Qed.

(** X14: the same round trip for a PSBT output: [FromSignatureData] after
    [FillSignatureData] gives the output back when the output has a redeem
    script or the signature data have none, and otherwise only adds the
    redeem script of the signature data. *)
Theorem PSBTOutput_Fill_From_roundtrip (output : PSBTOutput.t)
    (sd : SignatureData) :
  PSBTOutput_FromSignatureData output (PSBTOutput_FillSignatureData output sd) =
    {| PSBTOutput.redeem_script :=
         if bool_decide (PSBTOutput.redeem_script output = [])
         then redeem_script sd else PSBTOutput.redeem_script output;
       PSBTOutput.hd_keypaths := PSBTOutput.hd_keypaths output;
       PSBTOutput.unknown := PSBTOutput.unknown output |} /\
  (PSBTOutput.redeem_script output <> [] \/ redeem_script sd = [] ->
   PSBTOutput_FromSignatureData output
     (PSBTOutput_FillSignatureData output sd) = output).
Proof.
  assert (Hr : redeem_script (PSBTOutput_FillSignatureData output sd) =
               if bool_decide (PSBTOutput.redeem_script output = [])
               then redeem_script sd else PSBTOutput.redeem_script output).
  { unfold PSBTOutput_FillSignatureData.
    match goal with |- context [note_hd_keypaths ?m ?s] =>
      destruct (note_hd_keypaths_frame m s) as (_ & _ & -> & _) end.
    case_bool_decide; reflexivity. }
  assert (Hmain :
    PSBTOutput_FromSignatureData output (PSBTOutput_FillSignatureData output sd) =
    {| PSBTOutput.redeem_script :=
         if bool_decide (PSBTOutput.redeem_script output = [])
         then redeem_script sd else PSBTOutput.redeem_script output;
       PSBTOutput.hd_keypaths := PSBTOutput.hd_keypaths output;
       PSBTOutput.unknown := PSBTOutput.unknown output |}).
  { unfold PSBTOutput_FromSignatureData. rewrite Hr.
    apply PSBTOutput_eq; simpl; try reflexivity.
    case_bool_decide as Ho; simpl; [|reflexivity].
    case_bool_decide as Hs; simpl; [|reflexivity]. congruence. }
  split; [exact Hmain|].
  intros Hor. rewrite Hmain. apply PSBTOutput_eq; simpl; try reflexivity.
  case_bool_decide as Ho; [|reflexivity].
  destruct Hor as [Hne | Hs]; [contradiction|]. rewrite Hs. symmetry. exact Ho.
Qed.

(** X15: after [PSBTInput::FillSignatureData] into signature data that are
    not complete, for an input without a final scriptSig, every public key
    of [hd_keypaths] can be looked up in [misc_pubkeys] by its id (the
    entry found there has that id when the entries before the call had the
    id they were stored under), and the entries that were there before are
    kept. *)
Theorem PSBTInput_FillSignatureData_pubkeys (input : PSBTInput.t CTxOut.t)
    (sd : SignatureData) :
  PSBTInput.final_script_sig input = [] ->
  complete sd = false ->
  (forall pk, is_Some (PSBTInput.hd_keypaths input !! pk) ->
     pk ∈ hd_keypaths_order (PSBTInput.hd_keypaths input)) ->
  map_Forall (fun k pk => GetID pk = k) (misc_pubkeys sd) ->
  map_Forall
    (fun pk _ =>
       exists pk',
         misc_pubkeys (PSBTInput_FillSignatureData input sd) !! GetID pk =
           Some pk' /\
         GetID pk' = GetID pk)
    (PSBTInput.hd_keypaths input) /\
  map_Forall
    (fun k pk =>
       misc_pubkeys (PSBTInput_FillSignatureData input sd) !! k = Some pk)
    (misc_pubkeys sd).
Proof.
  intros Hfin Hc Horder Hkeyed. unfold PSBTInput_FillSignatureData.
  rewrite Hfin, bool_decide_eq_true_2 by reflexivity. simpl. rewrite Hc.
  match goal with |- context [note_hd_keypaths ?m ?s] =>
    destruct (note_hd_keypaths_misc m s) as (Hmono & Hin & Hfrom);
    assert (Hmisc : misc_pubkeys s = misc_pubkeys sd)
      by (case_bool_decide; reflexivity)
  end.
  rewrite Hmisc in *. split.
  - intros pk path Hpk.
    destruct (Hin pk) as [pk' Hpk']; [apply Horder; eauto|].
    exists pk'. split; [exact Hpk'|].
    apply Hfrom in Hpk' as [Hold|[_ Hid]]; [|exact Hid].
    apply (Hkeyed _ _ Hold).
  - intros k pk Hk. apply Hmono. exact Hk.
Qed.

Lemma insert_range_empty_iff {K : Type} `{Countable K} {V : Type}
    (m other : gmap K V) :
  insert_range m other = ∅ <-> m = ∅ /\ other = ∅.
Proof.
  unfold insert_range. split.
  - intros Hu. pose proof (map_positive_l _ _ Hu) as ->.
    rewrite (left_id_L ∅ (∪)) in Hu. auto.
  - intros [-> ->]. apply (left_id_L ∅ (∪)).
Qed.

Lemma adopt_empty_iff (x y : list N) :
  (if bool_decide (x = []) && negb (bool_decide (y = [])) then y else x) = []
  <-> x = [] /\ y = [].
Proof.
  destruct x as [|x0 x], y as [|y0 y]; simpl; split;
    try (intros [? ?]); try discriminate; auto.
Qed.

Lemma PSBTInput_IsNull_true (input : PSBTInput.t CTxOut.t) :
  PSBTInput_IsNull input = true <->
  CTxOut_IsNull (PSBTInput.utxo input) = true /\
  PSBTInput.partial_sigs input = ∅ /\
  PSBTInput.unknown input = ∅ /\
  PSBTInput.hd_keypaths input = ∅ /\
  PSBTInput.redeem_script input = [].
Proof.
  unfold PSBTInput_IsNull. rewrite !andb_true_iff, !bool_decide_eq_true.
  tauto.
Qed.

Lemma PSBTOutput_IsNull_true (output : PSBTOutput.t) :
  PSBTOutput.IsNull output = true <->
  PSBTOutput.redeem_script output = [] /\
  PSBTOutput.hd_keypaths output = ∅ /\
  PSBTOutput.unknown output = ∅.
Proof.
  unfold PSBTOutput.IsNull. rewrite !andb_true_iff, !bool_decide_eq_true.
  tauto.
Qed.

(** X23: merging and nullness.  The merge of two PSBT inputs is null
    exactly when both are, and likewise for PSBT outputs: [Merge] never
    turns a record that holds something into a null one, and never makes
    something out of two null records. *)
Theorem PSBT_Merge_IsNull (a b : PSBTInput.t CTxOut.t) (x y : PSBTOutput.t) :
  PSBTInput_IsNull (PSBTInput.Merge CTxOut_IsNull a b) =
    PSBTInput_IsNull a && PSBTInput_IsNull b /\
  PSBTOutput.IsNull (PSBTOutput.Merge x y) =
    PSBTOutput.IsNull x && PSBTOutput.IsNull y.
Proof.
  split; apply eq_true_iff_eq; rewrite andb_true_iff.
  - rewrite !PSBTInput_IsNull_true. simpl.
    rewrite !insert_range_empty_iff, adopt_empty_iff.
    destruct (CTxOut_IsNull (PSBTInput.utxo a)) eqn:Ha,
             (CTxOut_IsNull (PSBTInput.utxo b)) eqn:Hb; simpl;
      rewrite ?Ha, ?Hb; intuition congruence.
  - rewrite !PSBTOutput_IsNull_true. simpl.
    rewrite !insert_range_empty_iff, adopt_empty_iff. tauto.
Qed.

End PSBTProperties.

(** * Signing a transaction input *)

Section TransactionProperties.
Context `{ext : Collaborators} `{tx_ext : TxCollaborators}.

(** X16: [SignSignature] on an input index in range returns, and changes
    nothing of the transaction but the scriptSig of that input, which it
    always overwrites: when it returns true the new scriptSig verifies
    against [fromPubKey] with the checker of the transaction as it was
    passed in; when [Solver] does not recognise [fromPubKey] it returns false
    and the input is left with an empty scriptSig. *)
Theorem SignSignature_outcome provider fromPubKey txTo nIn amount sigHashType :
  Solver_in_range ->
  N.to_nat nIn < length (CMutableTransaction.vin txTo) ->
  exists ret txTo' txin scriptSig',
    SignSignature provider fromPubKey txTo nIn amount sigHashType =
      Some (ret, txTo') /\
    CMutableTransaction.vin txTo !! N.to_nat nIn = Some txin /\
    CMutableTransaction.vin txTo' !! N.to_nat nIn =
      Some {| CTxIn.prevout := CTxIn.prevout txin;
              CTxIn.scriptSig := scriptSig';
              CTxIn.nSequence := CTxIn.nSequence txin |} /\
    (forall i, i <> N.to_nat nIn ->
       CMutableTransaction.vin txTo' !! i = CMutableTransaction.vin txTo !! i) /\
    length (CMutableTransaction.vin txTo') =
      length (CMutableTransaction.vin txTo) /\
    CMutableTransaction.nVersion txTo' = CMutableTransaction.nVersion txTo /\
    CMutableTransaction.vout txTo' = CMutableTransaction.vout txTo /\
    CMutableTransaction.nLockTime txTo' = CMutableTransaction.nLockTime txTo /\
    (ret = true ->
     VerifyScript scriptSig' fromPubKey STANDARD_SCRIPT_VERIFY_FLAGS
       (MutableTransactionSignatureChecker txTo nIn amount) = true) /\
    ((Solver fromPubKey).1.1 = false -> ret = false /\ scriptSig' = []).
Proof.
  intros Hrange Hlt. unfold SignSignature.
  rewrite bool_decide_eq_true_2 by exact Hlt.
  destruct (ProduceSignature_defined provider
              (MutableTransactionSignatureCreator txTo nIn amount sigHashType)
              fromPubKey SignatureData_default Hrange) as (ret & sd' & Hps).
  rewrite Hps.
  destruct (lookup_lt_is_Some_2 _ _ Hlt) as [txin Htxin]. rewrite Htxin.
  eexists ret, _, txin, (scriptSig sd').
  split; [reflexivity|]. split; [reflexivity|]. simpl.
  split; [apply list_lookup_insert_eq; exact Hlt|].
  split; [intros i Hi; apply list_lookup_insert_ne; congruence|].
  split; [apply length_insert|].
  split; [reflexivity|]. split; [reflexivity|]. split; [reflexivity|].
  split.
  - intros ->.
    apply ProduceSignature_true_verifies in Hps as [_ Hv]; [|reflexivity].
    exact Hv.
  - apply ProduceSignature_effect in Hps as (_ & _ & _ & Hfail);
      [|reflexivity].
    exact Hfail.
Qed.

(** X17: the assertions of the two [SignSignature] functions.  The first has
    no result exactly when the input index is out of range; the second,
    which looks the spent output up in [txFrom], has none exactly when the
    input index or the index of the spent output is out of range, and
    otherwise is the first one called with the script and the amount of that
    output. *)
Theorem SignSignature_assertions provider fromPubKey txFrom txTo nIn amount
    sigHashType :
  Solver_in_range ->
  (SignSignature provider fromPubKey txTo nIn amount sigHashType = None <->
   length (CMutableTransaction.vin txTo) <= N.to_nat nIn) /\
  (SignSignature_from provider txFrom txTo nIn sigHashType = None <->
   length (CMutableTransaction.vin txTo) <= N.to_nat nIn \/
   exists txin,
     CMutableTransaction.vin txTo !! N.to_nat nIn = Some txin /\
     length (CMutableTransaction.vout txFrom) <=
       N.to_nat (COutPoint.n (CTxIn.prevout txin))) /\
  (forall txin txout,
     CMutableTransaction.vin txTo !! N.to_nat nIn = Some txin ->
     CMutableTransaction.vout txFrom
       !! N.to_nat (COutPoint.n (CTxIn.prevout txin)) = Some txout ->
     SignSignature_from provider txFrom txTo nIn sigHashType =
       SignSignature provider (CTxOut.scriptPubKey txout) txTo nIn
         (CTxOut.nValue txout) sigHashType).
Proof.
  intros Hrange.
  assert (Hfirst : forall spk amt,
    SignSignature provider spk txTo nIn amt sigHashType = None <->
    length (CMutableTransaction.vin txTo) <= N.to_nat nIn).
  { intros spk amt. unfold SignSignature. case_bool_decide as Hlt.
    - destruct (ProduceSignature_defined provider
                  (MutableTransactionSignatureCreator txTo nIn amt sigHashType)
                  spk SignatureData_default Hrange) as (ret & sd' & ->).
      destruct (lookup_lt_is_Some_2 _ _ Hlt) as [txin ->].
      split; [discriminate|lia].
    - split; [lia|reflexivity]. }
  split; [apply Hfirst|]. split.
  - unfold SignSignature_from. case_bool_decide as Hlt.
    + destruct (lookup_lt_is_Some_2 _ _ Hlt) as [txin Htxin]. rewrite Htxin.
      case_bool_decide as Hn.
      * destruct (lookup_lt_is_Some_2 _ _ Hn) as [txout ->].
        rewrite Hfirst. split; [lia|].
        intros [Hge|(txin' & [= <-] & Hge)]; lia.
      * split; [|reflexivity]. intros _. right. exists txin.
        split; [reflexivity|lia].
    + split; [|reflexivity]. intros _. left. lia.
  - intros txin txout Htxin Htxout. unfold SignSignature_from.
    rewrite Htxin, Htxout.
    rewrite bool_decide_eq_true_2
      by (eapply lookup_lt_Some; exact Htxin).
    rewrite bool_decide_eq_true_2
      by (eapply lookup_lt_Some; exact Htxout).
    reflexivity.
Qed.

Lemma PSBTInput_FillSignatureData_open (input : PSBTInput.t CTxOut.t) sd :
  PSBTInput.final_script_sig input = [] ->
  complete sd = false ->
  complete (PSBTInput_FillSignatureData input sd) = false /\
  signatures (PSBTInput_FillSignatureData input sd) =
    insert_range (signatures sd) (PSBTInput.partial_sigs input).
Proof.
  intros Hfin Hc. unfold PSBTInput_FillSignatureData.
  rewrite Hfin, bool_decide_eq_true_2 by reflexivity. simpl. rewrite Hc.
  match goal with |- context [note_hd_keypaths ?m ?s] =>
    destruct (note_hd_keypaths_frame m s) as (-> & _ & _ & ->) end.
  case_bool_decide; simpl; auto.
Qed.

(** X18: the early exits of [SignPSBTInput].  A finalized input is returned
    as it is with the result true, and the signature data are not touched.
    An input without a final scriptSig and with a null [utxo] gives false and
    is left as it is, the signature data having been filled from it.  And
    when the caller's signature data are already marked complete (the input
    having no final scriptSig and a [utxo]), the result is true without any
    signing or verification: the input loses its partial signatures, key
    paths and redeem script and takes the scriptSig of the signature data,
    when that is not empty, as its final scriptSig. *)
Theorem SignPSBTInput_early_exits provider tx (input : PSBTInput.t CTxOut.t)
    sd index sighash :
  (PSBTInput.final_script_sig input <> [] ->
   SignPSBTInput provider tx input sd index sighash = Some (true, input, sd)) /\
  (PSBTInput.final_script_sig input = [] ->
   CTxOut_IsNull (PSBTInput.utxo input) = true ->
   SignPSBTInput provider tx input sd index sighash =
     Some (false, input, PSBTInput_FillSignatureData input sd)) /\
  (PSBTInput.final_script_sig input = [] ->
   CTxOut_IsNull (PSBTInput.utxo input) = false ->
   complete sd = true ->
   SignPSBTInput provider tx input sd index sighash =
     Some (true,
           {| PSBTInput.utxo := PSBTInput.utxo input;
              PSBTInput.partial_sigs := ∅;
              PSBTInput.hd_keypaths := ∅;
              PSBTInput.redeem_script := [];
              PSBTInput.final_script_sig := scriptSig sd;
              PSBTInput.unknown := PSBTInput.unknown input |},
           sd)).
Proof.
  unfold SignPSBTInput. split; [|split].
  - intros Hfin. rewrite (bool_decide_eq_false_2 _ Hfin). reflexivity.
  - intros Hfin Hnull. rewrite Hfin, bool_decide_eq_true_2 by reflexivity.
    simpl. rewrite Hnull. reflexivity.
  - intros Hfin Hnull Hc. rewrite Hfin, bool_decide_eq_true_2 by reflexivity.
    simpl. rewrite Hnull.
    assert (Hfill : PSBTInput_FillSignatureData input sd = sd).
    { unfold PSBTInput_FillSignatureData.
      rewrite Hfin, bool_decide_eq_true_2 by reflexivity. simpl.
      rewrite Hc. reflexivity. }
    rewrite Hfill, ProduceSignature_complete by exact Hc.
    unfold PSBTInput_FromSignatureData. rewrite Hc, Hfin.
    do 3 f_equal. case_bool_decide as Hs; simpl; [|reflexivity].
    rewrite Hs. reflexivity.
Qed.

(** X19: the outcome of [SignPSBTInput] for an input without a final
    scriptSig, with a [utxo], and signature data that are not complete.  It
    returns, [utxo] and [unknown] are kept, and the result is the
    [complete] flag of the signature data.  When it is true, the scriptSig
    verifies against the script of the [utxo] with the checker of [tx],
    [index] and the amount of the [utxo], it is the final scriptSig of the
    input, and the partial signatures, key paths and redeem script are
    cleared; a later call on that input, if the scriptSig is not empty,
    returns true and changes nothing, whatever its other arguments.  When it
    is false, the input has still no final scriptSig and the same key paths,
    no partial signature it held is lost or changed, and for the other key
    ids it holds exactly the signatures of the signature data. *)
Theorem SignPSBTInput_outcome provider tx (input : PSBTInput.t CTxOut.t)
    sd index sighash :
  Solver_in_range ->
  PSBTInput.final_script_sig input = [] ->
  CTxOut_IsNull (PSBTInput.utxo input) = false ->
  complete sd = false ->
  exists b input' sd',
    SignPSBTInput provider tx input sd index sighash = Some (b, input', sd') /\
    complete sd' = b /\
    PSBTInput.utxo input' = PSBTInput.utxo input /\
    PSBTInput.unknown input' = PSBTInput.unknown input /\
    (b = true ->
     VerifyScript (scriptSig sd') (CTxOut.scriptPubKey (PSBTInput.utxo input))
       STANDARD_SCRIPT_VERIFY_FLAGS
       (MutableTransactionSignatureChecker tx (to_unsigned_int index)
          (CTxOut.nValue (PSBTInput.utxo input))) = true /\
     PSBTInput.final_script_sig input' = scriptSig sd' /\
     PSBTInput.partial_sigs input' = ∅ /\
     PSBTInput.hd_keypaths input' = ∅ /\
     PSBTInput.redeem_script input' = [] /\
     (scriptSig sd' <> [] ->
      forall provider2 tx2 sd2 index2 sighash2,
        SignPSBTInput provider2 tx2 input' sd2 index2 sighash2 =
          Some (true, input', sd2))) /\
    (b = false ->
     PSBTInput.final_script_sig input' = [] /\
     PSBTInput.hd_keypaths input' = PSBTInput.hd_keypaths input /\
     (forall k v, PSBTInput.partial_sigs input !! k = Some v ->
        PSBTInput.partial_sigs input' !! k = Some v) /\
     (forall k, PSBTInput.partial_sigs input !! k = None ->
        PSBTInput.partial_sigs input' !! k = signatures sd' !! k)).
Proof.
  intros Hrange Hfin Hnull Hc. unfold SignPSBTInput.
  rewrite Hfin, bool_decide_eq_true_2 by reflexivity. simpl. rewrite Hnull.
  destruct (PSBTInput_FillSignatureData_open input sd Hfin Hc) as [Hc1 Hs1].
  set (creator := MutableTransactionSignatureCreator tx (to_unsigned_int index)
                    (CTxOut.nValue (PSBTInput.utxo input)) sighash).
  destruct (ProduceSignature_defined provider creator
              (CTxOut.scriptPubKey (PSBTInput.utxo input))
              (PSBTInput_FillSignatureData input sd) Hrange)
    as (b & sd' & Hps).
  rewrite Hps. eexists b, _, sd'. split; [reflexivity|].
  pose proof (ProduceSignature_effect _ _ _ _ _ _ Hc1 Hps) as (Hb & _ & _ & _).
  split; [exact Hb|]. unfold PSBTInput_FromSignatureData. rewrite Hb.
  destruct b; simpl.
  - split; [reflexivity|]. split; [reflexivity|].
    split; [|intros [=]]. intros _.
    apply ProduceSignature_true_verifies in Hps as [_ Hv]; [|exact Hc1].
    split; [exact Hv|].
    assert (Hfinal : (if negb (bool_decide (scriptSig sd' = []))
                      then scriptSig sd'
                      else PSBTInput.final_script_sig input) = scriptSig sd').
    { case_bool_decide as Hs; simpl; [|reflexivity].
      rewrite Hs, Hfin. reflexivity. }
    split; [exact Hfinal|]. split; [reflexivity|]. split; [reflexivity|].
    split; [reflexivity|].
    intros Hne provider2 tx2 sd2 index2 sighash2.
    unfold SignPSBTInput. simpl. rewrite Hfinal.
    rewrite (bool_decide_eq_false_2 _ Hne). reflexivity.
  - split; [reflexivity|]. split; [reflexivity|].
    split; [intros [=]|]. intros _.
    split; [exact Hfin|]. split; [reflexivity|]. split.
    + intros k v Hk. rewrite lookup_insert_range, Hk. reflexivity.
    + intros k Hk. rewrite lookup_insert_range, Hk. reflexivity.
Qed.

(** X20: where the partial signatures of a PSBT input come from.  After
    [SignPSBTInput] (input without a final scriptSig, with a [utxo];
    signature data not complete) every partial signature of the input was
    one of its partial signatures before, or was in the caller's signature
    data, or was made for the key id it is stored under with the private key
    that the provider holds for that id: an ECDSA signature of the
    [SignatureHash] of a script code for [tx], [index], [sighash] and the
    amount of the [utxo], followed by the byte of [sighash]. *)
Theorem SignPSBTInput_signatures_origin provider tx
    (input : PSBTInput.t CTxOut.t) sd index sighash :
  Solver_in_range ->
  PSBTInput.final_script_sig input = [] ->
  CTxOut_IsNull (PSBTInput.utxo input) = false ->
  complete sd = false ->
  exists b input' sd',
    SignPSBTInput provider tx input sd index sighash = Some (b, input', sd') /\
    map_Forall
      (fun k p =>
         PSBTInput.partial_sigs input !! k = Some p \/
         signatures sd !! k = Some p \/
         exists key scriptcode vchSig,
           provider_GetKey provider k = Some key /\
           SignECDSA key
             (SignatureHash scriptcode tx (to_unsigned_int index) sighash
                (CTxOut.nValue (PSBTInput.utxo input))) = Some vchSig /\
           p.2 = vchSig ++ [to_uint8 sighash])
      (PSBTInput.partial_sigs input').
Proof.
  intros Hrange Hfin Hnull Hc. unfold SignPSBTInput.
  rewrite Hfin, bool_decide_eq_true_2 by reflexivity. simpl. rewrite Hnull.
  destruct (PSBTInput_FillSignatureData_open input sd Hfin Hc) as [Hc1 Hs1].
  set (creator := MutableTransactionSignatureCreator tx (to_unsigned_int index)
                    (CTxOut.nValue (PSBTInput.utxo input)) sighash).
  destruct (ProduceSignature_defined provider creator
              (CTxOut.scriptPubKey (PSBTInput.utxo input))
              (PSBTInput_FillSignatureData input sd) Hrange)
    as (b & sd' & Hps).
  rewrite Hps. eexists b, _, sd'. split; [reflexivity|].
  pose proof (ProduceSignature_effect _ _ _ _ _ _ Hc1 Hps) as (Hb & _ & _ & _).
  pose proof (ProduceSignature_new_signatures _ _ _ _ _ _ Hps) as Horigin.
  unfold PSBTInput_FromSignatureData. rewrite Hb.
  destruct b; simpl; [apply map_Forall_empty|].
  intros k [pk sig] Hk. rewrite lookup_insert_range in Hk.
  destruct (PSBTInput.partial_sigs input !! k) as [p|] eqn:Hin.
  { left. exact Hk. }
  apply Horigin in Hk as [Hold|(_ & scriptcode & _ & Hcr)].
  - rewrite Hs1, lookup_insert_range in Hold.
    destruct (signatures sd !! k) eqn:Hsd; [right; left; exact Hold|].
    congruence.
  - right. right. unfold creator in Hcr. simpl in Hcr.
    destruct (provider_GetKey provider k) as [key|]; [|discriminate].
    destruct (SignECDSA key _) as [vchSig|] eqn:Hsign; [|discriminate].
    injection Hcr as <-. exists key, scriptcode, vchSig. auto.
Qed.

End TransactionProperties.

(** * Extracting signature data from a transaction *)

Section ExtractionProperties.
Context `{ext : Collaborators} `{tx_ext : TxCollaborators}.

Lemma SignatureExtractorChecker_CheckSig_keeps checker sig pk code flags
    data ok data' :
  SignatureExtractorChecker_CheckSig checker sig pk code flags data =
    (ok, data') ->
  accepted_by checker data ->
  accepted_by checker data' /\
  complete data' = complete data /\ scriptSig data' = scriptSig data /\
  redeem_script data' = redeem_script data /\
  misc_pubkeys data' = misc_pubkeys data.
Proof.
  unfold SignatureExtractorChecker_CheckSig.
  destruct (CheckSig checker sig pk code flags) eqn:Hck; intros [= <- <-] Hacc;
    [|auto 6].
  split; [|auto]. intros k p. simpl. rewrite emplace_lookup.
  destruct (signatures data !! k) eqn:Hk.
  - intros [= <-]. eapply Hacc. exact Hk.
  - case_decide; [|discriminate]. intros [= <-]. simpl.
    exists pk, code, flags. auto.
Qed.

Lemma run_extractor_keeps checker calls :
  forall data ok data',
    run_extractor checker calls data = (ok, data') ->
    accepted_by checker data ->
    accepted_by checker data' /\
    complete data' = complete data /\ scriptSig data' = scriptSig data /\
    redeem_script data' = redeem_script data /\
    misc_pubkeys data' = misc_pubkeys data.
Proof.
  induction calls as [b|sig pk code flags next IH]; intros data ok data';
    simpl.
  - intros [= <- <-] Hacc. auto 6.
  - destruct (SignatureExtractorChecker_CheckSig checker sig pk code flags data)
      as [r data1] eqn:Hc.
    intros Hrun Hacc.
    destruct (SignatureExtractorChecker_CheckSig_keeps _ _ _ _ _ _ _ _ Hc Hacc)
      as (Hacc1 & Hc1 & Hs1 & Hr1 & Hm1).
    destruct (IH _ _ _ _ Hrun Hacc1) as (Hacc2 & Hc2 & Hs2 & Hr2 & Hm2).
    split; [exact Hacc2|]. repeat split; congruence.
Qed.

Lemma match_keys_keeps checker next_script solutions sig steps :
  forall i last data last' data',
    match_keys checker next_script solutions sig steps i last data =
      Some (last', data') ->
    accepted_by checker data ->
    accepted_by checker data' /\
    complete data' = complete data /\ scriptSig data' = scriptSig data /\
    redeem_script data' = redeem_script data /\
    misc_pubkeys data' = misc_pubkeys data.
Proof.
  induction steps as [|steps IH]; intros i last data last' data'; simpl.
  - intros [= <- <-] Hacc. auto 6.
  - destruct (solutions !! (i + 1)) as [pubkey|]; [|discriminate].
    case_bool_decide.
    + intros [= <- <-] Hacc. auto 6.
    + destruct (SignatureExtractorChecker_CheckSig checker sig pubkey
                  next_script STANDARD_SCRIPT_VERIFY_FLAGS data)
        as [ok data1] eqn:Hc.
      intros Hm Hacc.
      destruct (SignatureExtractorChecker_CheckSig_keeps _ _ _ _ _ _ _ _ Hc Hacc)
        as (Hacc1 & Hc1 & Hs1 & Hr1 & Hm1).
      destruct ok.
      * injection Hm as <- <-. auto 6.
      * destruct (IH _ _ _ _ _ Hm Hacc1) as (Hacc2 & Hc2 & Hs2 & Hr2 & Hm2).
        split; [exact Hacc2|]. repeat split; congruence.
Qed.

Lemma match_sigs_keeps checker next_script solutions num_pubkeys stack :
  forall last data data',
    match_sigs checker next_script solutions num_pubkeys stack last data =
      Some data' ->
    accepted_by checker data ->
    accepted_by checker data' /\
    complete data' = complete data /\ scriptSig data' = scriptSig data /\
    redeem_script data' = redeem_script data /\
    misc_pubkeys data' = misc_pubkeys data.
Proof.
  induction stack as [|sig stack IH]; intros last data data'; simpl.
  - intros [= <-] Hacc. auto 6.
  - destruct (match_keys checker next_script solutions sig
                (num_pubkeys - last) last last data)
      as [[last1 data1]|] eqn:Hk; [|discriminate].
    intros Hm Hacc.
    destruct (match_keys_keeps _ _ _ _ _ _ _ _ _ _ Hk Hacc)
      as (Hacc1 & Hc1 & Hs1 & Hr1 & Hm1).
    destruct (IH _ _ _ Hm Hacc1) as (Hacc2 & Hc2 & Hs2 & Hr2 & Hm2).
    split; [exact Hacc2|]. repeat split; congruence.
Qed.

(** The inner loop reads [solutions] within its bounds and never moves
    [last_success_key] past the number of keys. *)
Lemma match_keys_defined checker next_script solutions sig steps :
  forall i last data,
    i + steps + 2 <= length solutions ->
    last <= i + steps ->
    exists last' data',
      match_keys checker next_script solutions sig steps i last data =
        Some (last', data') /\
      last' <= i + steps.
Proof.
  induction steps as [|steps IH]; intros i last data Hlen Hlast; simpl.
  - exists last, data. split; [reflexivity|lia].
  - destruct (lookup_lt_is_Some_2 solutions (i + 1)) as [pubkey ->]; [lia|].
    case_bool_decide.
    + eexists _, _. split; [reflexivity|lia].
    + destruct (SignatureExtractorChecker_CheckSig checker sig pubkey
                  next_script STANDARD_SCRIPT_VERIFY_FLAGS data)
        as [[] data1].
      * eexists _, _. split; [reflexivity|lia].
      * destruct (IH (S i) last data1) as (last' & data' & -> & Hle);
          [lia..|].
        exists last', data'. split; [reflexivity|lia].
Qed.

Lemma match_sigs_defined checker next_script solutions stack :
  forall last data,
    2 <= length solutions ->
    last <= length solutions - 2 ->
    exists data',
      match_sigs checker next_script solutions (length solutions - 2) stack
        last data = Some data'.
Proof.
  induction stack as [|sig stack IH]; intros last data Hlen Hlast; simpl.
  - eauto.
  - destruct (match_keys_defined checker next_script solutions sig
                (length solutions - 2 - last) last last data)
      as (last' & data' & -> & Hle); [lia..|].
    apply IH; lia.
Qed.

Lemma accepted_by_well_keyed checker data :
  accepted_by checker data -> misc_pubkeys data = ∅ -> well_keyed data.
Proof.
  intros Hacc Hmisc. split.
  - intros k pk sig Hk. destruct (Hacc k _ Hk) as (_ & _ & _ & _ & Hid & _).
    right. symmetry. exact Hid.
  - intros k pk. rewrite Hmisc, lookup_empty. discriminate.
Qed.

(** X21: [DataFromTransaction] returns when the input index is in range
    (taking from [Solver] that a MULTISIG answer has at least two entries),
    and what it returns can be relied on: the scriptSig is that of the
    input, [complete] is the verdict of [VerifyScript] on it, no public key
    is noted, the redeem script is empty or, for a SCRIPTHASH output, the
    last item of the stack that the scriptSig leaves, and every signature it
    reports was accepted by the checker of the transaction for the public
    key stored with it and is stored under the id of that key; so the data
    are well keyed. *)
Theorem DataFromTransaction_sound tx nIn txout :
  N.to_nat nIn < length (CMutableTransaction.vin tx) ->
  (forall script,
     (Solver script).1.2 = TX_MULTISIG -> 2 <= length (Solver script).2) ->
  exists txin data,
    CMutableTransaction.vin tx !! N.to_nat nIn = Some txin /\
    DataFromTransaction tx nIn txout = Some data /\
    scriptSig data = CTxIn.scriptSig txin /\
    complete data =
      (run_extractor
         (MutableTransactionSignatureChecker tx nIn (CTxOut.nValue txout))
         (VerifyScript_calls (CTxIn.scriptSig txin)
            (CTxOut.scriptPubKey txout) STANDARD_SCRIPT_VERIFY_FLAGS)
         (set_scriptSig (CTxIn.scriptSig txin) SignatureData_default)).1 /\
    misc_pubkeys data = ∅ /\
    (redeem_script data = [] \/
     (Solver (CTxOut.scriptPubKey txout)).1.2 = TX_SCRIPTHASH /\
     last (Stacks (set_scriptSig (CTxIn.scriptSig txin) SignatureData_default)) =
       Some (redeem_script data)) /\
    accepted_by
      (MutableTransactionSignatureChecker tx nIn (CTxOut.nValue txout)) data /\
    well_keyed data.
Proof.
  intros Hlt Hshape.
  destruct (lookup_lt_is_Some_2 _ _ Hlt) as [txin Htxin].
  exists txin. unfold DataFromTransaction. rewrite Htxin.
  set (data0 := set_scriptSig (CTxIn.scriptSig txin) SignatureData_default).
  set (checker :=
         MutableTransactionSignatureChecker tx nIn (CTxOut.nValue txout)).
  assert (Hacc0 : accepted_by checker data0).
  { intros k p Hk. simpl in Hk. rewrite lookup_empty in Hk. discriminate. }
  change (scriptSig data0) with (CTxIn.scriptSig txin).
  destruct (run_extractor checker
              (VerifyScript_calls (CTxIn.scriptSig txin)
                 (CTxOut.scriptPubKey txout) STANDARD_SCRIPT_VERIFY_FLAGS)
              data0) as [verified data1] eqn:Hrun.
  destruct (run_extractor_keeps _ _ _ _ _ Hrun Hacc0)
    as (Hacc1 & Hc1 & Hs1 & Hr1 & Hm1).
  simpl in Hc1, Hs1, Hr1, Hm1.
  destruct verified.
  { eexists. split; [reflexivity|]. split; [reflexivity|]. simpl.
    split; [exact Hs1|]. split; [reflexivity|]. split; [exact Hm1|].
    split; [left; exact Hr1|]. split; [exact Hacc1|].
    apply (accepted_by_well_keyed checker); assumption. }
  pose proof (Hshape (CTxOut.scriptPubKey txout)) as Hshape0.
  destruct (Solver (CTxOut.scriptPubKey txout)) as [[ok0 t0] sols0].
  simpl in Hshape0.
  set (branch :=
         match last (Stacks data0) with
         | Some top =>
             if bool_decide (t0 = TX_SCRIPTHASH) && negb (bool_decide (top = []))
             then
               let '(_, script_type', solutions') := Solver top in
               (set_redeem_script top data1, top, script_type', solutions',
                removelast (Stacks data0))
             else (data1, CTxOut.scriptPubKey txout, t0, sols0, Stacks data0)
         | None => (data1, CTxOut.scriptPubKey txout, t0, sols0, Stacks data0)
         end).
  assert (Hbranch :
    let '(data2, _, t2, sols2, _) := branch in
    accepted_by checker data2 /\ complete data2 = false /\
    scriptSig data2 = CTxIn.scriptSig txin /\ misc_pubkeys data2 = ∅ /\
    (redeem_script data2 = [] \/
     t0 = TX_SCRIPTHASH /\ last (Stacks data0) = Some (redeem_script data2)) /\
    (t2 = TX_MULTISIG -> 2 <= length sols2)).
  { unfold branch. destruct (last (Stacks data0)) as [top|]; [|auto 7].
    destruct (bool_decide (t0 = TX_SCRIPTHASH) && negb (bool_decide (top = [])))
      eqn:Hb; [|auto 7].
    apply andb_true_iff in Hb as [Ht0 _]. apply bool_decide_eq_true in Ht0.
    pose proof (Hshape top) as Hshape1.
    destruct (Solver top) as [[ok1 t1] sols1]. simpl in Hshape1.
    split; [exact Hacc1|]. simpl. auto 7. }
  destruct branch as [[[[data2 next2] t2] sols2] stack2].
  destruct Hbranch as (Hacc2 & Hc2 & Hs2 & Hm2 & Hrs2 & Hshape2).
  simpl.
  destruct (bool_decide (t2 = TX_MULTISIG) && negb (bool_decide (stack2 = [])))
    eqn:Hmulti.
  - apply andb_true_iff in Hmulti as [Ht2 _].
    apply bool_decide_eq_true in Ht2. specialize (Hshape2 Ht2).
    rewrite bool_decide_eq_true_2 by lia.
    destruct (match_sigs_defined checker next2 sols2 stack2 0 data2)
      as [data3 Hm3]; [lia..|].
    rewrite Hm3.
    destruct (match_sigs_keeps _ _ _ _ _ _ _ _ Hm3 Hacc2)
      as (Hacc3 & Hc3 & Hs3 & Hr3 & Hmisc3).
    exists data3. split; [reflexivity|]. split; [reflexivity|].
    split; [congruence|]. split; [congruence|].
    split; [congruence|]. split; [rewrite Hr3; exact Hrs2|].
    split; [exact Hacc3|].
    apply (accepted_by_well_keyed checker); [exact Hacc3|congruence].
  - exists data2. split; [reflexivity|]. split; [reflexivity|].
    split; [exact Hs2|]. split; [exact Hc2|]. split; [exact Hm2|].
    split; [exact Hrs2|]. split; [exact Hacc2|].
    apply (accepted_by_well_keyed checker); assumption.
Qed.

(** *** The multisig matching loop *)

Lemma multisig_pubkeys_lookup (solutions : list valtype) i :
  i < length solutions - 2 ->
  solutions !! (i + 1) = multisig_pubkeys solutions !! i.
Proof.
  intros Hi. unfold multisig_pubkeys.
  rewrite lookup_take_lt by exact Hi. rewrite lookup_drop.
  f_equal. lia.
Qed.

Lemma multisig_pubkeys_lookup_Some (solutions : list valtype) i p :
  multisig_pubkeys solutions !! i = Some p -> i < length solutions - 2.
Proof.
  intros Hp. apply lookup_lt_Some in Hp. unfold multisig_pubkeys in Hp.
  rewrite length_take in Hp. lia.
Qed.

(** One stack item against the keys from [i] on, none of which has a stored
    signature: either no key accepts it and nothing changes, or the first
    key that accepts it takes it. *)
Lemma match_keys_fresh checker next_script solutions sig steps :
  forall i last data,
    i + steps = length solutions - 2 ->
    (forall j p, i <= j -> multisig_pubkeys solutions !! j = Some p ->
       signatures data !! GetID (CPubKey_of_bytes p) = None) ->
    exists last' data',
      match_keys checker next_script solutions sig steps i last data =
        Some (last', data') /\
      ((last' = last /\ data' = data /\
        forall j p, i <= j -> multisig_pubkeys solutions !! j = Some p ->
          CheckSig checker sig p next_script STANDARD_SCRIPT_VERIFY_FLAGS =
            false) \/
       (exists j p,
          i <= j /\ multisig_pubkeys solutions !! j = Some p /\
          CheckSig checker sig p next_script STANDARD_SCRIPT_VERIFY_FLAGS =
            true /\
          last' = S j /\
          data' =
            set_signatures
              (<[GetID (CPubKey_of_bytes p) := (CPubKey_of_bytes p, sig)]>
                 (signatures data))
              data)).
Proof.
  induction steps as [|steps IH]; intros i last data Hn Hfresh; simpl.
  - exists last, data. split; [reflexivity|]. left.
    split; [reflexivity|]. split; [reflexivity|].
    intros j p Hj Hp. apply multisig_pubkeys_lookup_Some in Hp. lia.
  - rewrite multisig_pubkeys_lookup by lia.
    destruct (multisig_pubkeys solutions !! i) as [pubkey|] eqn:Hpk.
    2:{ apply lookup_ge_None in Hpk. unfold multisig_pubkeys in Hpk.
        rewrite length_take, length_drop in Hpk. lia. }
    pose proof (Hfresh i pubkey (Nat.le_refl i) Hpk) as Hnone.
    rewrite bool_decide_eq_false_2
      by (rewrite Hnone; intros [? [=]]).
    unfold SignatureExtractorChecker_CheckSig.
    destruct (CheckSig checker sig pubkey next_script
                STANDARD_SCRIPT_VERIFY_FLAGS) eqn:Hck.
    + eexists _, _. split; [reflexivity|]. right.
      exists i, pubkey. split; [lia|]. split; [exact Hpk|].
      split; [exact Hck|]. split; [lia|].
      unfold emplace. rewrite Hnone. reflexivity.
    + destruct (IH (S i) last data) as (last' & data' & Hm & Hres).
      * lia.
      * intros j p Hj. apply Hfresh. lia.
      * exists last', data'. split; [exact Hm|].
        destruct Hres as [(-> & -> & Hno)|(j & p & Hj & Hp & Hok & -> & ->)].
        -- left. split; [reflexivity|]. split; [reflexivity|].
           intros j p Hj Hp. destruct (decide (j = i)) as [->|Hne].
           ++ rewrite Hpk in Hp. injection Hp as <-. exact Hck.
           ++ apply (Hno j p); [lia|exact Hp].
        -- right. exists j, p. split; [lia|]. auto.
Qed.

Lemma match_sigs_ordered checker next_script solutions stack :
  forall last data,
    last <= length solutions - 2 ->
    (forall i j pi pj,
       multisig_pubkeys solutions !! i = Some pi ->
       multisig_pubkeys solutions !! j = Some pj ->
       GetID (CPubKey_of_bytes pi) = GetID (CPubKey_of_bytes pj) -> i = j) ->
    (forall j p, last <= j -> multisig_pubkeys solutions !! j = Some p ->
       signatures data !! GetID (CPubKey_of_bytes p) = None) ->
    (forall sig i p, sig ∈ stack ->
       multisig_pubkeys solutions !! i = Some p ->
       CheckSig checker sig p next_script STANDARD_SCRIPT_VERIFY_FLAGS = true ->
       last <= i) ->
    (forall sig i j pi pj, sig ∈ stack ->
       multisig_pubkeys solutions !! i = Some pi ->
       multisig_pubkeys solutions !! j = Some pj ->
       CheckSig checker sig pi next_script STANDARD_SCRIPT_VERIFY_FLAGS = true ->
       CheckSig checker sig pj next_script STANDARD_SCRIPT_VERIFY_FLAGS = true ->
       i = j) ->
    (forall a b sa sb i j pi pj, a < b ->
       stack !! a = Some sa -> stack !! b = Some sb ->
       multisig_pubkeys solutions !! i = Some pi ->
       multisig_pubkeys solutions !! j = Some pj ->
       CheckSig checker sa pi next_script STANDARD_SCRIPT_VERIFY_FLAGS = true ->
       CheckSig checker sb pj next_script STANDARD_SCRIPT_VERIFY_FLAGS = true ->
       i < j) ->
    exists data',
      match_sigs checker next_script solutions (length solutions - 2) stack
        last data = Some data' /\
      (forall sig p, sig ∈ stack -> p ∈ multisig_pubkeys solutions ->
         CheckSig checker sig p next_script STANDARD_SCRIPT_VERIFY_FLAGS =
           true ->
         signatures data' !! GetID (CPubKey_of_bytes p) =
           Some (CPubKey_of_bytes p, sig)) /\
      (forall k v, signatures data !! k = Some v ->
         signatures data' !! k = Some v).
Proof.
  induction stack as [|sig stack IH];
    intros last data Hlast Hdistinct Hfresh Hfrom Hone Hord; simpl.
  - exists data. split; [reflexivity|]. split; [|auto].
    intros sig p Hin. inversion Hin.
  - destruct (match_keys_fresh checker next_script solutions sig
                (length solutions - 2 - last) last last data)
      as (last' & data1 & -> & Hres); [lia|exact Hfresh|].
    assert (Hone' : forall s i j pi pj, s ∈ stack ->
       multisig_pubkeys solutions !! i = Some pi ->
       multisig_pubkeys solutions !! j = Some pj ->
       CheckSig checker s pi next_script STANDARD_SCRIPT_VERIFY_FLAGS = true ->
       CheckSig checker s pj next_script STANDARD_SCRIPT_VERIFY_FLAGS = true ->
       i = j).
    { intros s i j pi pj Hs. apply Hone. right. exact Hs. }
    assert (Hord' : forall a b sa sb i j pi pj, a < b ->
       stack !! a = Some sa -> stack !! b = Some sb ->
       multisig_pubkeys solutions !! i = Some pi ->
       multisig_pubkeys solutions !! j = Some pj ->
       CheckSig checker sa pi next_script STANDARD_SCRIPT_VERIFY_FLAGS = true ->
       CheckSig checker sb pj next_script STANDARD_SCRIPT_VERIFY_FLAGS = true ->
       i < j).
    { intros a b sa sb i j pi pj Hab Ha Hb.
      apply (Hord (S a) (S b)); [lia|exact Ha|exact Hb]. }
    destruct Hres as [(-> & -> & Hno)|(j & p & Hj & Hp & Hok & -> & ->)].
    + destruct (IH last data) as (data' & Hm & Hall & Hmono); try assumption.
      { intros s i q Hs. apply Hfrom. right. exact Hs. }
      exists data'. split; [exact Hm|]. split; [|exact Hmono].
      intros s q Hs Hq Hck. apply elem_of_cons in Hs as [->|Hs];
        [|apply Hall; assumption].
      apply list_elem_of_lookup in Hq as [i Hi].
      pose proof (Hfrom sig i q (list_elem_of_here _ _) Hi Hck) as Hle.
      rewrite (Hno i q Hle Hi) in Hck. discriminate.
    + pose proof (multisig_pubkeys_lookup_Some _ _ _ Hp) as Hjn.
      destruct (IH (S j)
                  (set_signatures
                     (<[GetID (CPubKey_of_bytes p) := (CPubKey_of_bytes p, sig)]>
                        (signatures data))
                     data))
        as (data' & Hm & Hall & Hmono); try assumption.
      { intros i q Hi Hq. simpl. rewrite lookup_insert_ne.
        - apply (Hfresh i); [lia|exact Hq].
        - intros Heq. pose proof (Hdistinct _ _ _ _ Hp Hq Heq). lia. }
      { intros s i q Hs Hq Hck.
        apply list_elem_of_lookup in Hs as [b Hb].
        pose proof (Hord 0 (S b) sig s j i p q) as Hlt.
        apply Nat.le_succ_l. apply Hlt; try assumption; [lia|reflexivity]. }
      exists data'. split; [exact Hm|]. split.
      * intros s q Hs Hq Hck. apply elem_of_cons in Hs as [->|Hs];
          [|apply Hall; assumption].
        apply list_elem_of_lookup in Hq as [i Hi].
        assert (i = j) as ->
          by (apply (Hone sig i j q p); try assumption; left).
        rewrite Hp in Hi. injection Hi as <-.
        apply Hmono. simpl. apply lookup_insert_eq.
      * intros k v Hk. apply Hmono. simpl.
        rewrite lookup_insert_ne; [exact Hk|].
        intros <-. rewrite (Hfresh j p Hj Hp) in Hk. discriminate.
Qed.

(** X22: the multisig matching loop of [DataFromTransaction] recovers the
    signatures that are in key order.  For a [Solver] answer with keys of
    distinct ids, none of which has a stored signature yet, and stack items
    each accepted by the checker for at most one key and placed in the order
    of their keys, the loop stores every accepted item with its public key
    under the id of that key, and keeps what was stored. *)
Theorem DataFromTransaction_matches_in_key_order checker next_script
    solutions stack data :
  2 <= length solutions ->
  (forall i j pi pj,
     multisig_pubkeys solutions !! i = Some pi ->
     multisig_pubkeys solutions !! j = Some pj ->
     GetID (CPubKey_of_bytes pi) = GetID (CPubKey_of_bytes pj) -> i = j) ->
  (forall p, p ∈ multisig_pubkeys solutions ->
     signatures data !! GetID (CPubKey_of_bytes p) = None) ->
  (forall sig i j pi pj, sig ∈ stack ->
     multisig_pubkeys solutions !! i = Some pi ->
     multisig_pubkeys solutions !! j = Some pj ->
     CheckSig checker sig pi next_script STANDARD_SCRIPT_VERIFY_FLAGS = true ->
     CheckSig checker sig pj next_script STANDARD_SCRIPT_VERIFY_FLAGS = true ->
     i = j) ->
  (forall a b sa sb i j pi pj, a < b ->
     stack !! a = Some sa -> stack !! b = Some sb ->
     multisig_pubkeys solutions !! i = Some pi ->
     multisig_pubkeys solutions !! j = Some pj ->
     CheckSig checker sa pi next_script STANDARD_SCRIPT_VERIFY_FLAGS = true ->
     CheckSig checker sb pj next_script STANDARD_SCRIPT_VERIFY_FLAGS = true ->
     i < j) ->
  exists data',
    match_sigs checker next_script solutions (length solutions - 2) stack 0
      data = Some data' /\
    (forall sig p, sig ∈ stack -> p ∈ multisig_pubkeys solutions ->
       CheckSig checker sig p next_script STANDARD_SCRIPT_VERIFY_FLAGS = true ->
       signatures data' !! GetID (CPubKey_of_bytes p) =
         Some (CPubKey_of_bytes p, sig)) /\
    (forall k v, signatures data !! k = Some v ->
       signatures data' !! k = Some v).
Proof.
  intros Hlen Hdistinct Hfresh Hone Hord.
  apply match_sigs_ordered; try assumption; [lia| |intros; lia].
  intros j p _ Hp. apply Hfresh. eapply list_elem_of_lookup_2. exact Hp.
Qed.

End ExtractionProperties.

(** * The further properties on explicit inputs *)

(** X2 on an input: a PUBKEYHASH script signed with its key. *)
Lemma ProduceSignature_complete_verified_witness :
  complete DemoTx.signed_p2pkh = true /\
  VerifyScript (Collaborators := Demo.ext) (scriptSig DemoTx.signed_p2pkh)
    Demo.p2pkh (STANDARD_SCRIPT_VERIFY_FLAGS (Collaborators := Demo.ext))
    (Checker Demo.creator) = true.
Proof.
  apply (ProduceSignature_complete_verified (ext := Demo.ext)
           (Demo.keystore [[11%N]] []) Demo.creator Demo.p2pkh
           SignatureData_default).
  - reflexivity.
  - vm_compute. reflexivity.
Defined.

Lemma Demo_keystore_consistent pubkeys scripts :
  provider_consistent (ext := Demo.ext) (Demo.keystore pubkeys scripts).
Proof.
  intros k pk. simpl. intros Hfind.
  induction pubkeys as [|pk0 pubkeys IH]; [discriminate|].
  simpl in Hfind. case_bool_decide as Hk.
  - injection Hfind as <-. exact Hk.
  - apply IH. exact Hfind.
Qed.

Lemma well_keyed_default `{ext : Collaborators} :
  well_keyed SignatureData_default.
Proof.
  split; intros k pk; simpl; intros; simplify_map_eq.
Qed.

(** X3 on an input: P2SH wrapping 2-of-3 with one available key. *)
Lemma ProduceSignature_well_keyed_witness :
  exists b sd',
    ProduceSignature (ext := Demo.ext)
      (Demo.keystore [[11%N]] [Demo.multisig_2of3]) Demo.creator
      Demo.p2sh_2of3 SignatureData_default = Some (b, sd') /\
    well_keyed (ext := Demo.ext) sd'.
Proof.
  apply (ProduceSignature_well_keyed (ext := Demo.ext)).
  - apply Demo_Solver_in_range.
  - apply Demo_keystore_consistent.
  - apply well_keyed_default.
Defined.

(** X4 on an input: the same script, starting from a record that holds a
    signature of another key. *)
Lemma ProduceSignature_signatures_origin_witness :
  exists b sd',
    ProduceSignature (ext := Demo.ext)
      (Demo.keystore [[11%N]] [Demo.multisig_2of3]) Demo.creator
      Demo.p2sh_2of3 Demo.stale = Some (b, sd') /\
    forall k pk sig,
      signatures sd' !! k = Some (pk, sig) ->
      signatures Demo.stale !! k = Some (pk, sig) \/
      (signatures Demo.stale !! k = None /\
       exists scriptcode,
         (scriptcode = Demo.p2sh_2of3 \/ scriptcode = redeem_script sd') /\
         creator_CreateSig Demo.creator
           (Demo.keystore [[11%N]] [Demo.multisig_2of3]) k scriptcode =
           Some sig).
Proof.
  apply (ProduceSignature_signatures_origin (ext := Demo.ext)).
  apply Demo_Solver_in_range.
Defined.

(** X5 on an input. *)
Lemma ProduceSignature_frame_witness :
  exists b sd',
    ProduceSignature (ext := Demo.ext)
      (Demo.keystore [[11%N]] [Demo.multisig_2of3]) Demo.creator
      Demo.p2sh_2of3 Demo.stale = Some (b, sd') /\
    (forall k v,
       misc_pubkeys Demo.stale !! k = Some v ->
       misc_pubkeys sd' !! k = Some v) /\
    (redeem_script sd' = redeem_script Demo.stale \/
     exists h,
       (Solver (Collaborators := Demo.ext) Demo.p2sh_2of3).2 !! 0%nat = Some h /\
       (Solver (Collaborators := Demo.ext) Demo.p2sh_2of3).1.2 = TX_SCRIPTHASH /\
       provider_GetCScript (Demo.keystore [[11%N]] [Demo.multisig_2of3]) h =
         Some (redeem_script sd')).
Proof.
  apply (ProduceSignature_frame (ext := Demo.ext)).
  apply Demo_Solver_in_range.
Defined.

(** X6 on an input: the 2-of-3 script and a provider without keys. *)
Lemma SignStep_dummy_multisig_witness :
  exists sd',
    SignStep (ext := Demo.ext) DUMMY_SIGNING_PROVIDER
      (DUMMY_SIGNATURE_CREATOR (ext := Demo.ext)) Demo.multisig_2of3
      SignatureData_default =
      Some (true,
            [] :: replicate (N.to_nat 2) (dummy_signature (ext := Demo.ext)),
            TX_MULTISIG, sd') /\
    length (dummy_signature (ext := Demo.ext)) = 72.
Proof.
  apply (SignStep_dummy_multisig (ext := Demo.ext) DUMMY_SIGNING_PROVIDER
           Demo.multisig_2of3 SignatureData_default 2%N []
           [[11]; [12]; [13]; [3]]%N).
  - reflexivity.
  - reflexivity.
  - vm_compute. lia.
Defined.

(** X7 on an input: the 2-of-3 script with all three signatures stored. *)
Lemma SignStep_presigned_witness :
  SignStep (ext := Demo.ext) DUMMY_SIGNING_PROVIDER Demo.creator
    Demo.multisig_2of3 DemoTx.presigned =
    Some (true,
          [] :: take (N.to_nat 2)
                  (stored_sigs (ext := Demo.ext) DemoTx.presigned
                     (multisig_pubkeys [[2]; [11]; [12]; [13]; [3]]%N)),
          TX_MULTISIG, DemoTx.presigned).
Proof.
  apply (SignStep_presigned (ext := Demo.ext) DUMMY_SIGNING_PROVIDER
           Demo.creator Demo.multisig_2of3 DemoTx.presigned 2%N []
           [[11]; [12]; [13]; [3]]%N).
  - reflexivity.
  - intros vch Hin.
    change (multisig_pubkeys [[2]; [11]; [12]; [13]; [3]]%N)
      with [[11]; [12]; [13]]%N in Hin.
    repeat (apply elem_of_cons in Hin as [->|Hin]);
      [eexists; vm_compute; reflexivity..|].
    inversion Hin.
  - vm_compute. lia.
Defined.

(** X8 on an input: a PUBKEYHASH script and a provider without keys. *)
Lemma ProduceSignature_missing_key_witness :
  exists sd',
    ProduceSignature (ext := Demo.ext) DUMMY_SIGNING_PROVIDER Demo.creator
      Demo.p2pkh Demo.stale = Some (false, sd') /\
    complete sd' = false /\ scriptSig sd' = [] /\
    signatures sd' = signatures Demo.stale /\
    redeem_script sd' = redeem_script Demo.stale /\
    misc_pubkeys sd' =
      match provider_GetPubKey DUMMY_SIGNING_PROVIDER [160; 11]%N with
      | Some pk => emplace (GetID (ext := Demo.ext) pk) pk
                     (misc_pubkeys Demo.stale)
      | None => misc_pubkeys Demo.stale
      end.
Proof.
  apply (ProduceSignature_missing_key (ext := Demo.ext) DUMMY_SIGNING_PROVIDER
           Demo.creator Demo.p2pkh Demo.stale TX_PUBKEYHASH [160; 11]%N []
           [160; 11]%N).
  - reflexivity.
  - reflexivity.
  - right. split; reflexivity.
  - vm_compute. reflexivity.
  - reflexivity.
Defined.

(** X24 on an input: a PUBKEYHASH script whose key the provider holds. *)
Lemma SignStep_single_key_witness :
  exists ok ret sd',
    SignStep (ext := Demo.ext) (Demo.keystore [[11%N]] []) Demo.creator
      Demo.p2pkh Demo.stale = Some (ok, ret, TX_PUBKEYHASH, sd') /\
    (ok = true <->
     is_Some (signatures Demo.stale !! [160; 11]%N) \/
     is_Some (creator_CreateSig Demo.creator (Demo.keystore [[11%N]] [])
                [160; 11]%N Demo.p2pkh)) /\
    (ok = true ->
     exists pk sig,
       signatures sd' !! [160; 11]%N = Some (pk, sig) /\
       (forall p, signatures Demo.stale !! [160; 11]%N = Some p ->
          p = (pk, sig)) /\
       ret =
         [sig;
          ToByteVector
            match provider_GetPubKey (Demo.keystore [[11%N]] [])
                    [160; 11]%N with
            | Some pubkey => pubkey
            | None => CPubKey_default
            end]) /\
    (ok = false -> ret = [] /\ signatures sd' = signatures Demo.stale).
Proof.
  apply (SignStep_single_key (ext := Demo.ext) (Demo.keystore [[11%N]] [])
           Demo.creator Demo.p2pkh Demo.stale TX_PUBKEYHASH [160; 11]%N []
           [160; 11]%N).
  - reflexivity.
  - right. split; reflexivity.
Defined.

(** X15 on an input: a PSBT input with the key paths of two keys. *)
Lemma PSBTInput_FillSignatureData_pubkeys_witness :
  map_Forall
    (fun pk _ =>
       exists pk',
         misc_pubkeys
           (PSBTInput_FillSignatureData (ext := Demo.ext)
              (tx_ext := DemoTx.tx_ext) DemoTx.psbt_input
              SignatureData_default) !! GetID (ext := Demo.ext) pk =
           Some pk' /\
         GetID (ext := Demo.ext) pk' = GetID (ext := Demo.ext) pk)
    (PSBTInput.hd_keypaths DemoTx.psbt_input) /\
  map_Forall
    (fun k pk =>
       misc_pubkeys
         (PSBTInput_FillSignatureData (ext := Demo.ext)
            (tx_ext := DemoTx.tx_ext) DemoTx.psbt_input
            SignatureData_default) !! k = Some pk)
    (misc_pubkeys SignatureData_default).
Proof.
  apply (PSBTInput_FillSignatureData_pubkeys (ext := Demo.ext)
           (tx_ext := DemoTx.tx_ext)).
  - reflexivity.
  - reflexivity.
  - intros pk [path Hpk]. apply list_elem_of_fmap.
    exists (pk, path). split; [reflexivity|].
    apply elem_of_map_to_list. exact Hpk.
  - apply map_Forall_empty.
Defined.

(** X16 on an input: signing the first input of [DemoTx.tx], which spends
    a PUBKEYHASH output, with its key. *)
Lemma SignSignature_outcome_witness :
  exists ret txTo' txin scriptSig',
    SignSignature (ext := Demo.ext) (tx_ext := DemoTx.tx_ext)
      (Demo.keystore [[11%N]] []) Demo.p2pkh DemoTx.tx 0%N 5000%Z 65%N =
      Some (ret, txTo') /\
    CMutableTransaction.vin DemoTx.tx !! N.to_nat 0 = Some txin /\
    CMutableTransaction.vin txTo' !! N.to_nat 0 =
      Some {| CTxIn.prevout := CTxIn.prevout txin;
              CTxIn.scriptSig := scriptSig';
              CTxIn.nSequence := CTxIn.nSequence txin |} /\
    (forall i, i <> N.to_nat 0 ->
       CMutableTransaction.vin txTo' !! i =
         CMutableTransaction.vin DemoTx.tx !! i) /\
    length (CMutableTransaction.vin txTo') =
      length (CMutableTransaction.vin DemoTx.tx) /\
    CMutableTransaction.nVersion txTo' =
      CMutableTransaction.nVersion DemoTx.tx /\
    CMutableTransaction.vout txTo' = CMutableTransaction.vout DemoTx.tx /\
    CMutableTransaction.nLockTime txTo' =
      CMutableTransaction.nLockTime DemoTx.tx /\
    (ret = true ->
     VerifyScript (Collaborators := Demo.ext) scriptSig' Demo.p2pkh
       (STANDARD_SCRIPT_VERIFY_FLAGS (Collaborators := Demo.ext))
       (MutableTransactionSignatureChecker (TxCollaborators := DemoTx.tx_ext)
          DemoTx.tx 0%N 5000%Z) = true) /\
    ((Solver (Collaborators := Demo.ext) Demo.p2pkh).1.1 = false ->
     ret = false /\ scriptSig' = []).
Proof.
  apply (SignSignature_outcome (ext := Demo.ext) (tx_ext := DemoTx.tx_ext)).
  - apply Demo_Solver_in_range.
  - simpl. lia.
Defined.

(** X17 on an input: the first input of [DemoTx.tx] and the transaction it
    spends from. *)
Lemma SignSignature_assertions_witness :
  (SignSignature (ext := Demo.ext) (tx_ext := DemoTx.tx_ext)
     (Demo.keystore [[11%N]] []) Demo.p2pkh DemoTx.tx 0%N 5000%Z 65%N = None <->
   length (CMutableTransaction.vin DemoTx.tx) <= N.to_nat 0) /\
  (SignSignature_from (ext := Demo.ext) (tx_ext := DemoTx.tx_ext)
     (Demo.keystore [[11%N]] []) DemoTx.txFrom DemoTx.tx 0%N 65%N = None <->
   length (CMutableTransaction.vin DemoTx.tx) <= N.to_nat 0 \/
   exists txin,
     CMutableTransaction.vin DemoTx.tx !! N.to_nat 0 = Some txin /\
     length (CMutableTransaction.vout DemoTx.txFrom) <=
       N.to_nat (COutPoint.n (CTxIn.prevout txin))) /\
  (forall txin txout,
     CMutableTransaction.vin DemoTx.tx !! N.to_nat 0 = Some txin ->
     CMutableTransaction.vout DemoTx.txFrom
       !! N.to_nat (COutPoint.n (CTxIn.prevout txin)) = Some txout ->
     SignSignature_from (ext := Demo.ext) (tx_ext := DemoTx.tx_ext)
       (Demo.keystore [[11%N]] []) DemoTx.txFrom DemoTx.tx 0%N 65%N =
       SignSignature (ext := Demo.ext) (tx_ext := DemoTx.tx_ext)
         (Demo.keystore [[11%N]] []) (CTxOut.scriptPubKey txout) DemoTx.tx
         0%N (CTxOut.nValue txout) 65%N).
Proof.
  apply (SignSignature_assertions (ext := Demo.ext) (tx_ext := DemoTx.tx_ext)).
  apply Demo_Solver_in_range.
Defined.

(** X19 on an input: the second signer of a 2-of-3 P2SH input. *)
Lemma SignPSBTInput_outcome_witness :
  exists b input' sd',
    SignPSBTInput (ext := Demo.ext) (tx_ext := DemoTx.tx_ext)
      (Demo.keystore [[12%N]] []) DemoTx.tx DemoTx.psbt_input
      SignatureData_default 0%Z 65%N = Some (b, input', sd') /\
    complete sd' = b /\
    PSBTInput.utxo input' = PSBTInput.utxo DemoTx.psbt_input /\
    PSBTInput.unknown input' = PSBTInput.unknown DemoTx.psbt_input /\
    (b = true ->
     VerifyScript (Collaborators := Demo.ext) (scriptSig sd')
       (CTxOut.scriptPubKey (PSBTInput.utxo DemoTx.psbt_input))
       (STANDARD_SCRIPT_VERIFY_FLAGS (Collaborators := Demo.ext))
       (MutableTransactionSignatureChecker (TxCollaborators := DemoTx.tx_ext)
          DemoTx.tx (to_unsigned_int 0)
          (CTxOut.nValue (PSBTInput.utxo DemoTx.psbt_input))) = true /\
     PSBTInput.final_script_sig input' = scriptSig sd' /\
     PSBTInput.partial_sigs input' = ∅ /\
     PSBTInput.hd_keypaths input' = ∅ /\
     PSBTInput.redeem_script input' = [] /\
     (scriptSig sd' <> [] ->
      forall provider2 tx2 sd2 index2 sighash2,
        SignPSBTInput (ext := Demo.ext) (tx_ext := DemoTx.tx_ext) provider2
          tx2 input' sd2 index2 sighash2 = Some (true, input', sd2))) /\
    (b = false ->
     PSBTInput.final_script_sig input' = [] /\
     PSBTInput.hd_keypaths input' = PSBTInput.hd_keypaths DemoTx.psbt_input /\
     (forall k v, PSBTInput.partial_sigs DemoTx.psbt_input !! k = Some v ->
        PSBTInput.partial_sigs input' !! k = Some v) /\
     (forall k, PSBTInput.partial_sigs DemoTx.psbt_input !! k = None ->
        PSBTInput.partial_sigs input' !! k = signatures sd' !! k)).
Proof.
  apply (SignPSBTInput_outcome (ext := Demo.ext) (tx_ext := DemoTx.tx_ext)).
  - apply Demo_Solver_in_range.
  - reflexivity.
  - reflexivity.
  - reflexivity.
Defined.

(** X20 on an input: the holder of the third key signs the input that
    nobody signed yet. *)
Lemma SignPSBTInput_signatures_origin_witness :
  exists b input' sd',
    SignPSBTInput (ext := Demo.ext) (tx_ext := DemoTx.tx_ext)
      (Demo.keystore [[13%N]] []) DemoTx.tx DemoTx.psbt_unsigned
      SignatureData_default 0%Z 65%N = Some (b, input', sd') /\
    map_Forall
      (fun k p =>
         PSBTInput.partial_sigs DemoTx.psbt_unsigned !! k = Some p \/
         signatures SignatureData_default !! k = Some p \/
         exists key scriptcode vchSig,
           provider_GetKey (Demo.keystore [[13%N]] []) k = Some key /\
           SignECDSA (TxCollaborators := DemoTx.tx_ext) key
             (SignatureHash (TxCollaborators := DemoTx.tx_ext) scriptcode
                DemoTx.tx (to_unsigned_int 0) 65%N
                (CTxOut.nValue (PSBTInput.utxo DemoTx.psbt_unsigned))) =
             Some vchSig /\
           p.2 = vchSig ++ [to_uint8 65])
      (PSBTInput.partial_sigs input').
Proof.
  apply (SignPSBTInput_signatures_origin (ext := Demo.ext)
           (tx_ext := DemoTx.tx_ext)).
  - apply Demo_Solver_in_range.
  - reflexivity.
  - reflexivity.
  - reflexivity.
Defined.

Lemma Demo_Solver_multisig_shape script :
  (Solver (Collaborators := Demo.ext) script).1.2 = TX_MULTISIG ->
  2 <= length (Solver (Collaborators := Demo.ext) script).2.
Proof.
  cbn. unfold Demo.Solver. repeat case_match; simplify_eq; simpl;
    try discriminate.
  intros _. rewrite length_app. simpl. lia.
Qed.

(** X21 on an input: a transaction whose first input carries a 2-of-3
    scriptSig with the signature of the second key only. *)
Lemma DataFromTransaction_sound_witness :
  exists txin data,
    CMutableTransaction.vin DemoTx.tx_partial !! N.to_nat 0 = Some txin /\
    DataFromTransaction (ext := Demo.ext) (tx_ext := DemoTx.tx_ext)
      DemoTx.tx_partial 0%N
      {| CTxOut.nValue := 5000%Z; CTxOut.scriptPubKey := Demo.multisig_2of3 |} =
      Some data /\
    scriptSig data = CTxIn.scriptSig txin /\
    complete data =
      (run_extractor (ext := Demo.ext)
         (MutableTransactionSignatureChecker (TxCollaborators := DemoTx.tx_ext)
            DemoTx.tx_partial 0%N 5000%Z)
         (VerifyScript_calls (TxCollaborators := DemoTx.tx_ext)
            (CTxIn.scriptSig txin) Demo.multisig_2of3
            (STANDARD_SCRIPT_VERIFY_FLAGS (Collaborators := Demo.ext)))
         (set_scriptSig (CTxIn.scriptSig txin) SignatureData_default)).1 /\
    misc_pubkeys data = ∅ /\
    (redeem_script data = [] \/
     (Solver (Collaborators := Demo.ext) Demo.multisig_2of3).1.2 =
       TX_SCRIPTHASH /\
     last (Stacks (tx_ext := DemoTx.tx_ext)
             (set_scriptSig (CTxIn.scriptSig txin) SignatureData_default)) =
       Some (redeem_script data)) /\
    accepted_by (ext := Demo.ext)
      (MutableTransactionSignatureChecker (TxCollaborators := DemoTx.tx_ext)
         DemoTx.tx_partial 0%N 5000%Z)
      data /\
    well_keyed (ext := Demo.ext) data.
Proof.
  apply (DataFromTransaction_sound (ext := Demo.ext) (tx_ext := DemoTx.tx_ext)
           DemoTx.tx_partial 0%N
           {| CTxOut.nValue := 5000%Z;
              CTxOut.scriptPubKey := Demo.multisig_2of3 |}).
  - simpl. lia.
  - apply Demo_Solver_multisig_shape.
Defined.

(** The extraction on that transaction: the signature of the second key is
    recovered and stored under its id, and the data are not complete. *)
Example scenario_extract_partial_multisig :
  DataFromTransaction (ext := Demo.ext) (tx_ext := DemoTx.tx_ext)
    DemoTx.tx_partial 0%N
    {| CTxOut.nValue := 5000%Z; CTxOut.scriptPubKey := Demo.multisig_2of3 |} =
    Some {| complete := false;
            scriptSig :=
              PushAll (ext := Demo.ext)
                [[]; Demo.sign [13%N] Demo.multisig_2of3; []];
            redeem_script := [];
            signatures :=
              {[ [160; 12]%N := ([12%N], Demo.sign [13%N] Demo.multisig_2of3) ]};
            misc_pubkeys := ∅ |}.
Proof. vm_compute. reflexivity. Qed.

(** Signing a PSBT input in two rounds: the holder of the second key adds
    a partial signature to the one the input carries, which completes the
    2-of-3 and finalizes the input. *)
Example scenario_psbt_second_signer :
  exists sd',
    SignPSBTInput (ext := Demo.ext) (tx_ext := DemoTx.tx_ext)
      (Demo.keystore [[12%N]] []) DemoTx.tx DemoTx.psbt_input
      SignatureData_default 0%Z 65%N =
      Some (true,
            {| PSBTInput.utxo := PSBTInput.utxo DemoTx.psbt_input;
               PSBTInput.partial_sigs := ∅;
               PSBTInput.hd_keypaths := ∅;
               PSBTInput.redeem_script := [];
               PSBTInput.final_script_sig :=
                 PushAll (ext := Demo.ext)
                   [[]; Demo.sign [12%N] Demo.multisig_2of3;
                    Demo.sign [13%N] Demo.multisig_2of3; Demo.multisig_2of3];
               PSBTInput.unknown := ∅ |},
            sd').
Proof. eexists. vm_compute. reflexivity. Qed.

(** X22 on an input: the 2-of-3 script, and a stack with the placeholder
    and the signatures of the first and the third key. *)
Lemma DataFromTransaction_matches_in_key_order_witness :
  exists data',
    match_sigs (ext := Demo.ext) Demo.checker Demo.multisig_2of3
      [[2]; [11]; [12]; [13]; [3]]%N
      (length [[2]; [11]; [12]; [13]; [3]]%N - 2)
      [[]; Demo.sign [12%N] Demo.multisig_2of3;
       Demo.sign [14%N] Demo.multisig_2of3]
      0 SignatureData_default = Some data' /\
    (forall sig p,
       sig ∈ [[]; Demo.sign [12%N] Demo.multisig_2of3;
              Demo.sign [14%N] Demo.multisig_2of3] ->
       p ∈ multisig_pubkeys [[2]; [11]; [12]; [13]; [3]]%N ->
       CheckSig Demo.checker sig p Demo.multisig_2of3
         (STANDARD_SCRIPT_VERIFY_FLAGS (Collaborators := Demo.ext)) = true ->
       signatures data'
         !! GetID (ext := Demo.ext) (CPubKey_of_bytes (Collaborators := Demo.ext) p) =
         Some (CPubKey_of_bytes (Collaborators := Demo.ext) p, sig)) /\
    (forall k v, signatures SignatureData_default !! k = Some v ->
       signatures data' !! k = Some v).
Proof.
  apply (DataFromTransaction_matches_in_key_order (ext := Demo.ext)
           Demo.checker Demo.multisig_2of3 [[2]; [11]; [12]; [13]; [3]]%N
           [[]; Demo.sign [12%N] Demo.multisig_2of3;
            Demo.sign [14%N] Demo.multisig_2of3]
           SignatureData_default).
  - simpl. lia.
  - intros i j pi pj Hi Hj Hid.
    destruct i as [|[|[|i]]], j as [|[|[|j]]]; vm_compute in Hi, Hj;
      simplify_eq; reflexivity.
  - intros p _. apply lookup_empty.
  - intros sig i j pi pj Hs Hi Hj Hci Hcj.
    destruct i as [|[|[|i]]], j as [|[|[|j]]]; vm_compute in Hi, Hj;
      simplify_eq; try reflexivity;
      repeat (apply elem_of_cons in Hs as [->|Hs]);
      try (inversion Hs; fail);
      vm_compute in Hci, Hcj; discriminate.
  - intros a b sa sb i j pi pj Hab Ha Hb Hi Hj Hci Hcj.
    destruct a as [|[|[|a]]], b as [|[|[|b]]]; try lia;
      vm_compute in Ha, Hb; simplify_eq;
      destruct i as [|[|[|i]]], j as [|[|[|j]]]; vm_compute in Hi, Hj;
      simplify_eq; try lia; vm_compute in Hci, Hcj; discriminate.
Defined.
